(** * Space-image entropy generator: the entropy pipeline and pool

    A shallow embedding of the core of the repository
    - [app/entropy/validation.py]   (module [Validation]),
    - [app/entropy/hashing.py]      (module [Hashing]),
    - [app/preprocessing/noise_extraction.py] (module [NoiseExtraction]),
    - [app/entropy/pool.py]         (module [Pool]),
    - [app/api/routes.py]           (module [Routes]),
    - [app/main.py]                 (module [Main]),
    with the properties of the specification stated over it.

    Conventions.
    - A Python [bytes] value is a [list byte]; iterating it yields the
      integers [int_of b] in 0..255.
    - A Python [float] is an IEEE 754 binary64 number: Rocq's primitive
      [float], with the same correctly rounded [+ - * / sqrt] and the same
      comparisons (false on NaN).
    - Functions of the Python runtime and of third-party libraries that
      the repository only calls (libm's [log2], the builtin [round], the
      BLAKE3 and SHA-256 primitives, OpenCV/NumPy filters, the wall clock,
      the random generator) are variables of the section that models the
      calling code. *)

From Stdlib Require Import ZArith List Floats Bool Lia.
From Stdlib.Strings Require Import Ascii String Byte.
From stdpp Require Import base list gmap strings sorting.
Import ListNotations.

#[local] Set Warnings "-inexact-float,-register-all".
#[local] Open Scope Z_scope.

(** ** Python values shared by the modules *)

Abbreviation bytes := (list byte).

#[global] Instance byte_eq_decision : EqDecision byte := Byte.byte_eq_dec.

(** [b] as the integer Python yields when iterating over a [bytes]. *)
Definition int_of (b : byte) : Z := Z.of_N (Byte.to_N b).

(** The byte of value [z mod 256]. *)
Definition byte_of (z : Z) : byte :=
  match Byte.of_N (Z.to_N (z mod 256)) with
  | Some b => b
  | None => "000"%byte
  end.

(** [range(start, start + n)] *)
Fixpoint range_from (start : Z) (n : nat) : list Z :=
  match n with
  | O => []
  | S n' => start :: range_from (start + 1) n'
  end.

(** [len(x)] as a Python integer. *)
Definition len {A} (l : list A) : Z := Z.of_nat (length l).

(** [float(z)]: the binary64 number nearest to the integer [z]. *)
Definition float_of_Z (z : Z) : float :=
  SF2Prim (binary_normalize prec emax z 0 false).

(** [a / b] on two Python integers (true division): the binary64 number
    nearest to the quotient, ties to even.  Operands below 2^53 in
    magnitude are converted and divided, as CPython does; for larger ones
    the quotient is taken on the integers to 55 bits or more, with a sticky
    bit for the remainder, and rounded once.  Not covered: [b = 0]
    ([ZeroDivisionError]) and a quotient beyond the range of binary64
    ([OverflowError]; here an infinity). *)
Definition int_truediv (a b : Z) : float :=
  if (Z.abs a <? 2 ^ 53) && (Z.abs b <? 2 ^ 53)
  then (float_of_Z a / float_of_Z b)%float
  else
    let shift := Z.max 0 (Z.log2 (Z.abs b) - Z.log2 (Z.abs a) + 55) in
    let scaled := Z.abs a * 2 ^ shift in
    let quotient := scaled / Z.abs b in
    let sticky := if scaled mod Z.abs b =? 0 then 0 else 1 in
    let digits := 2 * quotient + sticky in
    let negate := xorb (a <? 0) (b <? 0) in
    SF2Prim (binary_normalize prec emax (if negate then - digits else digits)
               (- (shift + 1)) negate).

(** [x ** 2] on a float, as the product [x * x].  CPython evaluates the
    power with libm's [pow], which is not correctly rounded: its result
    can be the neighbour of the product in the last place.  The two agree
    where the square is exact, as on the constant and counter blocks
    evaluated below; the statements made for every input do not depend on
    the value of the square. *)
Definition fsquare (x : float) : float := (x * x)%float.

(** The builtin [max(a, b)] on floats: [b] when [b > a], else [a]. *)
Definition py_max (a b : float) : float := if (a <? b)%float then b else a.

(** * validation.py *)

Module Validation.

(** [collections.Counter(data)]: a dict from byte value to count, which
    keeps the order in which the values first occur. *)
Fixpoint counter_incr (b : byte) (c : list (byte * Z)) : list (byte * Z) :=
  match c with
  | [] => [(b, 1)]
  | (k, v) :: rest =>
      if Byte.eqb k b then (k, v + 1) :: rest else (k, v) :: counter_incr b rest
  end.

Definition Counter (data : bytes) : list (byte * Z) :=
  fold_left (fun c b => counter_incr b c) data [].

(** [byte_counts.get(i, 0)] *)
Fixpoint counter_get (c : list (byte * Z)) (i : Z) : Z :=
  match c with
  | [] => 0
  | (k, v) :: rest => if int_of k =? i then v else counter_get rest i
  end.

(** The fields of the dict that [validate] returns.  [data_size] and
    [error] are present on one branch each, the five fields of [details]
    only when [detailed] is set. *)
Record details := {
  chi_square_score : float;
  runs_test_score : float;
  autocorrelation_score : float;
  bit_entropy_score : float;
  min_required_entropy : float
}.

Record result := {
  passed : bool;
  quality_score : float;
  shannon_entropy : float;
  data_size : option Z;
  error : option string;
  detail : option details
}.

Section EntropyValidator.

(** [math.log2] and the builtin [round(x, ndigits)]. *)
Variable log2 : float -> float.
Variable round : float -> Z -> float.

(** [self.min_shannon_entropy] *)
Variable min_shannon_entropy : float.

Definition calculate_shannon_entropy (data : bytes) : float :=
  match data with
  | [] => 0%float
  | _ =>
      let byte_counts := Counter data in
      let data_len := len data in
      fold_left
        (fun entropy count =>
           let probability := int_truediv count data_len in
           if (0 <? probability)%float
           then (entropy - probability * log2 probability)%float
           else entropy)
        (map snd byte_counts) 0%float
  end.

Definition chi_square_test (data : bytes) : float :=
  if (len data =? 0) || (len data <? 256) then 0%float
  else
    let expected_freq := int_truediv (len data) 256 in
    let byte_counts := Counter data in
    let chi_square :=
      fold_left
        (fun chi_square i =>
           let observed := counter_get byte_counts i in
           (chi_square
            + fsquare (float_of_Z observed - expected_freq) / expected_freq)%float)
        (map Z.of_nat (seq 0 256)) 0%float in
    (1 / (1 + abs (chi_square - 255) / 100))%float.

(** The number of places [i] in [1 .. len-1] with
    [binary_sequence[i] != binary_sequence[i-1]], plus one. *)
Fixpoint count_runs (prev : Z) (rest : list Z) (runs : Z) : Z :=
  match rest with
  | [] => runs
  | x :: rest' => count_runs x rest' (if x =? prev then runs else runs + 1)
  end.

(** Where [math.sqrt] is reached, [n0] and [n1] are at least 1 and sum to
    at least 10, so the variance is positive and the call does not
    raise. *)
Definition runs_test (data : bytes) : float :=
  if (len data =? 0) || (len data <? 10) then 0%float
  else
    let sorted_data := merge_sort Z.le (map int_of data) in
    let median := nth (Z.to_nat (len sorted_data / 2)) sorted_data 0 in
    let binary_sequence :=
      map (fun b => if median <=? int_of b then 1 else 0) data in
    let runs :=
      match binary_sequence with
      | [] => 1
      | x :: rest => count_runs x rest 1
      end in
    let n1 := fold_left Z.add binary_sequence 0 in
    let n0 := len binary_sequence - n1 in
    if (n1 =? 0) || (n0 =? 0) then 0%float
    else
      let expected_runs := (int_truediv (2 * n0 * n1) (n0 + n1) + 1)%float in
      let variance :=
        int_truediv (2 * n0 * n1 * (2 * n0 * n1 - n0 - n1))
                    ((n0 + n1) ^ 2 * (n0 + n1 - 1)) in
      if (variance =? 0)%float then 0%float
      else
        let z_score :=
          abs ((float_of_Z runs - expected_runs) / sqrt variance)%float in
        py_max 0 (1 - z_score / 4)%float.

(** The loop of [autocorrelation_test] from index [i] on, for a lag that
    is not negative: [xs] is [data[i:]], and the pair is (numerator,
    denominator). *)
Fixpoint autocorr_sums (mean : float) (xs : list Z) (lag : nat)
    (acc : float * float) : float * float :=
  match xs with
  | [] => acc
  | x :: rest =>
      match nth_error xs lag with
      | None => acc
      | Some y =>
          let diff1 := (float_of_Z x - mean)%float in
          let diff2 := (float_of_Z y - mean)%float in
          autocorr_sums mean rest lag
            ((fst acc + diff1 * diff2)%float, (snd acc + fsquare diff1)%float)
      end
  end.

(** For a lag that is not negative, as at the only call, which passes
    the default 1.  With a negative lag the loop of the source runs over
    [range(len(data) - lag)], past the end of the data, and raises
    [IndexError] on every non-empty input; that case is outside this
    definition. *)
Definition autocorrelation_test (data : bytes) (lag : Z) : float :=
  if (len data =? 0) || (len data <=? lag) then 0%float
  else
    let mean := int_truediv (fold_left Z.add (map int_of data) 0) (len data) in
    let '(numerator, denominator) :=
      autocorr_sums mean (map int_of data) (Z.to_nat lag) (0%float, 0%float) in
    if (denominator =? 0)%float then 0%float
    else
      let correlation := abs (numerator / denominator)%float in
      py_max 0 (1 - correlation)%float.

(** The number of set bits among the bit positions 0..7 of a byte. *)
Definition ones_of (byte_val : Z) : Z :=
  fold_left
    (fun ones bit_pos =>
       if Z.land byte_val (Z.shiftl 1 bit_pos) =? 0 then ones else ones + 1)
    (map Z.of_nat (seq 0 8)) 0.

Definition bit_entropy_test (data : bytes) : float :=
  match data with
  | [] => 0%float
  | _ =>
      let '(ones, total_bits) :=
        fold_left
          (fun '(ones, total_bits) b => (ones + ones_of (int_of b), total_bits + 8))
          data (0, 0) in
      let ratio :=
        if 0 <? total_bits then int_truediv ones total_bits else 0%float in
      let score := (1 - abs (ratio - 0.5) * 2)%float in
      py_max 0 score
  end.

(** The weighted average computed by [validate]. *)
Definition weighted_quality
    (shannon chi_square runs autocorr bit_entropy : float) : float :=
  (shannon / 8 * 0.4 + chi_square * 0.25 + runs * 0.15
   + autocorr * 0.10 + bit_entropy * 0.10)%float.

Definition validate (data : bytes) (detailed : bool) : result :=
  match data with
  | [] =>
      {| passed := false; quality_score := 0; shannon_entropy := 0;
         data_size := None; error := Some "Empty data"%string; detail := None |}
  | _ =>
      let shannon := calculate_shannon_entropy data in
      let chi_square := chi_square_test data in
      let runs := runs_test data in
      let autocorr := autocorrelation_test data 1 in
      let bit_entropy := bit_entropy_test data in
      let quality := weighted_quality shannon chi_square runs autocorr bit_entropy in
      let is_passed :=
        (min_shannon_entropy <=? shannon)%float && (0.75 <=? quality)%float in
      {| passed := is_passed;
         quality_score := round quality 4;
         shannon_entropy := round shannon 4;
         data_size := Some (len data);
         error := None;
         detail :=
           if detailed
           then Some {| chi_square_score := round chi_square 4;
                        runs_test_score := round runs 4;
                        autocorrelation_score := round autocorr 4;
                        bit_entropy_score := round bit_entropy 4;
                        min_required_entropy := min_shannon_entropy |}
           else None |}
  end.

(** The loop of [batch_validate]; the pair is ([valid_blocks],
    [results]). *)
Definition batch_validate (data_blocks : list bytes)
    : list bytes * list result :=
  fold_left
    (fun '(valid_blocks, results) block =>
       let result := validate block false in
       let results := results ++ [result] in
       if passed result then (valid_blocks ++ [block], results)
       else (valid_blocks, results))
    data_blocks ([], []).

End EntropyValidator.

(** [quick_validate] asks the module-level [validator =
    EntropyValidator()], whose threshold is the default 7.8. *)
Definition quick_validate (log2 : float -> float) (round : float -> Z -> float)
    (data : bytes) : bool :=
  passed (validate log2 round 7.8 data false).

(** The quality formula as the specification writes it, term by term. *)
Definition spec_quality (H chi runs autocorr bit_balance : float) : float :=
  (0.4 * (H / 8) + 0.25 * chi + 0.15 * runs + 0.10 * autocorr
   + 0.10 * bit_balance)%float.

(** A [log2] on binary64 that is exact on the powers of two: exponent of
    [x] plus a linear term in its mantissa.  It instantiates [math.log2]
    where a statement assumes that exactness. *)
Definition log2_dyadic (x : float) : float :=
  let '(m, e) := FloatOps.Z.frexp x in
  (float_of_Z (e - 1) + (2 * m - 1))%float.

(** [bytes([i % 256 for i in range(n)])] *)
Definition modular_counter (n : nat) : bytes := map byte_of (range_from 0 n).

(** ** Properties of the validator *)

Lemma float_mul_comm (x y : float) : (x * y)%float = (y * x)%float.
Proof.
  apply Prim2SF_inj. rewrite !mul_spec. unfold SF64mul.
  destruct (Prim2SF x) as [sx|sx| |sx mx ex], (Prim2SF y) as [sy|sy| |sy my ey];
    cbn [SFmul]; rewrite ?(xorb_comm sx sy); try reflexivity.
  now rewrite (Pos.mul_comm mx my), (Z.add_comm ex ey).
Qed.

Lemma weighted_quality_spec (H chi runs autocorr bit_balance : float) :
  weighted_quality H chi runs autocorr bit_balance
  = spec_quality H chi runs autocorr bit_balance.
Proof.
  unfold weighted_quality, spec_quality.
  now rewrite (float_mul_comm (H / 8) 0.4), (float_mul_comm chi 0.25),
    (float_mul_comm runs 0.15), (float_mul_comm autocorr 0.10),
    (float_mul_comm bit_balance 0.10).
Qed.

(** C3. On a non-empty input [validate] computes the quality score
    0.4*(H/8) + 0.25*chi + 0.15*runs + 0.10*autocorr + 0.10*bit_balance
    from the five metric scores, reports it rounded to four places, and
    returns [passed = true] exactly when H >= min_shannon and the computed
    (unrounded) score is >= 0.75. *)
Theorem validate_quality_and_pass
    (log2 : float -> float) (round : float -> Z -> float)
    (min_shannon : float) (b : byte) (d : bytes) (detailed : bool) :
  let data := b :: d in
  let H := calculate_shannon_entropy log2 data in
  let Q := spec_quality H (chi_square_test data) (runs_test data)
             (autocorrelation_test data 1) (bit_entropy_test data) in
  let r := validate log2 round min_shannon data detailed in
  quality_score r = round Q 4
  /\ shannon_entropy r = round H 4
  /\ (passed r = true
      <-> (min_shannon <=? H)%float = true /\ (0.75 <=? Q)%float = true).
Proof.
  cbv zeta. cbn [validate passed quality_score shannon_entropy].
  rewrite weighted_quality_spec.
  split; [reflexivity | split; [reflexivity | apply andb_true_iff]].
Qed.

Lemma Counter_repeat_acc (c : byte) (n : nat) (k : Z) :
  fold_left (fun acc b => counter_incr b acc) (repeat c n) [(c, k)]
  = [(c, k + Z.of_nat n)].
Proof.
  revert k. induction n as [|n IH]; intros k.
  - cbn. now rewrite Z.add_0_r.
  - cbn [repeat fold_left counter_incr].
    rewrite (byte_dec_lb (x:=c) (y:=c) eq_refl), IH. f_equal. f_equal. lia.
Qed.

Lemma Counter_repeat (c : byte) (n : nat) :
  Counter (repeat c (S n)) = [(c, Z.of_nat (S n))].
Proof.
  unfold Counter. cbn [repeat fold_left counter_incr].
  rewrite Counter_repeat_acc. f_equal. f_equal. lia.
Qed.

Lemma shannon_constant (log2 : float -> float) (c : byte) (n : nat) :
  calculate_shannon_entropy log2 (repeat c (S n))
  = let p := int_truediv (Z.of_nat (S n)) (Z.of_nat (S n)) in
    if (0 <? p)%float then (0 - p * log2 p)%float else 0%float.
Proof.
  unfold calculate_shannon_entropy.
  change (repeat c (S n)) with (c :: repeat c n) at 1. cbv iota.
  rewrite Counter_repeat. unfold len. rewrite repeat_length. reflexivity.
Qed.

Lemma passed_validate_nonempty
    (log2 : float -> float) (round : float -> Z -> float)
    (min_shannon : float) (data : bytes) (detailed : bool) :
  data <> [] ->
  passed (validate log2 round min_shannon data detailed)
  = (min_shannon <=? calculate_shannon_entropy log2 data)%float
    && (0.75 <=? weighted_quality
                  (calculate_shannon_entropy log2 data)
                  (chi_square_test data) (runs_test data)
                  (autocorrelation_test data 1)
                  (bit_entropy_test data))%float.
Proof. destruct data; [congruence | reflexivity]. Qed.

Lemma shannon_nonempty (log2 : float -> float) (data : bytes) :
  data <> [] ->
  calculate_shannon_entropy log2 data
  = fold_left
      (fun entropy count =>
         let probability := int_truediv count (len data) in
         if (0 <? probability)%float
         then (entropy - probability * log2 probability)%float
         else entropy)
      (map snd (Counter data)) 0%float.
Proof. destruct data; [congruence | reflexivity]. Qed.

(** In the 4096-byte counter every byte value occurs 16 times. *)
Lemma modular_counter_counts :
  map snd (Counter (modular_counter 4096)) = repeat 16 256.
Proof. vm_compute. reflexivity. Qed.

Lemma modular_counter_nonempty : modular_counter 4096 <> [].
Proof. discriminate. Qed.

Lemma modular_counter_len : len (modular_counter 4096) = 4096.
Proof. vm_compute. reflexivity. Qed.

(** With [log2 (2^-8) = -8] each of the 256 equal counts adds
    2^-8 * 8 to the entropy. *)
Lemma shannon_uniform_fold (log2 : float -> float) (n : nat) (e : float) :
  log2 0.00390625%float = (-8)%float ->
  fold_left
    (fun entropy count =>
       let probability := int_truediv count 4096 in
       if (0 <? probability)%float
       then (entropy - probability * log2 probability)%float
       else entropy)
    (repeat 16 n) e
  = fold_left (fun entropy _ => (entropy - 0.00390625 * -8)%float)
      (repeat 16 n) e.
Proof.
  intros Hlog. revert e. induction n as [|n IH]; intros e; [reflexivity |].
  cbn [repeat fold_left]. rewrite IH. cbv zeta.
  replace (int_truediv 16 4096) with 0.00390625%float
    by (vm_compute; reflexivity).
  replace (0 <? 0.00390625)%float with true by (vm_compute; reflexivity).
  now rewrite Hlog.
Qed.

Lemma modular_counter_shannon (log2 : float -> float) :
  log2 0.00390625%float = (-8)%float ->
  calculate_shannon_entropy log2 (modular_counter 4096) = 8%float.
Proof.
  intros Hlog.
  rewrite (shannon_nonempty log2 _ modular_counter_nonempty).
  rewrite modular_counter_counts, modular_counter_len.
  rewrite (shannon_uniform_fold log2 256 0 Hlog).
  vm_compute. reflexivity.
Qed.

(** The quality of the 4096-byte counter, with its entropy of 8, is
    below the threshold. *)
Lemma modular_counter_quality :
  (0.75 <=? weighted_quality 8
              (chi_square_test (modular_counter 4096))
              (runs_test (modular_counter 4096))
              (autocorrelation_test (modular_counter 4096) 1)
              (bit_entropy_test (modular_counter 4096)))%float = false.
Proof. vm_compute. reflexivity. Qed.

(** C5. With the default threshold 7.8 and a [log2] that is exact at 1 and
    at 2^-8, every constant block of 4096 bytes (the all-zero block among
    them) and the 4096-byte modular counter fail validation. *)
Theorem pathological_blocks_fail
    (log2 : float -> float) (round : float -> Z -> float) (detailed : bool)
    (log2_one : log2 1%float = 0%float)
    (log2_2m8 : log2 0.00390625%float = (-8)%float) :
  passed (validate log2 round 7.8 (repeat "000"%byte 4096) detailed) = false
  /\ (forall c : byte,
        passed (validate log2 round 7.8 (repeat c 4096) detailed) = false)
  /\ passed (validate log2 round 7.8 (modular_counter 4096) detailed) = false.
Proof.
  assert (Hconst : forall c : byte,
            passed (validate log2 round 7.8 (repeat c 4096) detailed) = false).
  { intros c.
    rewrite passed_validate_nonempty by discriminate.
    change 4096%nat with (S 4095). rewrite shannon_constant.
    replace (int_truediv (Z.of_nat (S 4095)) (Z.of_nat (S 4095)))
      with 1%float by (vm_compute; reflexivity).
    cbv zeta. replace (0 <? 1)%float with true by (vm_compute; reflexivity).
    rewrite log2_one.
    replace (7.8 <=? 0 - 1 * 0)%float with false by (vm_compute; reflexivity).
    reflexivity. }
  split; [apply Hconst | split; [exact Hconst |]].
  rewrite (passed_validate_nonempty _ _ _ _ _ modular_counter_nonempty).
  rewrite (modular_counter_shannon log2 log2_2m8), modular_counter_quality.
  apply andb_false_r.
Qed.

Lemma pathological_blocks_fail_witness :
  log2_dyadic 1%float = 0%float
  /\ log2_dyadic 0.00390625%float = (-8)%float
  /\ passed (validate log2_dyadic (fun x _ => x) 7.8
               (repeat "000"%byte 4096) false) = false
  /\ (forall c : byte,
        passed (validate log2_dyadic (fun x _ => x) 7.8
                  (repeat c 4096) false) = false)
  /\ passed (validate log2_dyadic (fun x _ => x) 7.8
               (modular_counter 4096) false) = false.
Proof.
  assert (H1 : log2_dyadic 1%float = 0%float) by (vm_compute; reflexivity).
  assert (H2 : log2_dyadic 0.00390625%float = (-8)%float)
    by (vm_compute; reflexivity).
  split; [exact H1 | split; [exact H2 |]].
  exact (pathological_blocks_fail log2_dyadic (fun x _ => x) false H1 H2).
Defined.

(** C8. Edge behaviour of the metrics: below 256 bytes the chi-square
    score is 0, below 10 bytes the runs score is 0, and on the empty input
    [validate] returns passed = false and quality 0 with the error
    "Empty data". *)
Theorem metric_edge_behaviour
    (log2 : float -> float) (round : float -> Z -> float)
    (min_shannon : float) (detailed : bool) :
  (forall d : bytes, len d < 256 -> chi_square_test d = 0%float)
  /\ (forall d : bytes, len d < 10 -> runs_test d = 0%float)
  /\ validate log2 round min_shannon [] detailed
     = {| passed := false; quality_score := 0; shannon_entropy := 0;
          data_size := None; error := Some "Empty data"%string;
          detail := None |}.
Proof.
  split; [| split; [| reflexivity]]; intros d Hd.
  - unfold chi_square_test.
    destruct (Z.ltb_spec (len d) 256) as [_|Hge]; [| lia].
    now rewrite orb_true_r.
  - unfold runs_test.
    destruct (Z.ltb_spec (len d) 10) as [_|Hge]; [| lia].
    now rewrite orb_true_r.
Qed.

Lemma metric_edge_behaviour_witness :
  chi_square_test (modular_counter 255) = 0%float
  /\ runs_test (modular_counter 9) = 0%float.
Proof.
  pose proof (metric_edge_behaviour log2_dyadic (fun x _ => x) 7.8 false)
    as (Hchi & Hruns & _).
  split; [apply Hchi | apply Hruns]; vm_compute; reflexivity.
Defined.

(** ** The batch loop and the range of the scores *)

Lemma batch_validate_loop
    (log2 : float -> float) (round : float -> Z -> float) (min_shannon : float)
    (data_blocks : list bytes) (valid_blocks : list bytes)
    (results : list result) :
  fold_left
    (fun '(valid_blocks, results) block =>
       let result := validate log2 round min_shannon block false in
       let results := results ++ [result] in
       if passed result then (valid_blocks ++ [block], results)
       else (valid_blocks, results))
    data_blocks (valid_blocks, results)
  = (valid_blocks
     ++ List.filter
          (fun block => passed (validate log2 round min_shannon block false))
          data_blocks,
     results
     ++ map (fun block => validate log2 round min_shannon block false)
          data_blocks).
Proof.
  revert valid_blocks results.
  induction data_blocks as [|block rest IH]; intros valid_blocks results.
  - cbn. now rewrite !app_nil_r.
  - cbn [fold_left List.filter map]. cbv zeta.
    destruct (passed (validate log2 round min_shannon block false));
      rewrite IH, <- ?app_assoc; reflexivity.
Qed.

(** X1. [batch_validate] returns as valid blocks the input blocks whose
    validation passes, in their input order, and one validation result per
    input block, in order; an empty block is never among the valid ones.
    With the default threshold the valid blocks are those that
    [quick_validate] accepts. *)
Theorem batch_validate_filters
    (log2 : float -> float) (round : float -> Z -> float) (min_shannon : float)
    (data_blocks : list bytes) :
  fst (batch_validate log2 round min_shannon data_blocks)
  = List.filter
      (fun block => passed (validate log2 round min_shannon block false))
      data_blocks
  /\ snd (batch_validate log2 round min_shannon data_blocks)
     = map (fun block => validate log2 round min_shannon block false)
         data_blocks
  /\ Forall (fun block => block <> [])
       (fst (batch_validate log2 round min_shannon data_blocks))
  /\ fst (batch_validate log2 round 7.8 data_blocks)
     = List.filter (quick_validate log2 round) data_blocks.
Proof.
  unfold batch_validate. rewrite !batch_validate_loop. cbn [fst snd app].
  split; [reflexivity | split; [reflexivity | split; [| reflexivity]]].
  apply Forall_forall. intros block Hin.
  apply list_elem_of_In, filter_In in Hin as [_ Hpass].
  intros ->. discriminate Hpass.
Qed.

Lemma float_ltb_leb (x y : float) :
  (x <? y)%float = true -> (x <=? y)%float = true.
Proof.
  rewrite ltb_spec, leb_spec. unfold SFltb, SFleb.
  destruct (SFcompare (Prim2SF x) (Prim2SF y)) as [[| |]|];
    (reflexivity || discriminate).
Qed.

Lemma py_max_zero (x : float) : (0 <=? py_max 0 x)%float = true.
Proof.
  unfold py_max. destruct (0 <? x)%float eqn:E.
  - now apply float_ltb_leb.
  - reflexivity.
Qed.

(** X2. The runs, autocorrelation and bit-balance scores are never
    negative and never NaN, whatever the input and for every lag that is
    not negative: each is 0.0 or the result of [max(0.0, ...)]. *)
Theorem guarded_scores_not_negative (data : bytes) (lag : Z) :
  0 <= lag ->
  (0 <=? runs_test data)%float = true
  /\ (0 <=? autocorrelation_test data lag)%float = true
  /\ (0 <=? bit_entropy_test data)%float = true.
Proof.
  intros _. split; [| split].
  - unfold runs_test.
    repeat match goal with
           | |- context [if ?c then _ else _] => destruct c
           end; (reflexivity || apply py_max_zero).
  - unfold autocorrelation_test.
    destruct ((len data =? 0) || (len data <=? lag)); [reflexivity |].
    destruct (autocorr_sums _ _ _ _) as [numerator denominator].
    destruct (denominator =? 0)%float; [reflexivity | apply py_max_zero].
  - unfold bit_entropy_test. destruct data as [|b data]; [reflexivity |].
    destruct (fold_left _ _ _) as [ones total_bits]. apply py_max_zero.
Qed.

Lemma guarded_scores_not_negative_witness :
  (0 <=? runs_test (modular_counter 16))%float = true
  /\ (0 <=? autocorrelation_test (modular_counter 16) 3)%float = true
  /\ (0 <=? bit_entropy_test (modular_counter 16))%float = true.
Proof. apply (guarded_scores_not_negative (modular_counter 16) 3). lia. Defined.

End Validation.

(** * hashing.py *)

Module Hashing.

(** [data[:stop]] *)
Definition slice_to {A} (data : list A) (stop : Z) : list A :=
  if 0 <=? stop then firstn (Z.to_nat stop) data
  else firstn (Z.to_nat (len data + stop)) data.

(** [data[start:stop]] for [0 <= start <= stop] *)
Definition slice {A} (data : list A) (start stop : nat) : list A :=
  firstn (stop - start) (skipn start data).

(** [struct.pack('>Q', t)]: the 8 bytes of [t], most significant first;
    [None] stands for [struct.error], raised outside 0 .. 2^64-1. *)
Definition pack_Q (t : Z) : option bytes :=
  if (0 <=? t) && (t <? 2 ^ 64)
  then Some (map (fun i => byte_of (Z.shiftr t (8 * (7 - Z.of_nat i)))) (seq 0 8))
  else None.

(** [a ^ b] on two byte values. *)
Definition byte_xor (a b : byte) : byte := byte_of (Z.lxor (int_of a) (int_of b)).

(** The loop [for i in range(len(result)): result[i] ^= data[i]];
    [None] stands for the [IndexError] of a [data] shorter than [result]. *)
Fixpoint xor_into (result data : bytes) : option bytes :=
  match result, data with
  | [], _ => Some []
  | r :: result', d :: data' =>
      match xor_into result' data' with
      | Some out => Some (byte_xor r d :: out)
      | None => None
      end
  | _ :: _, [] => None
  end.

(** The instance state: [self.previous_hash]. *)
Record EntropyHasher := { previous_hash : option bytes }.

Definition init : EntropyHasher := {| previous_hash := None |}.

(** A stand-in digest (a running byte sum spread over the output), used
    only to instantiate statements made for every primitive. *)
Definition checksum_digest (data : bytes) (n : nat) : bytes :=
  map (fun i => byte_of (fold_left Z.add (map int_of data) 0 + 7 * Z.of_nat i))
      (seq 0 n).

Section EntropyHasher.

(** [blake3.blake3(data).digest(length=n)] (BLAKE3's extensible output;
    the default [digest()] is its first 32 bytes) and
    [hashlib.sha256(data).digest()]. *)
Variable blake3_digest : bytes -> nat -> bytes.
Variable sha256_digest : bytes -> bytes.

Definition sha256_hash (data : bytes) : bytes := sha256_digest data.

Definition blake3_hash (data : bytes) : bytes := blake3_digest data 32.

(** [now] is [int(datetime.utcnow().timestamp() * 1000000)] at the time of
    the call; [timestamp], when given, is the same integer of the argument.
    [None] as a result stands for [struct.error]. *)
Definition hash_with_timestamp (now : Z) (data : bytes) (timestamp : option Z)
    : option bytes :=
  let timestamp_int := match timestamp with Some t => t | None => now end in
  match pack_Q timestamp_int with
  | Some timestamp_bytes =>
      let combined := data ++ timestamp_bytes in
      Some (blake3_hash combined)
  | None => None
  end.

(** [self.previous_hash or b'\x00' * 32] *)
Definition previous_or_zero (self : EntropyHasher) : bytes :=
  match previous_hash self with
  | Some (b :: h) => b :: h
  | Some [] | None => repeat "000"%byte 32
  end.

Definition hash_chain (data : bytes) (prev : option bytes) (self : EntropyHasher)
    : bytes * EntropyHasher :=
  let prev :=
    match prev with Some p => p | None => previous_or_zero self end in
  let combined := prev ++ data in
  let new_hash := blake3_hash combined in
  (new_hash, {| previous_hash := Some new_hash |}).

(** Round [i] of [rounds]: BLAKE3 when [i] is even, SHA-256 when odd. *)
Definition multi_round_hash (data : bytes) (rounds : nat) : bytes :=
  fold_left
    (fun result i => if Nat.even i then blake3_hash result else sha256_hash result)
    (seq 0 rounds) data.

Definition _extend_to_size (data : bytes) (target_size : Z) : bytes :=
  if target_size <=? len data then slice_to data target_size
  else blake3_digest data (Z.to_nat target_size).

(** The [for i in range(num_chunks)] loop of [extract_entropy_blocks] over
    the remaining indices; [utcnow i] is the clock reading taken for chunk
    [i].  A [None] result is the exception of [hash_with_timestamp], with
    the chain as it stands when it is raised. *)
Fixpoint chunk_loop (utcnow : nat -> Z) (raw_data : bytes) (block_size : Z)
    (chunk_size : nat) (indices : list nat) (blocks : list bytes)
    (self : EntropyHasher) : option (list bytes) * EntropyHasher :=
  match indices with
  | [] => (Some blocks, self)
  | i :: rest =>
      let chunk := slice raw_data (i * chunk_size) ((i + 1) * chunk_size) in
      let hashed := multi_round_hash chunk 3 in
      match hash_with_timestamp (utcnow i) hashed None with
      | None => (None, self)
      | Some timestamped =>
          let '(chained, self') := hash_chain timestamped None self in
          let extended := _extend_to_size chained block_size in
          chunk_loop utcnow raw_data block_size chunk_size rest
            (blocks ++ [extended]) self'
      end
  end.

Definition extract_entropy_blocks (utcnow : nat -> Z) (raw_data : bytes)
    (block_size : Z) (self : EntropyHasher)
    : option (list bytes) * EntropyHasher :=
  match raw_data with
  | [] => (Some [], self)
  | _ =>
      let chunk_size := Z.max block_size 1024 in
      let num_chunks := len raw_data / chunk_size in
      if num_chunks =? 0 then
        let hashed := multi_round_hash raw_data 3 in
        let extended := _extend_to_size hashed block_size in
        (Some [extended], self)
      else
        chunk_loop utcnow raw_data block_size (Z.to_nat chunk_size)
          (seq 0 (Z.to_nat num_chunks)) [] self
  end.

Definition process_image_noise := extract_entropy_blocks.

(** The padding loop of [mix_sources]. *)
Definition pad_sources (data_sources : list bytes) (max_len : Z) : list bytes :=
  map (fun data =>
         if len data <? max_len then _extend_to_size data max_len
         else slice_to data max_len)
      data_sources.

(** The XOR loop of [mix_sources] over [padded[1:]]. *)
Fixpoint xor_all (result : bytes) (rest : list bytes) : option bytes :=
  match rest with
  | [] => Some result
  | data :: rest' =>
      match xor_into result data with
      | Some result' => xor_all result' rest'
      | None => None
      end
  end.

(** [None] stands for an [IndexError] in the XOR loop. *)
Definition mix_sources (data_sources : list bytes) : option bytes :=
  match data_sources with
  | [] => Some []
  | [only] => Some (blake3_hash only)
  | _ =>
      let max_len := fold_left Z.max (map len data_sources) 0 in
      match pad_sources data_sources max_len with
      | [] => None
      | first :: others =>
          match xor_all first others with
          | Some result => Some (blake3_hash result)
          | None => None
          end
      end
  end.

End EntropyHasher.

(** ** Properties of the conditioner *)

(** [x] and [y] are different inputs with the same digest of [n] bytes. *)
Definition collide (digest : bytes -> nat -> bytes) (n : nat) (x y : bytes)
    : Prop :=
  x <> y /\ digest x n = digest y n.

(** The second half of the chain-liveness sentence as it is written:
    whenever every clock reading of two runs differs, so do the outputs. *)
Definition time_separated
    (blake3_digest : bytes -> nat -> bytes) (sha256_digest : bytes -> bytes)
    (raw_data : bytes) (block_size : Z) : Prop :=
  forall (utcnow1 utcnow2 : nat -> Z) (self : EntropyHasher),
    (forall i, utcnow1 i <> utcnow2 i) ->
    fst (extract_entropy_blocks blake3_digest sha256_digest utcnow1
           raw_data block_size self)
    <> fst (extract_entropy_blocks blake3_digest sha256_digest utcnow2
              raw_data block_size self).

Example pack_Q_258 :
  pack_Q 258 = Some ["000"; "000"; "000"; "000"; "000"; "000"; "001"; "002"]%byte.
Proof. reflexivity. Qed.

Example pack_Q_negative : pack_Q (-1) = None.
Proof. reflexivity. Qed.

Lemma int_of_byte_of (z : Z) : int_of (byte_of z) = z mod 256.
Proof.
  unfold int_of, byte_of.
  assert (Hr : 0 <= z mod 256 < 256) by (apply Z.mod_pos_bound; lia).
  destruct (Byte.of_N (Z.to_N (z mod 256))) as [b|] eqn:E.
  - apply Byte.to_of_N in E. rewrite E. lia.
  - apply Byte.of_N_None_iff in E. lia.
Qed.

Lemma checksum_digest_length (data : bytes) (n : nat) :
  length (checksum_digest data n) = n.
Proof. unfold checksum_digest. now rewrite length_map, length_seq. Qed.

Lemma pack_Q_in_range (t : Z) :
  0 <= t < 2 ^ 64 -> exists bs, pack_Q t = Some bs /\ length bs = 8%nat.
Proof.
  intros Ht. unfold pack_Q.
  destruct (Z.leb_spec 0 t); [| lia]. destruct (Z.ltb_spec t (2 ^ 64)); [| lia].
  cbn [andb]. eexists. split; [reflexivity |]. reflexivity.
Qed.

Lemma byte_digits (t : Z) :
  0 <= t < 2 ^ 64 ->
  t = (t / 2 ^ 0) mod 256 + 2 ^ 8 * ((t / 2 ^ 8) mod 256)
      + 2 ^ 16 * ((t / 2 ^ 16) mod 256) + 2 ^ 24 * ((t / 2 ^ 24) mod 256)
      + 2 ^ 32 * ((t / 2 ^ 32) mod 256) + 2 ^ 40 * ((t / 2 ^ 40) mod 256)
      + 2 ^ 48 * ((t / 2 ^ 48) mod 256) + 2 ^ 56 * ((t / 2 ^ 56) mod 256).
Proof.
  intros Ht.
  assert (S : forall k, 0 <= k ->
            t / 2 ^ k = 256 * (t / 2 ^ (k + 8)) + (t / 2 ^ k) mod 256).
  { intros k Hk. rewrite Z.pow_add_r, <- Z.div_div by lia.
    change (2 ^ 8) with 256. apply Z.div_mod. lia. }
  pose proof (S 0) as D0. pose proof (S 8) as D1. pose proof (S 16) as D2.
  pose proof (S 24) as D3. pose proof (S 32) as D4. pose proof (S 40) as D5.
  pose proof (S 48) as D6. pose proof (S 56) as D7.
  change (0 + 8) with 8 in D0. change (8 + 8) with 16 in D1.
  change (16 + 8) with 24 in D2. change (24 + 8) with 32 in D3.
  change (32 + 8) with 40 in D4. change (40 + 8) with 48 in D5.
  change (48 + 8) with 56 in D6. change (56 + 8) with 64 in D7.
  rewrite (Z.div_small t (2 ^ 64)) in D7 by lia.
  clear S. rewrite Z.pow_0_r, Z.div_1_r in *.
  change (2 ^ 8) with 256 in *. change (2 ^ 16) with 65536 in *.
  change (2 ^ 24) with 16777216 in *. change (2 ^ 32) with 4294967296 in *.
  change (2 ^ 40) with 1099511627776 in *.
  change (2 ^ 48) with 281474976710656 in *.
  change (2 ^ 56) with 72057594037927936 in *.
  specialize (D0 ltac:(lia)). specialize (D1 ltac:(lia)).
  specialize (D2 ltac:(lia)). specialize (D3 ltac:(lia)).
  specialize (D4 ltac:(lia)). specialize (D5 ltac:(lia)).
  specialize (D6 ltac:(lia)). specialize (D7 ltac:(lia)).
  set (r0 := t mod 256) in *. set (r1 := (t / 256) mod 256) in *.
  set (r2 := (t / 65536) mod 256) in *.
  set (r3 := (t / 16777216) mod 256) in *.
  set (r4 := (t / 4294967296) mod 256) in *.
  set (r5 := (t / 1099511627776) mod 256) in *.
  set (r6 := (t / 281474976710656) mod 256) in *.
  set (r7 := (t / 72057594037927936) mod 256) in *.
  clearbody r0 r1 r2 r3 r4 r5 r6 r7.
  set (q1 := t / 256) in *. set (q2 := t / 65536) in *.
  set (q3 := t / 16777216) in *. set (q4 := t / 4294967296) in *.
  set (q5 := t / 1099511627776) in *. set (q6 := t / 281474976710656) in *.
  set (q7 := t / 72057594037927936) in *.
  clearbody q1 q2 q3 q4 q5 q6 q7. clear Ht.
  lia.
Qed.

Lemma pack_Q_inj (t1 t2 : Z) (b1 b2 : bytes) :
  pack_Q t1 = Some b1 -> pack_Q t2 = Some b2 -> b1 = b2 -> t1 = t2.
Proof.
  unfold pack_Q. intros H1 H2 Hb.
  destruct (Z.leb_spec 0 t1); [| discriminate].
  destruct (Z.ltb_spec t1 (2 ^ 64)); [| discriminate].
  destruct (Z.leb_spec 0 t2); [| discriminate].
  destruct (Z.ltb_spec t2 (2 ^ 64)); [| discriminate].
  cbn [andb] in H1, H2. injection H1 as <-. injection H2 as <-.
  cbn [map seq] in Hb.
  change (8 * (7 - Z.of_nat 0)) with 56 in Hb.
  change (8 * (7 - Z.of_nat 1)) with 48 in Hb.
  change (8 * (7 - Z.of_nat 2)) with 40 in Hb.
  change (8 * (7 - Z.of_nat 3)) with 32 in Hb.
  change (8 * (7 - Z.of_nat 4)) with 24 in Hb.
  change (8 * (7 - Z.of_nat 5)) with 16 in Hb.
  change (8 * (7 - Z.of_nat 6)) with 8 in Hb.
  change (8 * (7 - Z.of_nat 7)) with 0 in Hb.
  injection Hb as E7 E6 E5 E4 E3 E2 E1 E0.
  apply (f_equal int_of) in E0, E1, E2, E3, E4, E5, E6, E7.
  rewrite !int_of_byte_of, !Z.shiftr_div_pow2 in E0, E1, E2, E3, E4, E5, E6, E7
    by lia.
  rewrite (byte_digits t1), (byte_digits t2) by lia.
  now rewrite E0, E1, E2, E3, E4, E5, E6, E7.
Qed.

Section Conditioner.

Variable blake3_digest : bytes -> nat -> bytes.
Variable sha256_digest : bytes -> bytes.

(** BLAKE3's [digest(length=n)] returns [n] bytes. *)
Hypothesis blake3_digest_length :
  forall (data : bytes) (n : nat), length (blake3_digest data n) = n.

Lemma extend_to_size_length (data : bytes) (target_size : Z) :
  0 <= target_size ->
  len (_extend_to_size blake3_digest data target_size) = target_size.
Proof.
  intros Ht. unfold _extend_to_size, slice_to, len in *.
  destruct (Z.leb_spec target_size (Z.of_nat (length data))).
  - destruct (Z.leb_spec 0 target_size); [| lia].
    rewrite length_firstn. lia.
  - rewrite blake3_digest_length. lia.
Qed.

Lemma chunk_loop_blocks (utcnow : nat -> Z) (raw_data : bytes) (block_size : Z)
    (chunk_size : nat) (indices : list nat) :
  0 <= block_size ->
  (forall i, In i indices -> 0 <= utcnow i < 2 ^ 64) ->
  forall (blocks : list bytes) (self : EntropyHasher),
  exists new,
    fst (chunk_loop blake3_digest sha256_digest utcnow raw_data block_size
           chunk_size indices blocks self) = Some (blocks ++ new)
    /\ length new = length indices
    /\ Forall (fun blk => len blk = block_size) new.
Proof.
  intros Hb. induction indices as [|i rest IH]; intros Hclk blocks self.
  - exists []. cbn. now rewrite app_nil_r.
  - cbn [chunk_loop]. unfold hash_with_timestamp.
    destruct (pack_Q_in_range (utcnow i)) as (ts & -> & _);
      [apply Hclk; now left |].
    cbn [hash_chain].
    destruct (IH (fun j Hj => Hclk j (or_intror Hj))
                (blocks ++
                 [_extend_to_size blake3_digest
                    (blake3_hash blake3_digest
                       (previous_or_zero self
                        ++ blake3_hash blake3_digest
                             (multi_round_hash blake3_digest sha256_digest
                                (slice raw_data (i * chunk_size)
                                   ((i + 1) * chunk_size)) 3 ++ ts)))
                    block_size])
                {| previous_hash :=
                     Some (blake3_hash blake3_digest
                             (previous_or_zero self
                              ++ blake3_hash blake3_digest
                                   (multi_round_hash blake3_digest sha256_digest
                                      (slice raw_data (i * chunk_size)
                                         ((i + 1) * chunk_size)) 3 ++ ts))) |})
      as (new & Hrun & Hlen & Hall).
    eexists (_ :: new). split; [| split].
    + rewrite Hrun, <- app_assoc. reflexivity.
    + cbn. now rewrite Hlen.
    + constructor; [now apply extend_to_size_length | exact Hall].
Qed.

(** The number of blocks and their length. *)
Lemma blocks_count_and_size
    (utcnow : nat -> Z) (raw_data : bytes) (block_size : Z)
    (self : EntropyHasher) :
  raw_data <> [] ->
  0 <= block_size ->
  (forall i, 0 <= utcnow i < 2 ^ 64) ->
  let chunk_size := Z.max block_size 1024 in
  exists blocks,
    fst (extract_entropy_blocks blake3_digest sha256_digest utcnow
           raw_data block_size self) = Some blocks
    /\ len blocks
       = (if len raw_data <? chunk_size then 1 else len raw_data / chunk_size)
    /\ Forall (fun blk => len blk = block_size) blocks.
Proof.
  intros Hne Hb Hclk chunk_size.
  unfold extract_entropy_blocks. fold chunk_size.
  destruct raw_data as [|b0 raw']; [congruence |].
  set (raw := b0 :: raw') in *.
  assert (Hcs : 1024 <= chunk_size) by (unfold chunk_size; lia).
  assert (HL : 0 <= len raw) by (unfold len; lia).
  destruct (Z.ltb_spec (len raw) chunk_size) as [Hlt|Hge].
  - rewrite (Z.div_small (len raw) chunk_size) by lia. cbn [Z.eqb fst].
    eexists. split; [reflexivity | split; [reflexivity |]].
    constructor; [now apply extend_to_size_length | constructor].
  - assert (Hq : 1 <= len raw / chunk_size).
    { apply Z.div_le_lower_bound; lia. }
    destruct (Z.eqb_spec (len raw / chunk_size) 0) as [E|_]; [lia |].
    destruct (chunk_loop_blocks utcnow raw block_size (Z.to_nat chunk_size)
                (seq 0 (Z.to_nat (len raw / chunk_size))) Hb
                (fun i _ => Hclk i) [] self) as (new & Hrun & Hlen & Hall).
    exists new. split; [exact Hrun | split; [| exact Hall]].
    unfold len at 1. rewrite Hlen, length_seq. lia.
Qed.

Lemma chunk_loop_same_readings (utcnow1 utcnow2 : nat -> Z) (raw_data : bytes)
    (block_size : Z) (chunk_size : nat) (indices : list nat) :
  (forall i, In i indices -> utcnow1 i = utcnow2 i) ->
  forall (blocks : list bytes) (self1 self2 : EntropyHasher),
  previous_or_zero self1 = previous_or_zero self2 ->
  fst (chunk_loop blake3_digest sha256_digest utcnow1 raw_data block_size
         chunk_size indices blocks self1)
  = fst (chunk_loop blake3_digest sha256_digest utcnow2 raw_data block_size
           chunk_size indices blocks self2).
Proof.
  induction indices as [|i rest IH]; intros Hclk blocks self1 self2 Hprev.
  - reflexivity.
  - cbn [chunk_loop]. rewrite <- (Hclk i (or_introl eq_refl)).
    destruct (hash_with_timestamp blake3_digest (utcnow1 i) _ None)
      as [timestamped|]; [| reflexivity].
    cbn [hash_chain]. rewrite Hprev.
    apply IH; [intros j Hj; apply Hclk; now right | reflexivity].
Qed.

(** A run on a raw buffer shorter than the chunk size reads neither the
    clock nor the chaining value. *)
Lemma short_noise_ignores_clock (utcnow1 utcnow2 : nat -> Z) (raw_data : bytes)
    (block_size : Z) (self1 self2 : EntropyHasher) :
  len raw_data < Z.max block_size 1024 ->
  fst (extract_entropy_blocks blake3_digest sha256_digest utcnow1
         raw_data block_size self1)
  = fst (extract_entropy_blocks blake3_digest sha256_digest utcnow2
           raw_data block_size self2).
Proof.
  intros Hlt. unfold extract_entropy_blocks.
  destruct raw_data as [|b0 raw']; [reflexivity |].
  rewrite Z.div_small by (unfold len in *; lia). reflexivity.
Qed.

(** The three digests between the first chunk and the first block of a
    run that reads the clock value [t] for it: the hash of the chunk with
    the packed clock value, the hash that chains it to [prev], and the
    block of [block_size] bytes. *)
Definition stamped (hashed : bytes) (t : Z) : bytes :=
  match pack_Q t with
  | Some timestamp_bytes => hashed ++ timestamp_bytes
  | None => hashed
  end.

Definition chained (hashed prev : bytes) (t : Z) : bytes :=
  prev ++ blake3_hash blake3_digest (stamped hashed t).

Lemma first_block_separated (t1 t2 : Z) (hashed prev : bytes) (block_size : Z) :
  0 <= t1 < 2 ^ 64 -> 0 <= t2 < 2 ^ 64 -> t1 <> t2 ->
  32 <= block_size ->
  _extend_to_size blake3_digest
    (blake3_hash blake3_digest (chained hashed prev t1)) block_size
  <> _extend_to_size blake3_digest
       (blake3_hash blake3_digest (chained hashed prev t2)) block_size
  \/ collide blake3_digest 32 (stamped hashed t1) (stamped hashed t2)
  \/ collide blake3_digest 32 (chained hashed prev t1) (chained hashed prev t2)
  \/ (32 < block_size
      /\ collide blake3_digest (Z.to_nat block_size)
           (blake3_hash blake3_digest (chained hashed prev t1))
           (blake3_hash blake3_digest (chained hashed prev t2))).
Proof.
  intros H1 H2 Hne Hb.
  destruct (pack_Q_in_range t1 H1) as (p1 & Hp1 & _).
  destruct (pack_Q_in_range t2 H2) as (p2 & Hp2 & _).
  assert (Hp : stamped hashed t1 <> stamped hashed t2).
  { unfold stamped. rewrite Hp1, Hp2. intros E. apply app_inv_head in E.
    now apply Hne, (pack_Q_inj t1 t2 p1 p2). }
  destruct (decide (blake3_hash blake3_digest (stamped hashed t1)
                    = blake3_hash blake3_digest (stamped hashed t2)))
    as [Ets|Nts].
  { right. left. now split. }
  assert (Hc : chained hashed prev t1 <> chained hashed prev t2).
  { unfold chained. intros E. now apply app_inv_head in E. }
  set (c1 := blake3_hash blake3_digest (chained hashed prev t1)) in *.
  set (c2 := blake3_hash blake3_digest (chained hashed prev t2)) in *.
  destruct (decide (c1 = c2)) as [Ec|Nc].
  { right. right. left. now split. }
  assert (L1 : length c1 = 32%nat) by apply blake3_digest_length.
  assert (L2 : length c2 = 32%nat) by apply blake3_digest_length.
  unfold _extend_to_size, slice_to, len. rewrite L1, L2.
  destruct (Z.leb_spec block_size (Z.of_nat 32)) as [Hle|Hgt].
  - left. destruct (Z.leb_spec 0 block_size); [| lia].
    replace (Z.to_nat block_size) with 32%nat by lia.
    now rewrite (firstn_all2 c1), (firstn_all2 c2) by lia.
  - destruct (decide (blake3_digest c1 (Z.to_nat block_size)
                      = blake3_digest c2 (Z.to_nat block_size))) as [E|N].
    + right. right. right. split; [lia | now split].
    + now left.
Qed.

(** C6 (as amended).  (a) Two runs on the same raw buffer that start from
    the same chaining value and read the same clock values return the same
    blocks.  (b) On a raw buffer of at least one chunk, with blocks of at
    least 32 bytes, two runs from the same chaining value whose clock
    readings fit 64 bits and differ for the first chunk return different
    block sequences, unless BLAKE3 collides on one of three pairs of
    inputs that the two runs feed it: the hash of the first chunk followed
    by either packed clock value; the chaining value followed by the digest
    of either of these; and, for blocks of more than 32 bytes, the two
    chained digests that are expanded to the block size. *)
Theorem chain_liveness :
  (forall (utcnow1 utcnow2 : nat -> Z) (raw_data : bytes) (block_size : Z)
          (self1 self2 : EntropyHasher),
      previous_or_zero self1 = previous_or_zero self2 ->
      (forall i, utcnow1 i = utcnow2 i) ->
      fst (extract_entropy_blocks blake3_digest sha256_digest utcnow1
             raw_data block_size self1)
      = fst (extract_entropy_blocks blake3_digest sha256_digest utcnow2
               raw_data block_size self2))
  /\ (forall (utcnow1 utcnow2 : nat -> Z) (raw_data : bytes) (block_size : Z)
             (self : EntropyHasher),
        let chunk_size := Z.max block_size 1024 in
        let hashed :=
          multi_round_hash blake3_digest sha256_digest
            (slice_to raw_data chunk_size) 3 in
        let prev := previous_or_zero self in
        let t1 := utcnow1 0%nat in
        let t2 := utcnow2 0%nat in
        chunk_size <= len raw_data ->
        32 <= block_size ->
        (forall i, 0 <= utcnow1 i < 2 ^ 64) ->
        (forall i, 0 <= utcnow2 i < 2 ^ 64) ->
        t1 <> t2 ->
        fst (extract_entropy_blocks blake3_digest sha256_digest utcnow1
               raw_data block_size self)
        <> fst (extract_entropy_blocks blake3_digest sha256_digest utcnow2
                  raw_data block_size self)
        \/ collide blake3_digest 32 (stamped hashed t1) (stamped hashed t2)
        \/ collide blake3_digest 32
             (chained hashed prev t1) (chained hashed prev t2)
        \/ (32 < block_size
            /\ collide blake3_digest (Z.to_nat block_size)
                 (blake3_hash blake3_digest (chained hashed prev t1))
                 (blake3_hash blake3_digest (chained hashed prev t2)))).
Proof.
  split.
  - intros utcnow1 utcnow2 raw_data block_size self1 self2 Hprev Hclk.
    unfold extract_entropy_blocks. destruct raw_data as [|b0 raw']; [reflexivity |].
    destruct (_ =? 0); [reflexivity |].
    now apply chunk_loop_same_readings.
  - intros utcnow1 utcnow2 raw_data block_size self chunk_size hashed prev t1 t2
      Hlen Hb Hc1 Hc2 Hne.
    destruct (first_block_separated t1 t2 hashed prev block_size
                (Hc1 0%nat) (Hc2 0%nat) Hne Hb) as [Hdiff|Hcol];
      [left | now right].
    unfold extract_entropy_blocks. fold chunk_size.
    destruct raw_data as [|b0 raw']; [unfold len in Hlen; cbn [length] in Hlen; lia |].
    set (raw := b0 :: raw') in *.
    assert (Hcs : 1024 <= chunk_size) by (unfold chunk_size; lia).
    assert (Hq : 1 <= len raw / chunk_size).
    { apply Z.div_le_lower_bound; lia. }
    destruct (Z.eqb_spec (len raw / chunk_size) 0) as [E|_]; [lia |].
    destruct (Z.to_nat (len raw / chunk_size)) as [|k] eqn:Ek; [lia |].
    cbn [seq chunk_loop]. unfold hash_with_timestamp.
    assert (Hslice : slice raw (0 * Z.to_nat chunk_size)
                       ((0 + 1) * Z.to_nat chunk_size)
                     = slice_to raw chunk_size).
    { unfold slice, slice_to. destruct (Z.leb_spec 0 chunk_size); [| lia].
      cbn [skipn Nat.mul Nat.add]. f_equal. lia. }
    rewrite Hslice. fold hashed.
    unfold chained, stamped in Hdiff. fold t1 t2.
    destruct (pack_Q_in_range t1 (Hc1 0%nat)) as (p1 & Hp1 & _).
    destruct (pack_Q_in_range t2 (Hc2 0%nat)) as (p2 & Hp2 & _).
    rewrite Hp1, Hp2 in Hdiff |- *. cbn [hash_chain app]. fold prev.
    match goal with
    | |- fst (chunk_loop _ _ _ _ _ _ ?r [?e1] ?s1)
         <> fst (chunk_loop _ _ _ _ _ _ _ [?e2] ?s2) =>
        destruct (chunk_loop_blocks utcnow1 raw block_size (Z.to_nat chunk_size)
                    r ltac:(lia) (fun i _ => Hc1 i) [e1] s1) as (n1 & -> & _);
        destruct (chunk_loop_blocks utcnow2 raw block_size (Z.to_nat chunk_size)
                    r ltac:(lia) (fun i _ => Hc2 i) [e2] s2) as (n2 & -> & _)
    end.
    cbn [app]. intros E. injection E as E _. contradiction.
Qed.

Lemma fold_max_ge (l : list Z) (a : Z) :
  a <= fold_left Z.max l a /\ Forall (fun x => x <= fold_left Z.max l a) l.
Proof.
  revert a. induction l as [|x l IH]; intros a; cbn [fold_left].
  - split; [lia | constructor].
  - destruct (IH (Z.max a x)) as [Ha Hall]. split; [lia |].
    constructor; [lia | exact Hall].
Qed.

Lemma xor_into_length (result data : bytes) :
  (length result <= length data)%nat ->
  exists out, xor_into result data = Some out /\ length out = length result.
Proof.
  revert data. induction result as [|r result IH]; intros data Hle.
  - now exists [].
  - destruct data as [|d data]; [cbn in Hle; lia |].
    destruct (IH data) as (out & Hout & Hlen); [cbn in Hle; lia |].
    exists (byte_xor r d :: out). cbn [xor_into]. rewrite Hout.
    split; [reflexivity | cbn; now rewrite Hlen].
Qed.

Lemma xor_all_length (rest : list bytes) (n : nat) :
  Forall (fun data => length data = n) rest ->
  forall result, length result = n ->
  exists out, xor_all result rest = Some out /\ length out = n.
Proof.
  induction 1 as [|data rest Hd _ IH]; intros result Hr.
  - now exists result.
  - destruct (xor_into_length result data) as (out & Hout & Hlen); [lia |].
    cbn [xor_all]. rewrite Hout. apply IH. lia.
Qed.

Lemma pad_sources_length (data_sources : list bytes) (max_len : Z) :
  Forall (fun data => len data <= max_len) data_sources ->
  Forall (fun data => length data = Z.to_nat max_len)
    (pad_sources blake3_digest data_sources max_len).
Proof.
  unfold pad_sources. induction 1 as [|data rest Hd _ IH]; cbn [map].
  - constructor.
  - constructor; [| exact IH].
    unfold _extend_to_size, slice_to, len in *.
    destruct (Z.ltb_spec (Z.of_nat (length data)) max_len) as [Hlt|Hge].
    + destruct (Z.leb_spec max_len (Z.of_nat (length data))); [lia |].
      apply blake3_digest_length.
    + destruct (Z.leb_spec 0 max_len); [| lia].
      rewrite length_firstn. lia.
Qed.

(** C10. [mix_sources] returns the empty string for no source, BLAKE3 of
    the buffer itself for a single source, and for every non-empty list
    of sources, whatever their lengths, a result of exactly 32 bytes. *)
Theorem mix_sources_digest :
  mix_sources blake3_digest [] = Some []
  /\ (forall only : bytes,
        mix_sources blake3_digest [only] = Some (blake3_digest only 32))
  /\ (forall data_sources : list bytes,
        data_sources <> [] ->
        exists mixed,
          mix_sources blake3_digest data_sources = Some mixed
          /\ length mixed = 32%nat).
Proof.
  split; [reflexivity | split; [reflexivity |]].
  intros data_sources Hne.
  destruct data_sources as [|d1 [|d2 rest]]; [congruence | |].
  - eexists. split; [reflexivity | apply blake3_digest_length].
  - set (sources := d1 :: d2 :: rest).
    change (mix_sources blake3_digest sources)
      with (match pad_sources blake3_digest sources
                    (fold_left Z.max (map len sources) 0) with
            | [] => None
            | first :: others =>
                match xor_all first others with
                | Some result => Some (blake3_hash blake3_digest result)
                | None => None
                end
            end).
    destruct (fold_max_ge (map len sources) 0) as [_ Hmax].
    rewrite Forall_map in Hmax.
    pose proof (pad_sources_length sources _ Hmax) as Hpad.
    destruct (pad_sources blake3_digest sources _) as [|first others] eqn:E;
      [discriminate E |].
    inversion Hpad as [|? ? Hfirst Hothers]; subst.
    destruct (xor_all_length others _ Hothers first Hfirst) as (out & -> & _).
    eexists. split; [reflexivity | apply blake3_digest_length].
Qed.

End Conditioner.

(** A second stand-in, for SHA-256. *)
Definition checksum_sha (data : bytes) : bytes :=
  checksum_digest ("001"%byte :: data) 32.

(** A clock that advances by one microsecond per reading, for a second. *)
Definition ticking_clock (start : Z) (i : nat) : Z :=
  start + Z.min (Z.of_nat i) 1000000.

Lemma ticking_clock_in_range (start : Z) (i : nat) :
  0 <= start < 2 ^ 63 -> 0 <= ticking_clock start i < 2 ^ 64.
Proof.
  unfold ticking_clock. change (2 ^ 63) with 9223372036854775808.
  change (2 ^ 64) with 18446744073709551616. lia.
Qed.

(** C6, the sentence as written: "runs separated in time MUST produce
    different outputs" fails on a one-byte raw buffer, whatever the hash
    primitives are: the short path reads no clock. *)
Lemma short_noise_not_time_separated :
  ~ exists (blake3_digest : bytes -> nat -> bytes)
           (sha256_digest : bytes -> bytes),
      time_separated blake3_digest sha256_digest ["000"%byte] 4096.
Proof.
  intros (blake3_digest & sha256_digest & Hsep).
  apply (Hsep (fun _ => 1700000000000000) (fun _ => 1700000000000001) init).
  - intros _. lia.
  - apply short_noise_ignores_clock. reflexivity.
Qed.

Lemma chain_liveness_witness :
  fst (extract_entropy_blocks checksum_digest checksum_sha
         (ticking_clock 1700000000000000)
         (Validation.modular_counter 2048) 32 init)
  = fst (extract_entropy_blocks checksum_digest checksum_sha
           (ticking_clock 1700000000000000)
           (Validation.modular_counter 2048) 32
           {| previous_hash := Some (repeat "000"%byte 32) |})
  /\ fst (extract_entropy_blocks checksum_digest checksum_sha
            (ticking_clock 1700000000000000)
            (Validation.modular_counter 2048) 32 init)
     <> fst (extract_entropy_blocks checksum_digest checksum_sha
               (ticking_clock 1700000000000005)
               (Validation.modular_counter 2048) 32 init).
Proof.
  destruct (chain_liveness checksum_digest checksum_sha checksum_digest_length)
    as [Hsame Hsep].
  split.
  - apply Hsame; reflexivity.
  - destruct (Hsep (ticking_clock 1700000000000000)
                (ticking_clock 1700000000000005)
                (Validation.modular_counter 2048) 32 init)
      as [Hdiff|[[_ Hcol]|[[_ Hcol]|[Hlt _]]]].
    + vm_compute. discriminate.
    + lia.
    + intros i. apply ticking_clock_in_range.
      change (2 ^ 63) with 9223372036854775808. lia.
    + intros i. apply ticking_clock_in_range.
      change (2 ^ 63) with 9223372036854775808. lia.
    + vm_compute. discriminate.
    + exact Hdiff.
    + exfalso. vm_compute in Hcol. discriminate Hcol.
    + exfalso. vm_compute in Hcol. discriminate Hcol.
    + lia.
Defined.

Lemma mix_sources_digest_witness :
  exists mixed,
    mix_sources checksum_digest
      [Validation.modular_counter 5; Validation.modular_counter 70; []]
    = Some mixed
    /\ length mixed = 32%nat.
Proof.
  apply (mix_sources_digest checksum_digest checksum_digest_length).
  discriminate.
Defined.

(** ** The algebra of the XOR loop *)

Lemma int_of_range (b : byte) : 0 <= int_of b < 256.
Proof. unfold int_of. pose proof (Byte.to_N_bounded b). lia. Qed.

Lemma int_of_inj (a b : byte) : int_of a = int_of b -> a = b.
Proof.
  unfold int_of. intros E. apply N2Z.inj in E.
  pose proof (Byte.of_to_N a) as Ha. pose proof (Byte.of_to_N b) as Hb.
  congruence.
Qed.

Lemma lxor_byte_range (a b : Z) :
  0 <= a < 256 -> 0 <= b < 256 -> 0 <= Z.lxor a b < 256.
Proof.
  intros Ha Hb.
  assert (Hnn : 0 <= Z.lxor a b) by (apply Z.lxor_nonneg; lia).
  split; [exact Hnn |].
  destruct (Z.eq_dec (Z.lxor a b) 0) as [->|Hne]; [lia |].
  change 256 with (2 ^ 8). apply Z.log2_lt_pow2; [lia |].
  pose proof (Z.log2_lxor a b ltac:(lia) ltac:(lia)) as Hlog.
  assert (La : Z.log2 a < 8).
  { destruct (Z.eq_dec a 0) as [->|]; [cbn; lia |].
    apply Z.log2_lt_pow2; [lia |]. change (2 ^ 8) with 256. lia. }
  assert (Lb : Z.log2 b < 8).
  { destruct (Z.eq_dec b 0) as [->|]; [cbn; lia |].
    apply Z.log2_lt_pow2; [lia |]. change (2 ^ 8) with 256. lia. }
  lia.
Qed.

Lemma int_of_byte_xor (a b : byte) :
  int_of (byte_xor a b) = Z.lxor (int_of a) (int_of b).
Proof.
  unfold byte_xor. rewrite int_of_byte_of. apply Z.mod_small.
  apply lxor_byte_range; apply int_of_range.
Qed.

Lemma byte_xor_comm (a b : byte) : byte_xor a b = byte_xor b a.
Proof. apply int_of_inj. now rewrite !int_of_byte_xor, Z.lxor_comm. Qed.

Lemma byte_xor_assoc (a b c : byte) :
  byte_xor (byte_xor a b) c = byte_xor a (byte_xor b c).
Proof. apply int_of_inj. now rewrite !int_of_byte_xor, Z.lxor_assoc. Qed.

Lemma byte_xor_nilpotent (a : byte) : byte_xor a a = "000"%byte.
Proof. apply int_of_inj. now rewrite int_of_byte_xor, Z.lxor_nilpotent. Qed.

Lemma byte_xor_zero_l (a : byte) : byte_xor "000"%byte a = a.
Proof. apply int_of_inj. rewrite int_of_byte_xor. apply Z.lxor_0_l. Qed.

(** The XOR of two buffers, position by position. *)
Definition bxor (a b : bytes) : bytes := zip_with byte_xor a b.

Lemma bxor_swap (a x y : bytes) : bxor (bxor a x) y = bxor (bxor a y) x.
Proof.
  unfold bxor. revert x y. induction a as [|a0 a IH]; intros x y; [reflexivity |].
  destruct x as [|x0 x], y as [|y0 y]; try reflexivity.
  cbn [zip_with]. rewrite IH. f_equal.
  now rewrite !byte_xor_assoc, (byte_xor_comm x0 y0).
Qed.

Lemma bxor_zero_l (a : bytes) : bxor (repeat "000"%byte (length a)) a = a.
Proof.
  unfold bxor. induction a as [|a0 a IH]; [reflexivity |].
  cbn [length repeat zip_with]. now rewrite IH, byte_xor_zero_l.
Qed.

Lemma bxor_length (a b : bytes) (n : nat) :
  length a = n -> length b = n -> length (bxor a b) = n.
Proof. unfold bxor. intros Ha Hb. rewrite length_zip_with. lia. Qed.

Lemma xor_into_bxor (result data : bytes) :
  (length result <= length data)%nat ->
  xor_into result data = Some (bxor result data).
Proof.
  unfold bxor. revert data.
  induction result as [|r result IH]; intros data Hle; [reflexivity |].
  destruct data as [|d data]; [cbn in Hle; lia |].
  cbn [xor_into zip_with]. rewrite IH by (cbn in Hle; lia). reflexivity.
Qed.

Lemma xor_all_fold (rest : list bytes) (n : nat) :
  Forall (fun data => length data = n) rest ->
  forall result, length result = n ->
  xor_all result rest = Some (fold_left bxor rest result).
Proof.
  induction 1 as [|data rest Hd _ IH]; intros result Hr; [reflexivity |].
  cbn [xor_all fold_left]. rewrite xor_into_bxor by lia.
  apply IH. now apply bxor_length.
Qed.

Lemma fold_left_permutation {A B} (f : A -> B -> A) (l l' : list B) :
  (forall a x y, f (f a x) y = f (f a y) x) ->
  Permutation l l' -> forall a, fold_left f l a = fold_left f l' a.
Proof.
  intros Hf. induction 1 as [|x l l' _ IH|x y l|l l' l'' _ IH1 _ IH2]; intros a.
  - reflexivity.
  - cbn. apply IH.
  - cbn. now rewrite Hf.
  - now rewrite IH1.
Qed.

(** ** The chain and the chunk loop *)

Section Chain.

Variable blake3_digest : bytes -> nat -> bytes.
Variable sha256_digest : bytes -> bytes.

Lemma chunk_loop_app (utcnow : nat -> Z) (raw_data : bytes) (block_size : Z)
    (chunk_size : nat) (l1 l2 : list nat) :
  forall (blocks : list bytes) (self : EntropyHasher),
  chunk_loop blake3_digest sha256_digest utcnow raw_data block_size chunk_size
    (l1 ++ l2) blocks self
  = match chunk_loop blake3_digest sha256_digest utcnow raw_data block_size
            chunk_size l1 blocks self with
    | (Some blocks1, self1) =>
        chunk_loop blake3_digest sha256_digest utcnow raw_data block_size
          chunk_size l2 blocks1 self1
    | (None, self1) => (None, self1)
    end.
Proof.
  induction l1 as [|i l1 IH]; intros blocks self; [reflexivity |].
  cbn [app chunk_loop].
  destruct (hash_with_timestamp blake3_digest (utcnow i) _ None);
    [| reflexivity].
  cbn [hash_chain]. apply IH.
Qed.

Lemma chunk_loop_acc (utcnow : nat -> Z) (raw_data : bytes) (block_size : Z)
    (chunk_size : nat) (indices : list nat) :
  forall (blocks : list bytes) (self : EntropyHasher),
  chunk_loop blake3_digest sha256_digest utcnow raw_data block_size chunk_size
    indices blocks self
  = match chunk_loop blake3_digest sha256_digest utcnow raw_data block_size
            chunk_size indices [] self with
    | (Some new, self') => (Some (blocks ++ new), self')
    | (None, self') => (None, self')
    end.
Proof.
  induction indices as [|i rest IH]; intros blocks self.
  - cbn. now rewrite app_nil_r.
  - cbn [chunk_loop].
    destruct (hash_with_timestamp blake3_digest (utcnow i) _ None);
      [| reflexivity].
    cbn [hash_chain app]. rewrite IH. symmetry. rewrite IH.
    destruct (chunk_loop _ _ _ _ _ _ rest [] _) as [[new|] self'];
      [| reflexivity].
    now rewrite <- app_assoc.
Qed.

(** The loop reads the raw buffer only through the chunks of its indices
    and the clock only at them. *)
Lemma chunk_loop_reindex (utcnow utcnow' : nat -> Z) (raw_data raw_data' : bytes)
    (block_size : Z) (chunk_size : nat) (f : nat -> nat) (indices : list nat) :
  (forall i, In i indices ->
     slice raw_data (f i * chunk_size) ((f i + 1) * chunk_size)
     = slice raw_data' (i * chunk_size) ((i + 1) * chunk_size)
     /\ utcnow (f i) = utcnow' i) ->
  forall (blocks : list bytes) (self : EntropyHasher),
  chunk_loop blake3_digest sha256_digest utcnow raw_data block_size chunk_size
    (map f indices) blocks self
  = chunk_loop blake3_digest sha256_digest utcnow' raw_data' block_size
      chunk_size indices blocks self.
Proof.
  induction indices as [|i rest IH]; intros Hsame blocks self; [reflexivity |].
  cbn [map chunk_loop].
  destruct (Hsame i (or_introl eq_refl)) as [-> ->].
  destruct (hash_with_timestamp blake3_digest (utcnow' i) _ None);
    [| reflexivity].
  cbn [hash_chain]. apply IH. intros j Hj. apply Hsame. now right.
Qed.

Lemma slice_firstn (data : bytes) (n start stop : nat) :
  (stop <= n)%nat ->
  slice (firstn n data) start stop = slice data start stop.
Proof.
  intros Hle. unfold slice.
  rewrite skipn_firstn_comm, firstn_firstn. f_equal. lia.
Qed.

Lemma slice_app_l (raw1 raw2 : bytes) (start stop : nat) :
  (stop <= length raw1)%nat ->
  slice (raw1 ++ raw2) start stop = slice raw1 start stop.
Proof.
  intros Hle. unfold slice.
  rewrite skipn_app, firstn_app, length_skipn.
  replace (stop - start - (length raw1 - start))%nat with 0%nat by lia.
  cbn [firstn]. now rewrite app_nil_r.
Qed.

Lemma slice_app_r (raw1 raw2 : bytes) (start stop : nat) :
  slice (raw1 ++ raw2) (length raw1 + start) (length raw1 + stop)
  = slice raw2 start stop.
Proof.
  unfold slice. rewrite skipn_app, skipn_all2 by lia. cbn [app].
  f_equal; [lia | f_equal; lia].
Qed.

(** A run reads its raw buffer only up to the last multiple of the chunk
    size. *)
Lemma whole_chunks_only
    (utcnow : nat -> Z) (raw_data : bytes) (block_size : Z)
    (self : EntropyHasher) :
  let chunk_size := Z.max block_size 1024 in
  chunk_size <= len raw_data ->
  extract_entropy_blocks blake3_digest sha256_digest utcnow raw_data
    block_size self
  = extract_entropy_blocks blake3_digest sha256_digest utcnow
      (slice_to raw_data (len raw_data / chunk_size * chunk_size))
      block_size self.
Proof.
  intros chunk_size Hlen.
  assert (Hcs : 1024 <= chunk_size) by (unfold chunk_size; lia).
  set (k := len raw_data / chunk_size).
  assert (Hk : 1 <= k) by (apply Z.div_le_lower_bound; lia).
  assert (Hkc : k * chunk_size <= len raw_data).
  { unfold k. rewrite Z.mul_comm. apply Z.mul_div_le. lia. }
  unfold slice_to. destruct (Z.leb_spec 0 (k * chunk_size)); [| nia].
  set (kept := firstn (Z.to_nat (k * chunk_size)) raw_data).
  assert (Hkept : len kept = k * chunk_size).
  { unfold kept, len in *. rewrite length_firstn. lia. }
  unfold extract_entropy_blocks. fold chunk_size. fold k.
  rewrite Hkept, Z.div_mul by lia.
  destruct raw_data as [|b0 raw']; [unfold len in Hlen; cbn in Hlen; lia |].
  destruct kept as [|k0 kept'] eqn:Ekept;
    [unfold len in Hkept; cbn in Hkept; nia |].
  destruct (Z.eqb_spec k 0) as [|_]; [lia |].
  rewrite <- Ekept. unfold kept.
  rewrite <- (map_id (seq 0 (Z.to_nat k))) at 1.
  apply chunk_loop_reindex. intros i Hi. apply in_seq in Hi. split; [| reflexivity].
  symmetry. apply slice_firstn. nia.
Qed.

(** X3. On a raw buffer of at least one chunk, [extract_entropy_blocks]
    reads only the whole chunks: the bytes after the last multiple of
    chunk_size = max(block_size, 1024) change neither the blocks nor the
    chaining value left in the hasher. *)
Theorem trailing_bytes_ignored
    (utcnow : nat -> Z) (raw_data : bytes) (block_size : Z)
    (self : EntropyHasher) :
  let chunk_size := Z.max block_size 1024 in
  chunk_size <= len raw_data ->
  extract_entropy_blocks blake3_digest sha256_digest utcnow raw_data
    block_size self
  = extract_entropy_blocks blake3_digest sha256_digest utcnow
      (slice_to raw_data (len raw_data / chunk_size * chunk_size))
      block_size self.
Proof. exact (whole_chunks_only utcnow raw_data block_size self). Qed.

(** X4. A run over [raw1 ++ raw2], where [raw1] is a whole number (at
    least one) of chunks and [raw2] holds at least one chunk, returns the
    blocks of a run over [raw1] followed by those of a run over [raw2] made
    on the same hasher with the following clock readings, and leaves the
    same chaining value: the chain carries across calls as it does within
    one. *)
Theorem extraction_chains_across_calls
    (utcnow : nat -> Z) (raw1 raw2 : bytes) (block_size : Z)
    (self : EntropyHasher) :
  let chunk_size := Z.max block_size 1024 in
  let k1 := Z.to_nat (len raw1 / chunk_size) in
  chunk_size <= len raw1 ->
  len raw1 mod chunk_size = 0 ->
  chunk_size <= len raw2 ->
  extract_entropy_blocks blake3_digest sha256_digest utcnow (raw1 ++ raw2)
    block_size self
  = match extract_entropy_blocks blake3_digest sha256_digest utcnow raw1
            block_size self with
    | (Some blocks1, self1) =>
        match extract_entropy_blocks blake3_digest sha256_digest
                (fun i => utcnow (k1 + i)%nat) raw2 block_size self1 with
        | (Some blocks2, self2) => (Some (blocks1 ++ blocks2), self2)
        | (None, self2) => (None, self2)
        end
    | (None, self1) => (None, self1)
    end.
Proof.
  intros chunk_size k1 Hlen1 Hmod Hlen2.
  assert (Hcs : 1024 <= chunk_size) by (unfold chunk_size; lia).
  set (q1 := len raw1 / chunk_size) in *.
  set (q2 := len raw2 / chunk_size).
  assert (Hq1 : 1 <= q1) by (apply Z.div_le_lower_bound; lia).
  assert (Hq2 : 1 <= q2) by (apply Z.div_le_lower_bound; lia).
  assert (E1 : len raw1 = q1 * chunk_size).
  { unfold q1. rewrite (Z.div_mod (len raw1) chunk_size) at 1 by lia. lia. }
  assert (Hq2c : q2 * chunk_size <= len raw2).
  { unfold q2. rewrite Z.mul_comm. apply Z.mul_div_le. lia. }
  assert (E12 : len (raw1 ++ raw2) / chunk_size = q1 + q2).
  { unfold len in *. rewrite length_app, Nat2Z.inj_add, E1.
    rewrite Z.div_add_l by lia. reflexivity. }
  unfold extract_entropy_blocks. fold chunk_size. fold q1. fold q2.
  rewrite E12.
  destruct raw1 as [|a1 raw1']; [unfold len in Hlen1; cbn in Hlen1; lia |].
  destruct raw2 as [|a2 raw2']; [unfold len in Hlen2; cbn in Hlen2; lia |].
  set (r1 := a1 :: raw1') in *. set (r2 := a2 :: raw2') in *.
  assert (Hne : forall (T : Type) (x y : T),
            match r1 ++ r2 with [] => x | _ :: _ => y end = y) by reflexivity.
  rewrite Hne.
  destruct (Z.eqb_spec (q1 + q2) 0) as [|_]; [lia |].
  destruct (Z.eqb_spec q1 0) as [|_]; [lia |].
  destruct (Z.eqb_spec q2 0) as [|_]; [lia |].
  set (c := Z.to_nat chunk_size).
  assert (L1 : length r1 = (k1 * c)%nat).
  { unfold len in E1. unfold k1, c. nia. }
  replace (Z.to_nat (q1 + q2)) with (k1 + Z.to_nat q2)%nat by (unfold k1; lia).
  rewrite seq_app, chunk_loop_app. cbn [Nat.add].
  assert (Hfirst : forall blocks s,
            chunk_loop blake3_digest sha256_digest utcnow (r1 ++ r2) block_size
              c (seq 0 k1) blocks s
            = chunk_loop blake3_digest sha256_digest utcnow r1 block_size
                c (seq 0 k1) blocks s).
  { intros blocks s. rewrite <- (map_id (seq 0 k1)) at 1.
    apply chunk_loop_reindex. intros i Hi. apply in_seq in Hi.
    split; [| reflexivity]. apply slice_app_l. nia. }
  rewrite Hfirst. fold k1.
  destruct (chunk_loop blake3_digest sha256_digest utcnow r1 block_size c
              (seq 0 k1) [] self) as [[blocks1|] self1]; [| reflexivity].
  assert (Hseq : seq k1 (Z.to_nat q2)
                 = map (Nat.add k1) (seq 0 (Z.to_nat q2))).
  { pose proof (fmap_add_seq k1 0 (Z.to_nat q2)) as H.
    rewrite Nat.add_0_r in H. symmetry. exact H. }
  rewrite Hseq.
  rewrite (chunk_loop_reindex utcnow (fun i => utcnow (k1 + i)%nat)
             (r1 ++ r2) r2 block_size c (Nat.add k1)).
  - apply chunk_loop_acc.
  - intros i _. split; [| reflexivity].
    replace ((k1 + i) * c)%nat with (length r1 + i * c)%nat by lia.
    replace ((k1 + i + 1) * c)%nat with (length r1 + (i + 1) * c)%nat by lia.
    apply slice_app_r.
Qed.

End Chain.

Section Blocks.

Variable blake3_digest : bytes -> nat -> bytes.
Variable sha256_digest : bytes -> bytes.

Hypothesis blake3_digest_length :
  forall (data : bytes) (n : nat), length (blake3_digest data n) = n.

(** C4. For a non-empty raw buffer of length L and a block size b >= 0,
    with chunk_size = max(b, 1024) and clock readings that fit 64 bits,
    [extract_entropy_blocks] returns one block when L < chunk_size and
    L // chunk_size blocks otherwise, each of exactly b bytes; and when
    L >= chunk_size the trailing remainder is discarded: the run returns
    what it returns, and leaves the hasher as it leaves it, on the buffer
    cut after its last whole chunk. *)
Theorem extract_entropy_blocks_count_and_size
    (utcnow : nat -> Z) (raw_data : bytes) (block_size : Z)
    (self : EntropyHasher) :
  raw_data <> [] ->
  0 <= block_size ->
  (forall i, 0 <= utcnow i < 2 ^ 64) ->
  let chunk_size := Z.max block_size 1024 in
  let whole := slice_to raw_data (len raw_data / chunk_size * chunk_size) in
  (exists blocks,
     fst (extract_entropy_blocks blake3_digest sha256_digest utcnow
            raw_data block_size self) = Some blocks
     /\ len blocks
        = (if len raw_data <? chunk_size then 1 else len raw_data / chunk_size)
     /\ Forall (fun blk => len blk = block_size) blocks)
  /\ (chunk_size <= len raw_data ->
      len whole = len raw_data / chunk_size * chunk_size
      /\ extract_entropy_blocks blake3_digest sha256_digest utcnow raw_data
           block_size self
         = extract_entropy_blocks blake3_digest sha256_digest utcnow whole
             block_size self).
Proof.
  intros Hne Hb Hclk chunk_size whole. split.
  - exact (blocks_count_and_size blake3_digest sha256_digest
             blake3_digest_length utcnow raw_data block_size self Hne Hb Hclk).
  - intros Hlen. split.
    + assert (Hcs : 1024 <= chunk_size) by (unfold chunk_size; lia).
      assert (Hk : 0 <= len raw_data / chunk_size * chunk_size <= len raw_data).
      { split; [apply Z.mul_nonneg_nonneg; [apply Z.div_pos |]; lia |].
        rewrite Z.mul_comm. apply Z.mul_div_le. lia. }
      unfold whole, slice_to.
      destruct (Z.leb_spec 0 (len raw_data / chunk_size * chunk_size)); [| lia].
      unfold len in *. rewrite length_firstn. lia.
    + exact (whole_chunks_only blake3_digest sha256_digest utcnow raw_data
               block_size self Hlen).
Qed.

End Blocks.

Lemma extract_entropy_blocks_count_and_size_witness :
  (exists blocks,
     fst (extract_entropy_blocks checksum_digest checksum_sha
            (ticking_clock 1700000000000000)
            (Validation.modular_counter 2500) 16 init) = Some blocks
     /\ len blocks = 2
     /\ Forall (fun blk => len blk = 16) blocks)
  /\ extract_entropy_blocks checksum_digest checksum_sha
       (ticking_clock 1700000000000000) (Validation.modular_counter 2500)
       16 init
     = extract_entropy_blocks checksum_digest checksum_sha
         (ticking_clock 1700000000000000) (Validation.modular_counter 2048)
         16 init.
Proof.
  destruct (extract_entropy_blocks_count_and_size checksum_digest checksum_sha
              checksum_digest_length (ticking_clock 1700000000000000)
              (Validation.modular_counter 2500) 16 init)
    as [Hblocks Hwhole].
  - discriminate.
  - lia.
  - intros i. apply ticking_clock_in_range.
    change (2 ^ 63) with 9223372036854775808. lia.
  - split; [exact Hblocks |].
    destruct Hwhole as [_ Hcut]; [vm_compute; discriminate |].
    rewrite Hcut. f_equal.
Defined.

Section Mixing.

Variable blake3_digest : bytes -> nat -> bytes.

Hypothesis blake3_digest_length :
  forall (data : bytes) (n : nat), length (blake3_digest data n) = n.

(** X5. [hash_chain] links the calls: called without an explicit previous
    hash it digests the stored chaining value (32 zero bytes on a fresh
    hasher) followed by the data, and stores its result, so that the next
    call digests this result followed by its own data. *)
Theorem hash_chain_links (data1 data2 : bytes) (self : EntropyHasher) :
  let first := hash_chain blake3_digest data1 None self in
  let second := hash_chain blake3_digest data2 None (snd first) in
  fst (hash_chain blake3_digest data1 None init)
  = blake3_hash blake3_digest (repeat "000"%byte 32 ++ data1)
  /\ fst second = blake3_hash blake3_digest (fst first ++ data2)
  /\ previous_hash (snd second) = Some (fst second).
Proof.
  cbv zeta. split; [reflexivity | split; [| reflexivity]].
  unfold hash_chain. cbn [fst snd].
  set (h1 := blake3_hash blake3_digest (previous_or_zero self ++ data1)).
  assert (L : length h1 = 32%nat) by apply blake3_digest_length.
  unfold previous_or_zero at 1. cbn [previous_hash].
  destruct h1 as [|b h]; [discriminate L | reflexivity].
Qed.

Lemma pad_sources_permutation (l l' : list bytes) (max_len : Z) :
  Permutation l l' ->
  Permutation (pad_sources blake3_digest l max_len)
    (pad_sources blake3_digest l' max_len).
Proof. apply Permutation_map. Qed.

(** X6. [mix_sources] does not depend on the order of its sources: the
    maximal length, the padding of each source and the XOR of the padded
    buffers are the same for every permutation of the list. *)
Theorem mix_sources_order_independent (data_sources data_sources' : list bytes) :
  Permutation data_sources data_sources' ->
  mix_sources blake3_digest data_sources
  = mix_sources blake3_digest data_sources'.
Proof.
  intros Hperm.
  pose proof (Permutation_length Hperm) as Hlen.
  destruct data_sources as [|a [|b l]].
  - apply Permutation_nil in Hperm. now subst.
  - apply Permutation_length_1_inv in Hperm. now subst.
  - destruct data_sources' as [|a' [|b' l']]; try discriminate Hlen.
    set (sources := a :: b :: l) in *. set (sources' := a' :: b' :: l') in *.
    change (mix_sources blake3_digest sources)
      with (match pad_sources blake3_digest sources
                    (fold_left Z.max (map len sources) 0) with
            | [] => None
            | first :: others =>
                match xor_all first others with
                | Some result => Some (blake3_hash blake3_digest result)
                | None => None
                end
            end).
    change (mix_sources blake3_digest sources')
      with (match pad_sources blake3_digest sources'
                    (fold_left Z.max (map len sources') 0) with
            | [] => None
            | first :: others =>
                match xor_all first others with
                | Some result => Some (blake3_hash blake3_digest result)
                | None => None
                end
            end).
    assert (Hmax : fold_left Z.max (map len sources') 0
                   = fold_left Z.max (map len sources) 0).
    { symmetry. apply fold_left_permutation; [intros; lia |].
      now apply Permutation_map. }
    rewrite Hmax. set (max_len := fold_left Z.max (map len sources) 0).
    assert (Hall : Forall (fun data => len data <= max_len) sources).
    { destruct (fold_max_ge (map len sources) 0) as [_ H].
      now rewrite Forall_map in H. }
    assert (Hall' : Forall (fun data => len data <= max_len) sources').
    { rewrite Forall_forall in Hall |- *. intros x Hx. apply Hall.
      now rewrite Hperm. }
    pose proof (pad_sources_length blake3_digest blake3_digest_length
                  sources max_len Hall) as Hpad.
    pose proof (pad_sources_length blake3_digest blake3_digest_length
                  sources' max_len Hall') as Hpad'.
    pose proof (pad_sources_permutation sources sources' max_len Hperm) as Hpp.
    destruct (pad_sources blake3_digest sources max_len) as [|p others];
      [discriminate (Permutation_length Hpp) |].
    destruct (pad_sources blake3_digest sources' max_len) as [|p' others'];
      [discriminate (Permutation_length Hpp) |].
    inversion Hpad as [|? ? Hp Ho]; subst.
    inversion Hpad' as [|? ? Hp' Ho']; subst.
    rewrite (xor_all_fold others _ Ho p Hp), (xor_all_fold others' _ Ho' p' Hp').
    do 2 f_equal.
    rewrite <- (bxor_zero_l p) at 1. rewrite <- (bxor_zero_l p') at 1.
    rewrite Hp, Hp'.
    change (fold_left bxor others (bxor (repeat "000"%byte (Z.to_nat max_len)) p))
      with (fold_left bxor (p :: others) (repeat "000"%byte (Z.to_nat max_len))).
    change (fold_left bxor others' (bxor (repeat "000"%byte (Z.to_nat max_len)) p'))
      with (fold_left bxor (p' :: others') (repeat "000"%byte (Z.to_nat max_len))).
    apply fold_left_permutation; [apply bxor_swap | exact Hpp].
Qed.

End Mixing.

Lemma xor_into_self (a : bytes) :
  xor_into a a = Some (repeat "000"%byte (length a)).
Proof.
  induction a as [|a0 a IH]; [reflexivity |].
  cbn [xor_into length repeat]. now rewrite IH, byte_xor_nilpotent.
Qed.

(** X7. Mixing a source with itself cancels it: for every buffer [a],
    [mix_sources [a, a]] is the BLAKE3 digest of [len(a)] zero bytes, so
    the result carries nothing of [a] but its length. *)
Theorem mix_sources_self_cancels
    (blake3_digest : bytes -> nat -> bytes) (a : bytes) :
  mix_sources blake3_digest [a; a]
  = Some (blake3_hash blake3_digest (repeat "000"%byte (length a))).
Proof.
  unfold mix_sources. cbn [map fold_left].
  replace (Z.max (Z.max 0 (len a)) (len a)) with (len a)
    by (unfold len; lia).
  unfold pad_sources. cbn [map]. rewrite Z.ltb_irrefl.
  unfold slice_to, len. destruct (Z.leb_spec 0 (Z.of_nat (length a))); [| lia].
  rewrite Nat2Z.id, firstn_all. cbn [xor_all]. now rewrite xor_into_self.
Qed.

Lemma trailing_bytes_ignored_witness :
  extract_entropy_blocks checksum_digest checksum_sha
    (ticking_clock 1700000000000000) (Validation.modular_counter 2500) 16 init
  = extract_entropy_blocks checksum_digest checksum_sha
      (ticking_clock 1700000000000000)
      (slice_to (Validation.modular_counter 2500)
         (len (Validation.modular_counter 2500) / Z.max 16 1024
          * Z.max 16 1024))
      16 init.
Proof.
  apply (trailing_bytes_ignored checksum_digest checksum_sha
           (ticking_clock 1700000000000000) (Validation.modular_counter 2500)
           16 init).
  vm_compute. discriminate.
Defined.

Lemma extraction_chains_across_calls_witness :
  extract_entropy_blocks checksum_digest checksum_sha
    (ticking_clock 1700000000000000)
    (Validation.modular_counter 1024 ++ Validation.modular_counter 1500) 16 init
  = match extract_entropy_blocks checksum_digest checksum_sha
            (ticking_clock 1700000000000000) (Validation.modular_counter 1024)
            16 init with
    | (Some blocks1, self1) =>
        match extract_entropy_blocks checksum_digest checksum_sha
                (fun i => ticking_clock 1700000000000000
                            (Z.to_nat (len (Validation.modular_counter 1024)
                                       / Z.max 16 1024) + i)%nat)
                (Validation.modular_counter 1500) 16 self1 with
        | (Some blocks2, self2) => (Some (blocks1 ++ blocks2), self2)
        | (None, self2) => (None, self2)
        end
    | (None, self1) => (None, self1)
    end.
Proof.
  apply (extraction_chains_across_calls checksum_digest checksum_sha
           (ticking_clock 1700000000000000) (Validation.modular_counter 1024)
           (Validation.modular_counter 1500) 16 init).
  - vm_compute. discriminate.
  - vm_compute. reflexivity.
  - vm_compute. discriminate.
Defined.

Lemma hash_chain_links_witness :
  fst (hash_chain checksum_digest [] None
         (snd (hash_chain checksum_digest ["001"%byte] None init)))
  = blake3_hash checksum_digest
      (fst (hash_chain checksum_digest ["001"%byte] None init) ++ []).
Proof.
  exact (proj1 (proj2 (hash_chain_links checksum_digest checksum_digest_length
                         ["001"%byte] [] init))).
Defined.

Lemma mix_sources_order_independent_witness :
  mix_sources checksum_digest
    [Validation.modular_counter 5; Validation.modular_counter 70; []]
  = mix_sources checksum_digest
      [[]; Validation.modular_counter 5; Validation.modular_counter 70].
Proof.
  apply (mix_sources_order_independent checksum_digest checksum_digest_length).
  symmetry. apply Permutation_cons_append with (l := [_; _]).
Defined.

(** ** Clock readings that [struct.pack] refuses *)

Lemma pack_Q_None (t : Z) : pack_Q t = None <-> ~ (0 <= t < 2 ^ 64).
Proof.
  unfold pack_Q.
  destruct (Z.leb_spec 0 t), (Z.ltb_spec t (2 ^ 64)); cbn [andb];
    split; (discriminate || lia || (intros; reflexivity)).
Qed.

Lemma chunk_loop_fails
    (blake3_digest : bytes -> nat -> bytes) (sha256_digest : bytes -> bytes)
    (utcnow : nat -> Z) (raw_data : bytes) (block_size : Z) (chunk_size : nat)
    (indices : list nat) :
  forall (blocks : list bytes) (self : EntropyHasher),
  fst (chunk_loop blake3_digest sha256_digest utcnow raw_data block_size
         chunk_size indices blocks self) = None
  <-> exists i, In i indices /\ ~ (0 <= utcnow i < 2 ^ 64).
Proof.
  induction indices as [|i rest IH]; intros blocks self.
  - cbn. split; [discriminate | intros (i & [] & _)].
  - cbn [chunk_loop]. unfold hash_with_timestamp.
    destruct (pack_Q (utcnow i)) as [ts|] eqn:Hp.
    + cbn [hash_chain]. rewrite IH. split.
      * intros (j & Hj & Hbad). exists j. split; [now right | exact Hbad].
      * intros (j & [<-|Hj] & Hbad).
        -- exfalso. apply pack_Q_None in Hbad. congruence.
        -- exists j. now split.
    + cbn [fst]. split; [| reflexivity]. intros _.
      exists i. split; [now left | now apply pack_Q_None].
Qed.

(** X26. On a raw buffer of at least one chunk, [extract_entropy_blocks]
    fails with the [struct.error] of [struct.pack('>Q', ...)], and returns
    no block at all, exactly when the clock reading taken for one of its
    chunks is negative (a clock before 1970) or does not fit 64 bits; on a
    shorter buffer it reads no clock and cannot fail. *)
Theorem extraction_fails_on_bad_clock
    (blake3_digest : bytes -> nat -> bytes) (sha256_digest : bytes -> bytes)
    (utcnow : nat -> Z) (raw_data : bytes) (block_size : Z)
    (self : EntropyHasher) :
  let chunk_size := Z.max block_size 1024 in
  (chunk_size <= len raw_data ->
   (fst (extract_entropy_blocks blake3_digest sha256_digest utcnow raw_data
           block_size self) = None
    <-> exists i : nat,
          Z.of_nat i < len raw_data / chunk_size
          /\ ~ (0 <= utcnow i < 2 ^ 64)))
  /\ (len raw_data < chunk_size ->
      fst (extract_entropy_blocks blake3_digest sha256_digest utcnow raw_data
             block_size self) <> None).
Proof.
  intros chunk_size.
  assert (Hcs : 1024 <= chunk_size) by (unfold chunk_size; lia).
  unfold extract_entropy_blocks. fold chunk_size. split.
  - intros Hlen.
    assert (Hq : 1 <= len raw_data / chunk_size)
      by (apply Z.div_le_lower_bound; lia).
    destruct raw_data as [|b0 raw']; [unfold len in Hlen; cbn in Hlen; lia |].
    destruct (Z.eqb_spec (len (b0 :: raw') / chunk_size) 0) as [|_]; [lia |].
    rewrite chunk_loop_fails. split.
    + intros (i & Hi & Hbad). apply in_seq in Hi. exists i. split; [lia | exact Hbad].
    + intros (i & Hi & Hbad). exists i. split; [apply in_seq; lia | exact Hbad].
  - intros Hlen. destruct raw_data as [|b0 raw']; [discriminate |].
    rewrite Z.div_small by (unfold len in *; lia). discriminate.
Qed.

Lemma extraction_fails_on_bad_clock_witness :
  fst (extract_entropy_blocks checksum_digest checksum_sha (fun _ => -1)
         (Validation.modular_counter 2048) 32 init) = None.
Proof.
  apply (proj1 (extraction_fails_on_bad_clock checksum_digest checksum_sha
                  (fun _ => -1) (Validation.modular_counter 2048) 32 init)).
  - vm_compute. discriminate.
  - exists 0%nat. split; [vm_compute; reflexivity | lia].
Defined.

End Hashing.

(** * noise_extraction.py *)

Module NoiseExtraction.

(** A two-dimensional [uint8] array, as the list of its rows. *)
Abbreviation array2 := (list (list byte)).

(** What [cv2.imread] yields: a 2-D (gray) array, or an array of shape
    (rows, cols, channels) given as rows of pixels. *)
Inductive ndarray :=
  | Gray (a : array2)
  | Color (nchan : nat) (a : list (list (list byte))).

(** [a.flatten().tobytes()] *)
Definition tobytes (a : array2) : bytes := concat a.

(** [a.shape[0]], [a.shape[1]] and [a.size] of a 2-D array. *)
Definition height (a : array2) : nat := length a.
Definition width (a : array2) : nat :=
  match a with [] => 0%nat | row :: _ => length row end.
Definition size (a : array2) : nat := (height a * width a)%nat.

(** [image[:, :, i]] *)
Definition channel (a : list (list (list byte))) (i : nat) : array2 :=
  map (map (fun px => nth i px "000"%byte)) a.

(** [image[y:y+reg_h, x:x+reg_w]] *)
Definition crop (a : array2) (y x reg_h reg_w : nat) : array2 :=
  map (fun row => firstn reg_w (skipn x row)) (firstn reg_h (skipn y a)).

(** [mixed[i] = data[i] ^ data[(i + 1) % len(data)]]; defined by the
    source and called nowhere. *)
Definition _xor_mix (data : bytes) : bytes :=
  match data with
  | [] | [_] => data
  | first :: _ =>
      map (fun i => Hashing.byte_xor (nth i data "000"%byte)
                      (nth (S i) (data ++ [first]) "000"%byte))
          (seq 0 (length data))
  end.

Section ImagePreprocessor.

(** [cv2.imread] ([None] when the file does not decode) and
    [cv2.cvtColor(image, cv2.COLOR_BGR2GRAY)]. *)
Variable imread : string -> option ndarray.
Variable cvtColor_BGR2GRAY : nat -> list (list (list byte)) -> array2.

(** The three reducers.  Each is a composition of OpenCV and NumPy
    floating-point array operations (Laplacian, FFT and Sobel filters,
    min-max normalisation, the cast to [uint8]); [extract_noise] uses
    only the [uint8] array each returns. *)
Variable extract_laplacian_noise : array2 -> array2.
Variable extract_fft_high_freq : array2 -> float -> array2.
Variable extract_pixel_differences : array2 -> array2.

(** [rng k high] is the value of the [k]-th call [rng.integers(0, high)]
    of the generator that [sample_random_regions] seeds from the clock and
    a hash of the image. *)
Variable rng : nat -> nat -> nat.

Definition load_image (image_path : string) : option ndarray :=
  imread image_path.

Definition convert_to_grayscale (image : ndarray) : array2 :=
  match image with
  | Gray a => a
  | Color nchan a => cvtColor_BGR2GRAY nchan a
  end.

Definition separate_rgb_channels (image : ndarray) : list array2 :=
  match image with
  | Gray a => [a]
  | Color nchan a => map (channel a) (seq 0 nchan)
  end.

Definition sample_random_regions (image : array2) (num_regions : nat)
    (region_size : nat * nat) : list array2 :=
  if (size image =? 0)%nat then []
  else
    let '(reg_h, reg_w) := region_size in
    fold_left
      (fun regions i =>
         if (reg_h <? height image)%nat && (reg_w <? width image)%nat then
           let y := rng (2 * i) (height image - reg_h) in
           let x := rng (2 * i + 1) (width image - reg_w) in
           regions ++ [crop image y x reg_h reg_w]
         else regions)
      (seq 0 num_regions) [].

Definition extract_noise (image_path : string) : bytes :=
  match load_image image_path with
  | None => []
  | Some image =>
      let collected_bytes := [] in
      let channels := separate_rgb_channels image in
      let collected_bytes :=
        fold_left
          (fun collected channel =>
             let laplacian := extract_laplacian_noise channel in
             collected ++ tobytes laplacian)
          channels collected_bytes in
      let gray := convert_to_grayscale image in
      let fft_noise := extract_fft_high_freq gray 0.8 in
      let collected_bytes := collected_bytes ++ tobytes fft_noise in
      let diff_noise := extract_pixel_differences gray in
      let collected_bytes := collected_bytes ++ tobytes diff_noise in
      let regions := sample_random_regions gray 5 (32%nat, 32%nat) in
      let collected_bytes :=
        fold_left
          (fun collected region =>
             let region_noise := extract_laplacian_noise region in
             collected ++ tobytes region_noise)
          regions collected_bytes in
      collected_bytes
  end.

Definition extract_noise_batch (image_paths : list string) : bytes :=
  fold_left (fun all_noise path => all_noise ++ extract_noise path)
    image_paths [].

(** ** Properties of the extractor *)

Example xor_mix_3 :
  _xor_mix ["001"; "002"; "004"]%byte = ["003"; "006"; "005"]%byte.
Proof. reflexivity. Qed.

Lemma extend_loop {A} (f : A -> bytes) (l : list A) (init : bytes) :
  fold_left (fun collected x => collected ++ f x) l init
  = init ++ concat (map f l).
Proof.
  revert init. induction l as [|x l IH]; intros init; cbn [fold_left map concat].
  - now rewrite app_nil_r.
  - now rewrite IH, app_assoc.
Qed.

Lemma sample_loop (image : array2) (reg_h reg_w : nat) (l : list nat)
    (init : list array2) :
  fold_left
    (fun regions i =>
       if (reg_h <? height image)%nat && (reg_w <? width image)%nat then
         regions ++ [crop image (rng (2 * i) (height image - reg_h))
                       (rng (2 * i + 1) (width image - reg_w)) reg_h reg_w]
       else regions) l init
  = init ++
    (if (reg_h <? height image)%nat && (reg_w <? width image)%nat
     then map (fun i => crop image (rng (2 * i) (height image - reg_h))
                          (rng (2 * i + 1) (width image - reg_w)) reg_h reg_w) l
     else []).
Proof.
  revert init. induction l as [|i l IH]; intros init; cbn [fold_left map].
  - destruct (_ && _); now rewrite app_nil_r.
  - rewrite IH. destruct (_ && _); [| reflexivity].
    now rewrite <- app_assoc.
Qed.

(** Five windows when the image exceeds 32 pixels in both directions,
    none otherwise; each window is the crop of 32 rows and 32 columns at
    a drawn offset. *)
Lemma sample_random_regions_5_32 (image : array2) :
  sample_random_regions image 5 (32%nat, 32%nat)
  = if (32 <? height image)%nat && (32 <? width image)%nat
    then map (fun i => crop image (rng (2 * i) (height image - 32))
                         (rng (2 * i + 1) (width image - 32)) 32 32)
             (seq 0 5)
    else [].
Proof.
  unfold sample_random_regions.
  destruct (size image =? 0)%nat eqn:E.
  - apply Nat.eqb_eq in E. unfold size in E.
    destruct (Nat.ltb_spec 32 (height image)), (Nat.ltb_spec 32 (width image));
      cbn [andb]; try reflexivity.
    apply Nat.eq_mul_0 in E. lia.
  - now rewrite sample_loop.
Qed.


End ImagePreprocessor.

(** ** The XOR mix, the shapes of the regions and the size of the noise *)

Lemma map_nth_zip {A B} (f : A -> A -> B) (d : A) (l l2 : list A) :
  (length l <= length l2)%nat ->
  map (fun i => f (nth i l d) (nth i l2 d)) (seq 0 (length l))
  = zip_with f l l2.
Proof.
  revert l2. induction l as [|a l IH]; intros l2 Hle; [reflexivity |].
  destruct l2 as [|b l2]; [cbn in Hle; lia |].
  cbn [length seq map nth zip_with]. f_equal.
  rewrite <- seq_shift, map_map. cbn [nth]. apply IH. cbn in Hle. lia.
Qed.

Lemma xor_mix_zip (first second : byte) (rest : bytes) :
  _xor_mix (first :: second :: rest)
  = zip_with Hashing.byte_xor (first :: second :: rest)
      (second :: rest ++ [first]).
Proof.
  unfold _xor_mix.
  rewrite <- (map_nth_zip Hashing.byte_xor "000"%byte (first :: second :: rest)
                (second :: rest ++ [first]))
    by (cbn [length]; rewrite length_app; cbn [length]; lia).
  reflexivity.
Qed.

Lemma xor_fold_acc (l : bytes) (a : byte) :
  fold_left Hashing.byte_xor l a
  = Hashing.byte_xor a (fold_left Hashing.byte_xor l "000"%byte).
Proof.
  revert a. induction l as [|x l IH]; intros a; cbn [fold_left].
  - now rewrite Hashing.byte_xor_comm, Hashing.byte_xor_zero_l.
  - rewrite IH, (IH (Hashing.byte_xor "000"%byte x)).
    now rewrite Hashing.byte_xor_zero_l, Hashing.byte_xor_assoc.
Qed.

Lemma xor_fold_zip (l m : bytes) :
  length l = length m ->
  fold_left Hashing.byte_xor (zip_with Hashing.byte_xor l m) "000"%byte
  = Hashing.byte_xor (fold_left Hashing.byte_xor l "000"%byte)
      (fold_left Hashing.byte_xor m "000"%byte).
Proof.
  revert m. induction l as [|x l IH]; intros m Hlen.
  - destruct m; [| discriminate Hlen]. cbn.
    now rewrite Hashing.byte_xor_zero_l.
  - destruct m as [|y m]; [discriminate Hlen |].
    cbn [zip_with fold_left]. rewrite !Hashing.byte_xor_zero_l.
    rewrite (xor_fold_acc _ (Hashing.byte_xor x y)), (xor_fold_acc l x),
      (xor_fold_acc m y), IH by (cbn in Hlen; lia).
    set (L := fold_left Hashing.byte_xor l "000"%byte).
    set (M := fold_left Hashing.byte_xor m "000"%byte).
    rewrite !Hashing.byte_xor_assoc. f_equal.
    rewrite <- !Hashing.byte_xor_assoc. f_equal. apply Hashing.byte_xor_comm.
Qed.

Lemma xor_fold_rotate (first : byte) (rest : bytes) :
  fold_left Hashing.byte_xor (rest ++ [first]) "000"%byte
  = fold_left Hashing.byte_xor (first :: rest) "000"%byte.
Proof.
  rewrite fold_left_app. cbn [fold_left].
  rewrite Hashing.byte_xor_zero_l, (xor_fold_acc rest first).
  apply Hashing.byte_xor_comm.
Qed.

(** X8. [_xor_mix] keeps the length of its input, and on an input of two
    or more bytes the XOR of all output bytes is zero: every input byte
    enters exactly two output bytes, so the output is confined to the
    buffers of even parity and the mixing loses information. *)
Theorem xor_mix_parity (data : bytes) (first second : byte) (rest : bytes) :
  length (_xor_mix data) = length data
  /\ fold_left Hashing.byte_xor (_xor_mix (first :: second :: rest)) "000"%byte
     = "000"%byte.
Proof.
  split.
  - destruct data as [|a [|b l]]; try reflexivity.
    unfold _xor_mix. now rewrite length_map, length_seq.
  - rewrite xor_mix_zip, xor_fold_zip
      by (cbn [length]; rewrite length_app; cbn [length]; lia).
    change (second :: rest ++ [first]) with ((second :: rest) ++ [first]).
    rewrite xor_fold_rotate. apply Hashing.byte_xor_nilpotent.
Qed.

(** An array of [h] rows of [w] entries each. *)
Definition has_shape {A} (a : list (list A)) (h w : nat) : Prop :=
  map length a = repeat w h.

Lemma map_const {A B} (f : A -> B) (c : B) (l : list A) :
  Forall (fun x => f x = c) l -> map f l = repeat c (length l).
Proof.
  induction 1 as [|x l Hx _ IH]; [reflexivity |].
  cbn [map length repeat]. now rewrite Hx, IH.
Qed.

Lemma rows_shape {A} (a : list (list A)) (w : nat) :
  Forall (fun row => length row = w) a -> has_shape a (length a) w.
Proof. apply map_const. Qed.

Lemma shape_rows {A} (a : list (list A)) (h w : nat) :
  has_shape a h w ->
  length a = h /\ Forall (fun row => length row = w) a.
Proof.
  unfold has_shape. intros Hs. split.
  - apply (f_equal (@length nat)) in Hs.
    now rewrite length_map, repeat_length in Hs.
  - apply Forall_forall. intros row Hin.
    apply list_elem_of_In, (in_map (@length A)) in Hin.
    rewrite Hs in Hin. now apply repeat_spec in Hin.
Qed.

Lemma shape_size {A} (a : list (list A)) (h w : nat) :
  has_shape a h w -> length (concat a) = (h * w)%nat.
Proof.
  unfold has_shape. intros Hs. rewrite length_concat, Hs. clear Hs.
  induction h as [|h IH]; [reflexivity |].
  change (list_sum (repeat w (S h))) with (w + list_sum (repeat w h))%nat.
  lia.
Qed.

Lemma crop_shape (a : array2) (h w y x reg_h reg_w : nat) :
  has_shape a h w ->
  (y + reg_h <= h)%nat -> (x + reg_w <= w)%nat ->
  has_shape (crop a y x reg_h reg_w) reg_h reg_w.
Proof.
  intros Hs Hy Hx. apply shape_rows in Hs as [Hh Hrows].
  unfold has_shape, crop. rewrite map_map.
  replace reg_h with (length (firstn reg_h (skipn y a))) at 2
    by (rewrite length_firstn, length_skipn; lia).
  apply map_const. apply Forall_take, Forall_drop.
  eapply Forall_impl; [exact Hrows |]. intros row Hrow.
  cbv beta in Hrow |- *. rewrite length_firstn, length_skipn. lia.
Qed.



Section Shapes.

Variable imread : string -> option ndarray.
Variable cvtColor_BGR2GRAY : nat -> list (list (list byte)) -> array2.
Variable extract_laplacian_noise : array2 -> array2.
Variable extract_fft_high_freq : array2 -> float -> array2.
Variable extract_pixel_differences : array2 -> array2.
Variable rng : nat -> nat -> nat.

(** [rng.integers(0, high)] draws from 0 .. high - 1. *)
Hypothesis rng_range :
  forall k high : nat, (0 < high)%nat -> (rng k high < high)%nat.

Lemma sample_random_regions_crops (image : array2) (n reg_h reg_w : nat) :
  sample_random_regions rng image n (reg_h, reg_w)
  = if (reg_h <? height image)%nat && (reg_w <? width image)%nat
    then map (fun i => crop image (rng (2 * i) (height image - reg_h))
                         (rng (2 * i + 1) (width image - reg_w)) reg_h reg_w)
             (seq 0 n)
    else [].
Proof.
  unfold sample_random_regions.
  destruct (size image =? 0)%nat eqn:E.
  - apply Nat.eqb_eq in E. unfold size in E.
    destruct (Nat.ltb_spec reg_h (height image)),
             (Nat.ltb_spec reg_w (width image));
      cbn [andb]; try reflexivity.
    apply Nat.eq_mul_0 in E. lia.
  - now rewrite sample_loop.
Qed.

Lemma sampled_regions_shape (image : array2) (n reg_h reg_w : nat) :
  Forall (fun row => length row = width image) image ->
  let regions := sample_random_regions rng image n (reg_h, reg_w) in
  length regions
  = (if (reg_h <? height image)%nat && (reg_w <? width image)%nat
     then n else 0%nat)
  /\ Forall (fun region => has_shape region reg_h reg_w) regions.
Proof.
  intros Hrows regions. unfold regions.
  rewrite sample_random_regions_crops.
  destruct (Nat.ltb_spec reg_h (height image)) as [Hh|Hh];
    [| split; [reflexivity | constructor]].
  destruct (Nat.ltb_spec reg_w (width image)) as [Hw|Hw];
    [| split; [reflexivity | constructor]].
  cbn [andb]. split; [now rewrite length_map, length_seq |].
  apply Forall_map, Forall_forall. intros i _.
  pose proof (rng_range (2 * i) (height image - reg_h) ltac:(lia)).
  pose proof (rng_range (2 * i + 1) (width image - reg_w) ltac:(lia)).
  apply (crop_shape image (height image) (width image));
    [apply rows_shape; exact Hrows | lia | lia].
Qed.



(** X9. On an image whose rows all have the width of the image,
    [sample_random_regions] returns [num_regions] regions when the image
    is strictly higher and strictly wider than the region size, and none
    otherwise (an image of exactly the region size yields none); every
    region it returns has the full region size: the drawn offsets keep the
    window inside the image, so no region is clipped. *)
Theorem sample_random_regions_shape (image : array2) (n reg_h reg_w : nat) :
  Forall (fun row => length row = width image) image ->
  let regions := sample_random_regions rng image n (reg_h, reg_w) in
  length regions
  = (if (reg_h <? height image)%nat && (reg_w <? width image)%nat
     then n else 0%nat)
  /\ Forall (fun region => has_shape region reg_h reg_w) regions.
Proof. exact (sampled_regions_shape image n reg_h reg_w). Qed.

(** The filters return an array of the shape of their argument, and the
    luminance conversion one value per pixel. *)
Hypothesis laplacian_shape :
  forall a, map length (extract_laplacian_noise a) = map length a.
Hypothesis fft_shape :
  forall a cutoff, map length (extract_fft_high_freq a cutoff) = map length a.
Hypothesis differences_shape :
  forall a, map length (extract_pixel_differences a) = map length a.
Hypothesis gray_shape :
  forall nchan a, map length (cvtColor_BGR2GRAY nchan a) = map length a.

Lemma same_shape_size {A B} (a : list (list A)) (b : list (list B)) :
  map length a = map length b -> length (concat a) = length (concat b).
Proof. intros E. now rewrite !length_concat, E. Qed.

Lemma concat_const_length {A} (f : A -> bytes) (l : list A) (k : nat) :
  Forall (fun x => length (f x) = k) l ->
  length (concat (map f l)) = (length l * k)%nat.
Proof.
  induction 1 as [|x l Hx _ IH]; [reflexivity |].
  cbn [map concat length]. rewrite length_app, Hx, IH. lia.
Qed.

(** X10. For a colour frame of [h] rows, [w] columns and [nchan]
    channels, and filters that keep the shape of their argument,
    [extract_noise] returns (nchan + 2) * h * w bytes (one Laplacian plane
    per channel, the FFT plane and the gradient plane), plus 5 * 32 * 32
    bytes for the five sampled regions when the frame exceeds 32 pixels in
    both directions. *)
Theorem extract_noise_length
    (image_path : string) (nchan h w : nat) (a : list (list (list byte))) :
  imread image_path = Some (Color nchan a) ->
  has_shape a h w ->
  length (extract_noise imread cvtColor_BGR2GRAY extract_laplacian_noise
            extract_fft_high_freq extract_pixel_differences rng image_path)
  = ((nchan + 2) * (h * w)
     + (if (32 <? h)%nat && (32 <? w)%nat then 5 * (32 * 32) else 0))%nat.
Proof.
  intros Hload Hs. unfold extract_noise, load_image. rewrite Hload.
  cbn [separate_rgb_channels convert_to_grayscale].
  set (gray := cvtColor_BGR2GRAY nchan a).
  assert (Hgray : has_shape gray h w).
  { unfold has_shape, gray. now rewrite gray_shape. }
  rewrite !extend_loop. cbn [app]. rewrite !length_app.
  rewrite (concat_const_length _ _ (h * w)).
  2:{ apply Forall_map, Forall_forall. intros i _. unfold tobytes.
      rewrite (same_shape_size _ (channel a i)) by apply laplacian_shape.
      apply shape_size. unfold has_shape, channel.
      rewrite map_map. rewrite <- Hs. apply map_ext. intros row.
      apply length_map. }
  rewrite length_map, length_seq.
  unfold tobytes at 1 2.
  rewrite (same_shape_size (extract_fft_high_freq gray 0.8) gray)
    by apply fft_shape.
  rewrite (same_shape_size (extract_pixel_differences gray) gray)
    by apply differences_shape.
  rewrite (shape_size gray h w Hgray).
  destruct (shape_rows gray h w Hgray) as [Hh Hrows].
  assert (Hwidth : (0 < h)%nat -> width gray = w).
  { intros Hpos. unfold width. destruct gray as [|row g]; [cbn in Hh; lia |].
    now inversion Hrows. }
  assert (Hrect : Forall (fun row => length row = width gray) gray).
  { destruct (Nat.eq_dec h 0%nat) as [->|Hne].
    - destruct gray; [constructor | discriminate Hh].
    - rewrite Hwidth by lia. exact Hrows. }
  destruct (sampled_regions_shape gray 5 32 32 Hrect) as [Hcount Hall].
  rewrite (concat_const_length _ _ (32 * 32)).
  2:{ eapply Forall_impl; [exact Hall |]. intros region Hregion.
      cbv beta. unfold tobytes.
      rewrite (same_shape_size _ region) by apply laplacian_shape.
      now apply shape_size. }
  rewrite Hcount. unfold height. rewrite Hh.
  destruct (Nat.ltb_spec 32 h) as [H32|H32]; cbn [andb]; [| lia].
  rewrite Hwidth by lia. destruct (32 <? w)%nat; lia.
Qed.

End Shapes.

(** A frame of 33 rows and 33 columns of the same three-channel pixel. *)
Definition flat_frame : list (list (list byte)) :=
  repeat (repeat ["001"; "002"; "003"]%byte 33) 33.

Definition flat_imread (path : string) : option ndarray :=
  if String.eqb path "sun.jpg" then Some (Color 3 flat_frame) else None.





Lemma sample_random_regions_shape_witness :
  length (sample_random_regions (fun _ _ => 0%nat) (channel flat_frame 0) 5
            (32%nat, 32%nat)) = 5%nat
  /\ Forall (fun region => has_shape region 32 32)
       (sample_random_regions (fun _ _ => 0%nat) (channel flat_frame 0) 5
          (32%nat, 32%nat)).
Proof.
  apply (sample_random_regions_shape (fun _ _ => 0%nat) (fun _ _ H => H)
           (channel flat_frame 0) 5 32 32).
  apply Forall_forall. intros row Hin. apply list_elem_of_In in Hin.
  unfold channel, flat_frame in Hin. rewrite map_repeat in Hin.
  apply repeat_spec in Hin. subst row. reflexivity.
Defined.

Lemma extract_noise_length_witness :
  length (extract_noise flat_imread (fun _ a => channel a 1) (fun a => a)
            (fun a _ => a) (fun a => a) (fun _ _ => 0%nat) "sun.jpg")
  = (5 * (33 * 33) + 5 * (32 * 32))%nat.
Proof.
  apply (extract_noise_length flat_imread (fun _ a => channel a 1) (fun a => a)
           (fun a _ => a) (fun a => a) (fun _ _ => 0%nat) (fun _ _ H => H)
           (fun a => eq_refl) (fun a _ => eq_refl) (fun a => eq_refl)
           (fun _ a => eq_trans (map_map _ _ _)
                         (map_ext _ _ (fun row => length_map _ row) a))
           "sun.jpg" 3 33 33 flat_frame eq_refl).
  unfold has_shape, flat_frame. rewrite map_repeat. reflexivity.
Defined.

End NoiseExtraction.

(** * pool.py *)

Module Pool.

(** A decoded JSON document.  [JB64 p] is a string of base64 text, given
    by the bytes [p] it decodes to; [JStr s] is any other string
    ([base64.b64decode] raises on it).  A dict is an association list
    without repeated keys. *)
Inductive json :=
  | JInt (z : Z)
  | JFloat (f : float)
  | JStr (s : string)
  | JB64 (payload : bytes)
  | JList (items : list json)
  | JDict (fields : list (string * json)).

(** What a Redis key holds: the text of a JSON document; text that
    [json.loads] rejects with [JSONDecodeError] (the empty string among
    it); or bytes that are not text, on which [json.loads] raises
    [UnicodeDecodeError]. *)
Inductive redis_val :=
  | Doc (j : json)
  | Undecodable
  | NotUnicode.

(** A key's value with its remaining time to live in seconds; -1 when
    the key does not expire. *)
Record entry := { value : redis_val; ttl : Z }.

Abbreviation store := (gmap string entry).

(** [self]: the connection state and the database behind the client. *)
Record EntropyPool := { connected : bool; db : store }.

(** The exceptions that leave the pool.  [ValueError] stands for its
    subclasses too: the [binascii.Error] of [base64.b64decode] and
    [UnicodeDecodeError]. *)
Inductive exn := ConnectionError | TypeError | AttributeError | ValueError.

Inductive outcome (A : Type) :=
  | Raised (e : exn)
  | Returned (a : A).
Arguments Raised {A} e.
Arguments Returned {A} a.

Definition stats_key : string := "entropy:stats".
Definition pool_key_prefix : string := "entropy:block".
Definition used_key_prefix : string := "entropy:used".

(** [key.split(':')[-1]] *)
Fixpoint last_component_from (s acc : string) : string :=
  match s with
  | EmptyString => acc
  | String c rest =>
      if Ascii.eqb c ":"%char then last_component_from rest EmptyString
      else last_component_from rest (acc ++ String c EmptyString)
  end.

Definition last_component (key : string) : string :=
  last_component_from key EmptyString.

(** The marker key that the loop tests and writes for a block key. *)
Definition used_key_of (key : string) : string :=
  (used_key_prefix ++ ":" ++ last_component key)%string.

(** [d.get(key)] and [d[key] = v] on a dict. *)
Fixpoint dict_get (fields : list (string * json)) (key : string) : option json :=
  match fields with
  | [] => None
  | (k, v) :: rest => if String.eqb k key then Some v else dict_get rest key
  end.

Fixpoint dict_set (fields : list (string * json)) (key : string) (v : json)
    : list (string * json) :=
  match fields with
  | [] => [(key, v)]
  | (k, v0) :: rest =>
      if String.eqb k key then (k, v) :: rest
      else (k, v0) :: dict_set rest key v
  end.

(** ** The Redis commands the pool issues *)

Definition redis_exists (d : store) (key : string) : bool :=
  match d !! key with Some _ => true | None => false end.

Definition redis_get (d : store) (key : string) : option redis_val :=
  match d !! key with Some e => Some (value e) | None => None end.

(** -2 for a key that does not exist. *)
Definition redis_ttl (d : store) (key : string) : Z :=
  match d !! key with Some e => ttl e | None => -2 end.

Definition redis_setex (d : store) (key : string) (seconds : Z) (v : redis_val)
    : store :=
  <[key := {| value := v; ttl := seconds |}]> d.

Definition redis_set (d : store) (key : string) (v : redis_val) : store :=
  <[key := {| value := v; ttl := -1 |}]> d.

Definition redis_delete (d : store) (keys : list string) : store :=
  fold_left (fun d key => delete key d) keys d.

(** The keyspace in the order of the finite map: one enumeration that the
    server may answer [KEYS] with. *)
Definition map_order_scan (d : store) : list string := (map_to_list d).*1.

(** The used-marker value [b'1']. *)
Definition marker : redis_val := Doc (JInt 1).

Section EntropyPool.

(** The order in which the server enumerates its keyspace for [KEYS]:
    unspecified, each key once. *)
Variable scan : store -> list string.
Hypothesis scan_keys : forall (d : store) (key : string),
  key ∈ scan d <-> is_Some (d !! key).
Hypothesis scan_NoDup : forall d : store, NoDup (scan d).

(** [settings.entropy_ttl] *)
Variable entropy_ttl : Z.

(** [redis_client.keys(f"{prefix}:*")] *)
Definition redis_keys (d : store) (key_prefix : string) : list string :=
  List.filter (String.prefix (key_prefix ++ ":")) (scan d).

Definition is_connected (self : EntropyPool) : bool := connected self.

(** The document that [_update_stats] computes from what it read under
    the statistics key, between its [GET] and its [SET]; [now] is
    [datetime.now(timezone.utc).isoformat()]. *)
Definition updated_stats (now : string) (key : string) (increment : Z)
    (stats_data : option redis_val) : outcome json :=
  let stats :=
    match stats_data with
    | Some (Doc j) => j
    | Some Undecodable | Some NotUnicode | None => JDict []
    end in
  match stats with
  | JDict fields =>
      let updated :=
        match dict_get fields key with
        | None => Returned (JInt (0 + increment))
        | Some (JInt v) => Returned (JInt (v + increment))
        | Some (JFloat f) => Returned (JFloat (f + float_of_Z increment))
        | Some _ => Raised TypeError
        end in
      match updated with
      | Returned v =>
          let fields := dict_set fields key v in
          let fields := dict_set fields "last_updated" (JStr now) in
          Returned (JDict fields)
      | Raised e => Raised e
      end
  | _ => Raised AttributeError
  end.

Definition _update_stats (now : string) (key : string) (increment : Z)
    (self : EntropyPool) : outcome unit * EntropyPool :=
  if negb (is_connected self) then (Returned tt, self)
  else
    match updated_stats now key increment (redis_get (db self) stats_key) with
    | Returned stats =>
        (Returned tt,
         {| connected := connected self;
            db := redis_set (db self) stats_key (Doc stats) |})
    | Raised e => (Raised e, self)
    end.

(** [block_id] is [str(uuid.uuid4())]; [clock 0] is the timestamp of the
    envelope, [clock 1] and [clock 2] those of the two statistics
    updates. *)
Definition add_entropy (block_id : string) (clock : nat -> string)
    (entropy_data : bytes) (quality_score : float)
    (source_info : list (string * json)) (self : EntropyPool)
    : outcome string * EntropyPool :=
  if negb (is_connected self) then (Raised ConnectionError, self)
  else
    let key := (pool_key_prefix ++ ":" ++ block_id)%string in
    let block_data :=
      JDict [("id", JStr block_id); ("data", JB64 entropy_data);
             ("quality_score", JFloat quality_score);
             ("size", JInt (len entropy_data));
             ("timestamp", JStr (clock 0%nat));
             ("source_info", JDict source_info)]%string in
    let self :=
      {| connected := connected self;
         db := redis_setex (db self) key entropy_ttl (Doc block_data) |} in
    match _update_stats (clock 1%nat) "blocks_added" 1 self with
    | (Raised e, self) => (Raised e, self)
    | (Returned _, self) =>
        match _update_stats (clock 2%nat) "total_bytes_added"
                (len entropy_data) self with
        | (Raised e, self) => (Raised e, self)
        | (Returned _, self) => (Returned block_id, self)
        end
    end.

(** What the loop of [get_entropy] makes of the value under a block key:
    the payload, a skip ([continue]: nothing there, [JSONDecodeError] or
    [KeyError]), or an exception that the loop does not catch (its
    [except] names [JSONDecodeError] and [KeyError] only). *)
Inductive decoded :=
  | Payload (entropy_bytes : bytes)
  | Skip
  | Uncaught (e : exn).

Definition decode_block (block_json : option redis_val) : decoded :=
  match block_json with
  | None | Some Undecodable => Skip
  | Some NotUnicode => Uncaught ValueError
  | Some (Doc (JDict block_data)) =>
      match dict_get block_data "data" with
      | None => Skip
      | Some (JB64 entropy_bytes) => Payload entropy_bytes
      | Some (JStr _) => Uncaught ValueError
      | Some _ => Uncaught TypeError
      end
  | Some (Doc _) => Uncaught TypeError
  end.

(** The [for key in keys] loop of [get_entropy] over the remaining keys. *)
Fixpoint collect (n_bytes : Z) (keys : list string) (collected : bytes)
    (blocks_used : list string) (d : store)
    : outcome (bytes * list string) * store :=
  match keys with
  | [] => (Returned (collected, blocks_used), d)
  | key :: rest =>
      if n_bytes <=? len collected then (Returned (collected, blocks_used), d)
      else
        let block_id := last_component key in
        let used_key := (used_key_prefix ++ ":" ++ block_id)%string in
        if redis_exists d used_key then
          collect n_bytes rest collected blocks_used d
        else
          match decode_block (redis_get d key) with
          | Skip => collect n_bytes rest collected blocks_used d
          | Uncaught e => (Raised e, d)
          | Payload entropy_bytes =>
              let needed := n_bytes - len collected in
              let collected := collected ++ Hashing.slice_to entropy_bytes needed in
              let ttl := redis_ttl d key in
              let d := if 0 <? ttl then redis_setex d used_key ttl marker else d in
              let d := redis_delete d [key] in
              collect n_bytes rest collected (blocks_used ++ [block_id]) d
          end
  end.

(** [clock 0] and [clock 1] are the timestamps of the two statistics
    updates. *)
Definition get_entropy (clock : nat -> string) (n_bytes : Z) (self : EntropyPool)
    : outcome (option bytes) * EntropyPool :=
  if negb (is_connected self) then (Raised ConnectionError, self)
  else if n_bytes <=? 0 then (Returned (Some []), self)
  else
    let keys := redis_keys (db self) pool_key_prefix in
    match keys with
    | [] => (Returned None, self)
    | _ =>
        match collect n_bytes keys [] [] (db self) with
        | (Raised e, d) => (Raised e, {| connected := connected self; db := d |})
        | (Returned (collected, blocks_used), d) =>
            let self := {| connected := connected self; db := d |} in
            if (len collected <? n_bytes) && (len collected =? 0)
            then (Returned None, self)
            else
              match _update_stats (clock 0%nat) "bytes_served"
                      (len collected) self with
              | (Raised e, self) => (Raised e, self)
              | (Returned _, self) =>
                  match _update_stats (clock 1%nat) "requests_served" 1 self with
                  | (Raised e, self) => (Raised e, self)
                  | (Returned _, self) =>
                      (Returned (Some (Hashing.slice_to collected n_bytes)), self)
                  end
              end
        end
    end.

Definition clear_pool (self : EntropyPool) : EntropyPool :=
  if negb (is_connected self) then self
  else
    let d := db self in
    let keys := redis_keys d pool_key_prefix in
    let d := match keys with [] => d | _ => redis_delete d keys end in
    let keys := redis_keys d used_key_prefix in
    let d := match keys with [] => d | _ => redis_delete d keys end in
    {| connected := connected self; db := d |}.

(** ** [get_entropy] command by command

    Each Redis command is atomic in the server; between two commands of
    one client the server may run commands of another.  A [take_state] is
    a call of [get_entropy] stopped before its next command, with its
    local variables. *)
Inductive take_state :=
  | AtKeys
  | AtExists (key : string) (rest : list string) (collected : bytes)
      (blocks_used : list string)
  | AtGet (key : string) (rest : list string) (collected : bytes)
      (blocks_used : list string)
  | AtTtl (key : string) (rest : list string) (collected : bytes)
      (blocks_used : list string)
  | AtSetex (key : string) (rest : list string) (collected : bytes)
      (blocks_used : list string) (ttl : Z)
  | AtDelete (key : string) (rest : list string) (collected : bytes)
      (blocks_used : list string)
  | AtStatsGet (collected : bytes) (second : bool)
  | AtStatsSet (collected : bytes) (second : bool) (stats : json)
  | Finished (result : outcome (option bytes)).

Section TakeMachine.

Variable clock : nat -> string.
Variable n_bytes : Z.

(** After the loop: the test on [len(collected)], then the first
    statistics update. *)
Definition after_loop (collected : bytes) : take_state :=
  if (len collected <? n_bytes) && (len collected =? 0)
  then Finished (Returned None)
  else AtStatsGet collected false.

(** The head of the loop: stop, or go on to [EXISTS] for the next key. *)
Definition loop_head (keys : list string) (collected : bytes)
    (blocks_used : list string) : take_state :=
  match keys with
  | [] => after_loop collected
  | key :: rest =>
      if n_bytes <=? len collected then after_loop collected
      else AtExists key rest collected blocks_used
  end.

(** The call up to its first command. *)
Definition take_start (self_connected : bool) : take_state :=
  if negb self_connected then Finished (Raised ConnectionError)
  else if n_bytes <=? 0 then Finished (Returned (Some []))
  else AtKeys.

(** One command of the call, and the local code up to the next one. *)
Definition take_step (s : take_state) (d : store) : take_state * store :=
  match s with
  | AtKeys =>
      match redis_keys d pool_key_prefix with
      | [] => (Finished (Returned None), d)
      | keys => (loop_head keys [] [], d)
      end
  | AtExists key rest collected blocks_used =>
      if redis_exists d (used_key_of key)
      then (loop_head rest collected blocks_used, d)
      else (AtGet key rest collected blocks_used, d)
  | AtGet key rest collected blocks_used =>
      match decode_block (redis_get d key) with
      | Skip => (loop_head rest collected blocks_used, d)
      | Uncaught e => (Finished (Raised e), d)
      | Payload entropy_bytes =>
          let needed := n_bytes - len collected in
          (AtTtl key rest (collected ++ Hashing.slice_to entropy_bytes needed)
             blocks_used, d)
      end
  | AtTtl key rest collected blocks_used =>
      let ttl := redis_ttl d key in
      if 0 <? ttl then (AtSetex key rest collected blocks_used ttl, d)
      else (AtDelete key rest collected blocks_used, d)
  | AtSetex key rest collected blocks_used ttl =>
      (AtDelete key rest collected blocks_used,
       redis_setex d (used_key_of key) ttl marker)
  | AtDelete key rest collected blocks_used =>
      (loop_head rest collected (blocks_used ++ [last_component key]),
       redis_delete d [key])
  | AtStatsGet collected second =>
      let stats_data := redis_get d stats_key in
      let updated :=
        if second
        then updated_stats (clock 1%nat) "requests_served" 1 stats_data
        else updated_stats (clock 0%nat) "bytes_served" (len collected)
               stats_data in
      match updated with
      | Raised e => (Finished (Raised e), d)
      | Returned stats => (AtStatsSet collected second stats, d)
      end
  | AtStatsSet collected second stats =>
      (if second
       then Finished (Returned (Some (Hashing.slice_to collected n_bytes)))
       else AtStatsGet collected true,
       redis_set d stats_key (Doc stats))
  | Finished result => (Finished result, d)
  end.

(** A call running alone for [fuel] commands. *)
Fixpoint take_run (fuel : nat) (s : take_state) (d : store)
    : take_state * store :=
  match fuel with
  | O => (s, d)
  | S fuel' => let '(s', d') := take_step s d in take_run fuel' s' d'
  end.

(** Two calls on one store.  A schedule lists which call issues the next
    command: [false] the first, [true] the second. *)
Definition two_takes : Type := take_state * take_state * store.

Definition scheduled_step (second : bool) (sys : two_takes) : two_takes :=
  let '(a, b, d) := sys in
  if second then let '(b', d') := take_step b d in (a, b', d')
  else let '(a', d') := take_step a d in (a', b, d').

Definition run_schedule (schedule : list bool) (sys : two_takes) : two_takes :=
  fold_left (fun sys second => scheduled_step second sys) schedule sys.

End TakeMachine.

End EntropyPool.

(** ** What a pool offers to [get_entropy] *)

(** The payload the loop reads under a block key (empty when it reads
    none). *)
Definition payload_at (d : store) (key : string) : bytes :=
  match decode_block (redis_get d key) with
  | Payload entropy_bytes => entropy_bytes
  | _ => []
  end.

(** A block key that the loop claims: no used marker, and an envelope
    with a base64 payload. *)
Definition claimable (d : store) (key : string) : Prop :=
  redis_exists d (used_key_of key) = false
  /\ exists entropy_bytes, decode_block (redis_get d key) = Payload entropy_bytes.

(** [claimable] as a test. *)
Definition is_claimable (d : store) (key : string) : bool :=
  negb (redis_exists d (used_key_of key))
  && match decode_block (redis_get d key) with
     | Payload _ => true
     | _ => false
     end.



(** A pool as [add_entropy] and [get_entropy] leave it: every block key is
    claimable and no two block keys share a block id. *)
Definition sound_pool (d : store) (keys : list string) : Prop :=
  Forall (claimable d) keys /\ NoDup (map last_component keys).

(** The statistics document accepts the two updates of [get_entropy]:
    it is absent, undecodable in either way (then replaced: the [except]
    of [_update_stats] is bare), or a dict whose two counters are absent or
    numbers. *)
Definition numeric (v : option json) : Prop :=
  match v with
  | None | Some (JInt _) | Some (JFloat _) => True
  | Some _ => False
  end.

Definition stats_ok (d : store) : Prop :=
  match redis_get d stats_key with
  | None | Some Undecodable | Some NotUnicode => True
  | Some (Doc (JDict fields)) =>
      numeric (dict_get fields "bytes_served")
      /\ numeric (dict_get fields "requests_served")
  | Some (Doc _) => False
  end.

(** ** The statistics document and the block ids *)

(** The dict that [_update_stats] and [get_stats] work on: empty when
    the statistics key is absent or does not decode (both catch every
    exception of [json.loads]); [None] when the document is not a dict. *)
Definition stats_fields (d : store) : option (list (string * json)) :=
  match redis_get d stats_key with
  | None | Some Undecodable | Some NotUnicode => Some []
  | Some (Doc (JDict fields)) => Some fields
  | Some (Doc _) => None
  end.

(** [stats.get(name, 0)] *)
Definition counter_value (fields : list (string * json)) (name : string)
    : json :=
  match dict_get fields name with
  | Some v => v
  | None => JInt 0
  end.

(** No [':'] in a string, as in every [str(uuid.uuid4())]. *)
Fixpoint colon_free (s : string) : bool :=
  match s with
  | EmptyString => true
  | String c rest => negb (Ascii.eqb c ":"%char) && colon_free rest
  end.

(** ** [get_stats] and [health_check] *)

(** A Python number, as [total_bytes] and [sum(quality_scores)] hold
    one. *)
Inductive number :=
  | NInt (z : Z)
  | NFloat (f : float).

(** [float(z)] for an integer; [None] stands for the [OverflowError] of
    an integer beyond the range of binary64. *)
Definition py_float (z : Z) : option float :=
  let f := float_of_Z z in
  if is_infinity f then None else Some f.

(** [int(x)] for a float: truncation towards zero; [None] stands for the
    [OverflowError] on an infinity and the [ValueError] on NaN. *)
Definition py_int (x : float) : option Z :=
  match Prim2SF x with
  | S754_zero _ => Some 0
  | S754_finite s m e =>
      let magnitude := Z.shiftl (Z.pos m) e in
      Some (if s then - magnitude else magnitude)
  | S754_infinity _ | S754_nan => None
  end.

(** [x + v] for a number [x] and a decoded JSON value [v]; [None] stands
    for the [TypeError] of a value that is not a number and for the
    [OverflowError] of an integer too large to join a float.  The JSON
    constants true, false and null are outside [json]: a block whose size
    is one of them is not covered. *)
Definition number_add (x : number) (v : json) : option number :=
  match x, v with
  | NInt a, JInt b => Some (NInt (a + b))
  | NInt a, JFloat g =>
      match py_float a with
      | Some f => Some (NFloat (f + g))
      | None => None
      end
  | NFloat f, JInt b =>
      match py_float b with
      | Some g => Some (NFloat (f + g))
      | None => None
      end
  | NFloat f, JFloat g => Some (NFloat (f + g))
  | _, _ => None
  end.

(** One turn of the loop of [get_stats] over the sampled keys: every
    exception raised inside its [try] is swallowed, with [total_bytes]
    and [quality_scores] as they stand when it is raised. *)
Definition stats_step (d : store) (acc : number * list json) (key : string)
    : number * list json :=
  let '(total_bytes, quality_scores) := acc in
  match redis_get d key with
  | Some (Doc (JDict block_data)) =>
      match dict_get block_data "size" with
      | Some size =>
          match number_add total_bytes size with
          | Some total_bytes' =>
              match dict_get block_data "quality_score" with
              | Some quality => (total_bytes', quality_scores ++ [quality])
              | None => (total_bytes', quality_scores)
              end
          | None => (total_bytes, quality_scores)
          end
      | None => (total_bytes, quality_scores)
      end
  | _ => (total_bytes, quality_scores)
  end.

(** [int(total_bytes * (num_blocks / 100))] *)
Definition extrapolate (total_bytes : number) (num_blocks : Z) : option number :=
  let ratio := int_truediv num_blocks 100 in
  let product :=
    match total_bytes with
    | NInt a =>
        match py_float a with
        | Some f => Some (f * ratio)%float
        | None => None
        end
    | NFloat f => Some (f * ratio)%float
    end in
  match product with
  | Some p =>
      match py_int p with
      | Some z => Some (NInt z)
      | None => None
      end
  | None => None
  end.

(** A decoded JSON value as a number. *)
Definition as_number (v : json) : option number :=
  match v with
  | JInt z => Some (NInt z)
  | JFloat f => Some (NFloat f)
  | _ => None
  end.

Fixpoint as_numbers (values : list json) : option (list number) :=
  match values with
  | [] => Some []
  | v :: rest =>
      match as_number v, as_numbers rest with
      | Some x, Some xs => Some (x :: xs)
      | _, _ => None
      end
  end.

Definition is_int (x : number) : bool :=
  match x with NInt _ => true | NFloat _ => false end.

Definition int_value (x : number) : Z :=
  match x with NInt z => z | NFloat _ => 0 end.

(** The fields of the dict that a connected [get_stats] returns;
    [redis_host] and [redis_port] echo the configuration. *)
Record pool_stats := {
  available_blocks : Z;
  available_bytes : number;
  average_quality : float;
  blocks_added : json;
  total_bytes_added : json;
  bytes_served : json;
  requests_served : json;
  redis_host : string;
  redis_port : Z
}.

(** [Disconnected] is the dict with status 'disconnected' and the error
    'Redis not connected'; [Connected] the one with status 'connected'. *)
Inductive stats_reply :=
  | Disconnected
  | Connected (stats : pool_stats).

(** The fields of the dict that [health_check] returns; the two counts are
    present on the connected branch, the error on the other. *)
Record health := {
  redis_connected : bool;
  timestamp : string;
  health_available_blocks : option Z;
  health_available_bytes : option number;
  healthy : bool;
  health_error : option string
}.

Section PoolStatistics.

Variable scan : store -> list string.

(** The builtin [round(x, ndigits)], [settings.redis_host] and
    [settings.redis_port]. *)
Variable round : float -> Z -> float.
Variable settings_redis_host : string.
Variable settings_redis_port : Z.

(** The builtin [sum] on a list of numbers of which one at least is a
    float.  Its rounding is that of the running interpreter (plain
    left-to-right addition, or compensated summation in recent versions
    of CPython); [None] stands for the [OverflowError] of an integer
    among them that is too large for a float. *)
Variable float_sum : list number -> option float.

(** [sum(quality_scores) / len(quality_scores) if quality_scores else
    0.0]; [None] stands for an exception of the sum.  When every score is
    an integer the sum is exact and the quotient that of [int_truediv]. *)
Definition average (quality_scores : list json) : option float :=
  match quality_scores with
  | [] => Some 0%float
  | _ =>
      match as_numbers quality_scores with
      | None => None
      | Some numbers =>
          if forallb is_int numbers then
            Some (int_truediv (fold_left Z.add (map int_value numbers) 0)
                    (len quality_scores))
          else
            match float_sum numbers with
            | Some total => Some (total / float_of_Z (len quality_scores))%float
            | None => None
            end
      end
  end.

(** [None] stands for an exception that leaves [get_stats]: one of the
    extrapolation, of the sum of the quality scores, or the
    [AttributeError] of a statistics document that is not a dict. *)
Definition get_stats (self : EntropyPool) : option stats_reply :=
  if negb (is_connected self) then Some Disconnected
  else
    let available_keys := redis_keys scan (db self) pool_key_prefix in
    let num_blocks := len available_keys in
    let '(total_bytes, quality_scores) :=
      fold_left (stats_step (db self)) (Hashing.slice_to available_keys 100)
        (NInt 0, []) in
    let extrapolated :=
      if 100 <? len available_keys then extrapolate total_bytes num_blocks
      else Some total_bytes in
    match extrapolated, stats_fields (db self), average quality_scores with
    | Some total_bytes, Some accumulated_stats, Some avg_quality =>
        Some (Connected
                {| available_blocks := num_blocks;
                   available_bytes := total_bytes;
                   average_quality := round avg_quality 3;
                   blocks_added := counter_value accumulated_stats "blocks_added";
                   total_bytes_added :=
                     counter_value accumulated_stats "total_bytes_added";
                   bytes_served := counter_value accumulated_stats "bytes_served";
                   requests_served :=
                     counter_value accumulated_stats "requests_served";
                   redis_host := settings_redis_host;
                   redis_port := settings_redis_port |})
    | _, _, _ => None
    end.

(** [now] is [datetime.now(timezone.utc).isoformat()].  [None] stands for
    an exception of [get_stats], or the [KeyError] on a reply without
    'available_blocks'. *)
Definition health_check (now : string) (self : EntropyPool) : option health :=
  if is_connected self then
    match get_stats self with
    | Some (Connected stats) =>
        Some {| redis_connected := true;
                timestamp := now;
                health_available_blocks := Some (available_blocks stats);
                health_available_bytes := Some (available_bytes stats);
                healthy := 0 <? available_blocks stats;
                health_error := None |}
    | Some Disconnected | None => None
    end
  else
    Some {| redis_connected := false;
            timestamp := now;
            health_available_blocks := None;
            health_available_bytes := None;
            healthy := false;
            health_error := Some "Redis not connected"%string |}.

End PoolStatistics.

(** A block as [add_entropy] writes it: the envelope of six fields, its
    size field the length of its payload and its quality score a float. *)
Definition stored_block (d : store) (key : string) : Prop :=
  exists (block_id : string) (entropy_data : bytes) (quality : float)
         (written : string) (source_info : list (string * json)) (seconds : Z),
    d !! key
    = Some {| value :=
                Doc (JDict [("id", JStr block_id); ("data", JB64 entropy_data);
                            ("quality_score", JFloat quality);
                            ("size", JInt (len entropy_data));
                            ("timestamp", JStr written);
                            ("source_info", JDict source_info)]%string);
              ttl := seconds |}.

(** ** Properties of the pool *)

Example last_component_of_block_key :
  last_component "entropy:block:0b5e-41c7" = "0b5e-41c7"%string.
Proof. reflexivity. Qed.

Lemma lookup_redis_delete (keys : list string) (d : store) (key : string) :
  redis_delete d keys !! key = if decide (key ∈ keys) then None else d !! key.
Proof.
  unfold redis_delete. revert d.
  induction keys as [|k keys IH]; intros d; cbn [fold_left].
  - destruct (decide (key ∈ [])) as [Hin|_]; [by apply elem_of_nil in Hin | done].
  - rewrite IH.
    destruct (decide (key ∈ keys)) as [Hin|Hin],
             (decide (key ∈ k :: keys)) as [Hin'|Hin']; try done.
    + exfalso. apply Hin'. now right.
    + apply elem_of_cons in Hin' as [->|Hin']; [| done].
      apply lookup_delete_eq.
    + apply lookup_delete_ne. intros ->. apply Hin'. now left.
Qed.

Lemma append_inj (p a b : string) : (p ++ a = p ++ b)%string -> a = b.
Proof. induction p as [|c p IH]; cbn; [done | intros [=]; auto]. Qed.

Lemma dict_get_set_ne (fields : list (string * json)) (k k' : string) (v : json) :
  k <> k' -> dict_get (dict_set fields k v) k' = dict_get fields k'.
Proof.
  intros Hne. induction fields as [|[k0 v0] fields IH]; cbn [dict_set dict_get].
  - destruct (String.eqb_spec k k'); [done | reflexivity].
  - destruct (String.eqb_spec k0 k) as [->|Hk0]; cbn [dict_get].
    + destruct (String.eqb_spec k k'); [done | reflexivity].
    + destruct (String.eqb_spec k0 k'); [reflexivity | exact IH].
Qed.

(** One statistics update on a connected pool whose document accepts it. *)
Lemma update_stats_ok (now key : string) (increment : Z) (self : EntropyPool) :
  connected self = true ->
  match redis_get (db self) stats_key with
  | None | Some Undecodable | Some NotUnicode => True
  | Some (Doc (JDict fields)) => numeric (dict_get fields key)
  | Some (Doc _) => False
  end ->
  exists fields v,
    _update_stats now key increment self
    = (Returned tt,
       {| connected := true;
          db := redis_set (db self) stats_key
                  (Doc (JDict (dict_set (dict_set fields key v)
                                 "last_updated" (JStr now)))) |})
    /\ match redis_get (db self) stats_key with
       | Some (Doc (JDict fields0)) => fields = fields0
       | _ => fields = []
       end.
Proof.
  intros Hconn Hok. unfold _update_stats, updated_stats, is_connected.
  rewrite Hconn. cbn [negb].
  destruct (redis_get (db self) stats_key) as [[j| |]|].
  - destruct j as [| | | | |fields]; try contradiction.
    destruct (dict_get fields key) as [[z|f| | | |]|]; try contradiction;
      eexists fields, _; (split; [reflexivity | reflexivity]).
  - eexists [], _. cbn [dict_get]. split; reflexivity.
  - eexists [], _. cbn [dict_get]. split; reflexivity.
  - eexists [], _. cbn [dict_get]. split; reflexivity.
Qed.

Section PoolProperties.

Variable scan : store -> list string.
Hypothesis scan_keys : forall (d : store) (key : string),
  key ∈ scan d <-> is_Some (d !! key).
Hypothesis scan_NoDup : forall d : store, NoDup (scan d).

Lemma elem_of_redis_keys (d : store) (key_prefix key : string) :
  key ∈ redis_keys scan d key_prefix
  <-> is_Some (d !! key) /\ String.prefix (key_prefix ++ ":") key = true.
Proof.
  unfold redis_keys. rewrite list_elem_of_In, filter_In, <- list_elem_of_In.
  now rewrite scan_keys.
Qed.

Lemma NoDup_redis_keys (d : store) (key_prefix : string) :
  NoDup (redis_keys scan d key_prefix).
Proof.
  unfold redis_keys. apply NoDup_ListNoDup, List.NoDup_filter, NoDup_ListNoDup.
  apply scan_NoDup.
Qed.

(** Deleting every key of a pattern leaves none of them and no other key
    touched. *)
Lemma lookup_delete_pattern (d : store) (key_prefix key : string) :
  redis_delete d (redis_keys scan d key_prefix) !! key
  = if String.prefix (key_prefix ++ ":") key then None else d !! key.
Proof.
  rewrite lookup_redis_delete.
  destruct (String.prefix (key_prefix ++ ":") key) eqn:Hp; case_decide as Hin.
  - done.
  - destruct (d !! key) as [e|] eqn:Hd; [| done].
    exfalso. apply Hin, elem_of_redis_keys. by rewrite Hd.
  - apply elem_of_redis_keys in Hin as [_ Hin]. congruence.
  - done.
Qed.

Lemma used_key_of_not_block (key : string) :
  String.prefix "entropy:block:" (used_key_of key) = false.
Proof. reflexivity. Qed.

Lemma used_key_of_is_used (key : string) :
  String.prefix "entropy:used:" (used_key_of key) = true.
Proof. unfold used_key_of. now destruct (last_component key). Qed.

Lemma stats_key_not_block : String.prefix "entropy:block:" stats_key = false.
Proof. reflexivity. Qed.

Lemma stats_key_not_used : String.prefix "entropy:used:" stats_key = false.
Proof. reflexivity. Qed.

Lemma used_key_of_inj (k1 k2 : string) :
  used_key_of k1 = used_key_of k2 -> last_component k1 = last_component k2.
Proof. intros E. exact (append_inj "entropy:used:" _ _ E). Qed.

(** The store after the loop has claimed [key]. *)
Definition claim_effect (d : store) (key : string) : store :=
  redis_delete
    (if 0 <? redis_ttl d key
     then redis_setex d (used_key_of key) (redis_ttl d key) marker
     else d)
    [key].

Lemma lookup_claim_effect (d : store) (key x : string) :
  x <> key -> x <> used_key_of key -> claim_effect d key !! x = d !! x.
Proof.
  intros Hk Hu. unfold claim_effect, redis_delete, redis_setex.
  cbn [fold_left]. rewrite lookup_delete_ne by done.
  destruct (0 <? redis_ttl d key); [now rewrite lookup_insert_ne | done].
Qed.

Lemma claim_effect_other_block (d : store) (key k : string) :
  String.prefix "entropy:block:" key = true ->
  String.prefix "entropy:block:" k = true ->
  k <> key -> last_component k <> last_component key ->
  redis_get (claim_effect d key) k = redis_get d k
  /\ redis_exists (claim_effect d key) (used_key_of k)
     = redis_exists d (used_key_of k).
Proof.
  intros Hkey Hk Hne Hid. unfold redis_get, redis_exists.
  rewrite !lookup_claim_effect; [done | | | done |].
  - intros E. rewrite <- E, used_key_of_not_block in Hkey. discriminate.
  - intros E. now apply Hid, used_key_of_inj.
  - intros E. rewrite E, used_key_of_not_block in Hk. discriminate.
Qed.

Lemma collect_claims (n_bytes : Z) (keys : list string) :
  Forall (fun key => String.prefix "entropy:block:" key = true) keys ->
  NoDup keys ->
  forall (collected : bytes) (blocks_used : list string) (d : store),
  sound_pool d keys ->
  exists blocks_used' d',
    collect n_bytes keys collected blocks_used d
    = (Returned (collected
                 ++ firstn (Z.to_nat (n_bytes - len collected))
                      (concat (map (payload_at d) keys)),
                 blocks_used'), d')
    /\ d' !! stats_key = d !! stats_key.
Proof.
  induction keys as [|key rest IH];
    intros Hpre Hnd collected blocks_used d [Hclaim Hids].
  - exists blocks_used, d. cbn. now rewrite firstn_nil, app_nil_r.
  - cbn [collect].
    destruct (Z.leb_spec n_bytes (len collected)) as [Hfull|Hneed].
    + exists blocks_used, d.
      replace (Z.to_nat (n_bytes - len collected)) with 0%nat by lia.
      cbn [firstn]. now rewrite app_nil_r.
    + apply Forall_cons in Hpre as [Hkey Hpre].
      apply NoDup_cons in Hnd as [Hnotin Hnd].
      apply Forall_cons in Hclaim as [[Hunused [p Hp]] Hclaim].
      cbn [map] in Hids. apply NoDup_cons in Hids as [Hidnotin Hids].
      change (used_key_prefix ++ ":" ++ last_component key)%string
        with (used_key_of key).
      rewrite Hunused, Hp.
      change (redis_delete _ [key]) with (claim_effect d key).
      assert (Hrest : forall k, k ∈ rest ->
                redis_get (claim_effect d key) k = redis_get d k
                /\ redis_exists (claim_effect d key) (used_key_of k)
                   = redis_exists d (used_key_of k)).
      { intros k Hin. apply claim_effect_other_block; try done.
        - rewrite Forall_forall in Hpre. now apply Hpre.
        - intros ->. contradiction.
        - intros E. apply Hidnotin. rewrite <- E.
          now apply list_elem_of_fmap_2. }
      destruct (IH Hpre Hnd
                  (collected ++ Hashing.slice_to p (n_bytes - len collected))
                  (blocks_used ++ [last_component key]) (claim_effect d key))
        as (used' & d' & Hrun & Hstats).
      { split; [| exact Hids]. rewrite Forall_forall in Hclaim |- *.
        intros k Hin. destruct (Hrest k Hin) as [Hg He].
        destruct (Hclaim k Hin) as [Hu [q Hq]].
        split; [now rewrite He | exists q; now rewrite Hg]. }
      exists used', d'. split.
      * rewrite Hrun. f_equal. f_equal.
        assert (Hmap : map (payload_at (claim_effect d key)) rest
                       = map (payload_at d) rest).
        { apply map_ext_in. intros k Hin. apply list_elem_of_In in Hin.
          unfold payload_at. now rewrite (proj1 (Hrest k Hin)). }
        rewrite Hmap. cbn [map concat]. unfold payload_at at 2. rewrite Hp.
        unfold Hashing.slice_to.
        destruct (Z.leb_spec 0 (n_bytes - len collected)); [| lia].
        rewrite firstn_app, <- app_assoc. do 4 f_equal.
        unfold len. rewrite length_app, length_firstn. lia.
      * rewrite Hstats. apply lookup_claim_effect.
        -- intros E. rewrite <- E, stats_key_not_block in Hkey.
           discriminate Hkey.
        -- intros E. apply (f_equal (String.prefix "entropy:used:")) in E.
           rewrite stats_key_not_used, used_key_of_is_used in E.
           discriminate E.
Qed.

Lemma redis_keys_block_prefix (d : store) :
  Forall (fun key => String.prefix "entropy:block:" key = true)
    (redis_keys scan d pool_key_prefix).
Proof.
  apply Forall_forall. intros key Hin.
  now apply elem_of_redis_keys in Hin as [_ Hin].
Qed.

Lemma stats_ok_numeric (d : store) (key : string) :
  stats_ok d -> key = "bytes_served"%string \/ key = "requests_served"%string ->
  match redis_get d stats_key with
  | None | Some Undecodable | Some NotUnicode => True
  | Some (Doc (JDict fields)) => numeric (dict_get fields key)
  | Some (Doc _) => False
  end.
Proof.
  unfold stats_ok. intros Hok Hkey.
  destruct (redis_get d stats_key) as [[[| | | | |fields]| |]|]; try done.
  destruct Hok, Hkey; now subst.
Qed.

(** The two statistics updates at the end of [get_entropy] go through on
    a document that accepts them. *)
Lemma serve_updates_ok (now0 now1 : string) (served : Z) (d : store) :
  stats_ok d ->
  exists self1 self2,
    _update_stats now0 "bytes_served" served {| connected := true; db := d |}
    = (Returned tt, self1)
    /\ _update_stats now1 "requests_served" 1 self1 = (Returned tt, self2).
Proof.
  intros Hok.
  destruct (update_stats_ok now0 "bytes_served" served
              {| connected := true; db := d |} eq_refl)
    as (fields & v & Hrun & Hfields).
  { apply stats_ok_numeric; [exact Hok | now left]. }
  match type of Hrun with _ = (_, ?s) => set (self1 := s) in * end.
  destruct (update_stats_ok now1 "requests_served" 1 self1 eq_refl)
    as (fields' & v' & Hrun' & _).
  - unfold self1. cbn [db]. unfold redis_get, redis_set.
    rewrite lookup_insert_eq. cbn [value].
    rewrite !dict_get_set_ne by discriminate.
    pose proof (stats_ok_numeric d "requests_served" Hok (or_intror eq_refl))
      as Hnum. cbn [db] in Hfields. unfold redis_get in Hfields, Hnum.
    destruct (d !! stats_key) as [[[[| | | | |fields0]| |] t]|]; cbn [value] in *;
      subst fields; try done.
  - eexists self1, _. split; [exact Hrun | exact Hrun'].
Qed.


Lemma is_claimable_spec (d : store) (key : string) :
  is_claimable d key = true <-> claimable d key.
Proof.
  unfold is_claimable, claimable. rewrite andb_true_iff, negb_true_iff.
  split; intros [Hu Hp]; (split; [exact Hu |]).
  - destruct (decode_block (redis_get d key)) as [p| |e]; try discriminate.
    now exists p.
  - destruct Hp as [p ->]. reflexivity.
Qed.



(** C9. On a connected pool [clear_pool] leaves no key matching
    entropy:block:* or entropy:used:*, leaves the entropy:stats key as it
    was, and touches no other key. *)
Theorem clear_pool_preserves_stats (self : EntropyPool) :
  connected self = true ->
  let cleared := clear_pool scan self in
  (forall key : string,
      String.prefix "entropy:block:" key = true
      \/ String.prefix "entropy:used:" key = true ->
      db cleared !! key = None)
  /\ db cleared !! stats_key = db self !! stats_key
  /\ (forall key : string,
        String.prefix "entropy:block:" key = false ->
        String.prefix "entropy:used:" key = false ->
        db cleared !! key = db self !! key).
Proof.
  intros Hconn cleared.
  assert (Hdb : forall key,
            db cleared !! key
            = if String.prefix "entropy:used:" key then None
              else if String.prefix "entropy:block:" key then None
              else db self !! key).
  { intros key. unfold cleared, clear_pool, is_connected. rewrite Hconn.
    cbn [negb db].
    set (d1 := match redis_keys scan (db self) pool_key_prefix with
               | [] => db self
               | _ => redis_delete (db self)
                        (redis_keys scan (db self) pool_key_prefix)
               end).
    assert (E1 : d1 = redis_delete (db self)
                        (redis_keys scan (db self) pool_key_prefix)).
    { unfold d1. now destruct (redis_keys scan (db self) pool_key_prefix). }
    assert (E2 : match redis_keys scan d1 used_key_prefix with
                 | [] => d1
                 | _ => redis_delete d1 (redis_keys scan d1 used_key_prefix)
                 end
                 = redis_delete d1 (redis_keys scan d1 used_key_prefix)).
    { now destruct (redis_keys scan d1 used_key_prefix). }
    rewrite E2, lookup_delete_pattern, E1, lookup_delete_pattern. reflexivity. }
  split; [| split].
  - intros key [Hb|Hu]; rewrite Hdb.
    + rewrite Hb. now destruct (String.prefix "entropy:used:" key).
    + now rewrite Hu.
  - now rewrite Hdb.
  - intros key Hb Hu. now rewrite Hdb, Hb, Hu.
Qed.

Section TakeMachineProperties.

Variable clock : nat -> string.
Variable n_bytes : Z.

Lemma take_run_add (a b : nat) (s : take_state) (d : store) :
  take_run scan clock n_bytes (a + b) s d
  = take_run scan clock n_bytes b
      (fst (take_run scan clock n_bytes a s d))
      (snd (take_run scan clock n_bytes a s d)).
Proof.
  revert s d. induction a as [|a IH]; intros s d; [reflexivity |].
  cbn [Nat.add take_run]. destruct (take_step scan clock n_bytes s d).
  apply IH.
Qed.

Lemma take_run_step (fuel : nat) (s s' : take_state) (d d' : store) :
  take_step scan clock n_bytes s d = (s', d') ->
  take_run scan clock n_bytes (S fuel) s d
  = take_run scan clock n_bytes fuel s' d'.
Proof. intros E. cbn [take_run]. now rewrite E. Qed.

(** Where the loop of [get_entropy] leaves the machine. *)
Definition after_collect (r : outcome (bytes * list string) * store)
    : take_state * store :=
  match r with
  | (Raised e, d) => (Finished (Raised e), d)
  | (Returned (collected, _), d) => (after_loop n_bytes collected, d)
  end.

Lemma take_run_loop (keys : list string) :
  forall (collected : bytes) (blocks_used : list string) (d : store),
  exists fuel,
    take_run scan clock n_bytes fuel (loop_head n_bytes keys collected blocks_used) d
    = after_collect (collect n_bytes keys collected blocks_used d).
Proof.
  induction keys as [|key rest IH]; intros collected blocks_used d.
  - now exists 0%nat.
  - cbn [loop_head collect].
    destruct (n_bytes <=? len collected); [now exists 0%nat |].
    change (used_key_prefix ++ ":" ++ last_component key)%string
      with (used_key_of key).
    destruct (redis_exists d (used_key_of key)) eqn:Hex.
    { destruct (IH collected blocks_used d) as [fuel Hrun].
      exists (S fuel). erewrite take_run_step; [exact Hrun |].
      cbn [take_step]. now rewrite Hex. }
    destruct (decode_block (redis_get d key)) as [p| |e] eqn:Hdec.
    + set (collected' :=
             collected ++ Hashing.slice_to p (n_bytes - len collected)).
      destruct (0 <? redis_ttl d key) eqn:Httl.
      * destruct (IH collected' (blocks_used ++ [last_component key])
                    (redis_delete
                       (redis_setex d (used_key_of key) (redis_ttl d key) marker)
                       [key])) as [fuel Hrun].
        exists (S (S (S (S (S fuel))))).
        erewrite take_run_step; [| cbn [take_step]; now rewrite Hex].
        erewrite take_run_step; [| cbn [take_step]; now rewrite Hdec].
        erewrite take_run_step; [| cbn [take_step]; now rewrite Httl].
        erewrite take_run_step; [| reflexivity].
        erewrite take_run_step; [| reflexivity].
        exact Hrun.
      * destruct (IH collected' (blocks_used ++ [last_component key])
                    (redis_delete d [key])) as [fuel Hrun].
        exists (S (S (S (S fuel)))).
        erewrite take_run_step; [| cbn [take_step]; now rewrite Hex].
        erewrite take_run_step; [| cbn [take_step]; now rewrite Hdec].
        erewrite take_run_step; [| cbn [take_step]; now rewrite Httl].
        erewrite take_run_step; [| reflexivity].
        exact Hrun.
    + destruct (IH collected blocks_used d) as [fuel Hrun].
      exists (S (S fuel)).
      erewrite take_run_step; [| cbn [take_step]; now rewrite Hex].
      erewrite take_run_step; [| cbn [take_step]; now rewrite Hdec].
      exact Hrun.
    + exists 2%nat.
      erewrite take_run_step; [| cbn [take_step]; now rewrite Hex].
      erewrite take_run_step; [| cbn [take_step]; now rewrite Hdec].
      reflexivity.
Qed.

(** Running alone, the machine finishes with the result and the store of
    [get_entropy]. *)
Lemma take_run_get_entropy (self : EntropyPool) :
  exists fuel,
    take_run scan clock n_bytes fuel (take_start n_bytes (connected self))
      (db self)
    = (Finished (fst (get_entropy scan clock n_bytes self)),
       db (snd (get_entropy scan clock n_bytes self))).
Proof.
  destruct self as [c d]. unfold take_start, get_entropy, is_connected.
  cbn [connected db]. destruct c; cbn [negb]; [| now exists 0%nat].
  destruct (n_bytes <=? 0); [now exists 0%nat |].
  destruct (redis_keys scan d pool_key_prefix) as [|k rest] eqn:Ek.
  { exists 1%nat. cbn [take_run take_step]. now rewrite Ek. }
  destruct (take_run_loop (k :: rest) [] [] d) as [fuel Hloop].
  assert (Hstart : forall fuel',
            take_run scan clock n_bytes (S fuel') AtKeys d
            = take_run scan clock n_bytes fuel'
                (loop_head n_bytes (k :: rest) [] []) d).
  { intros fuel'. apply take_run_step. cbn [take_step]. now rewrite Ek. }
  destruct (collect n_bytes (k :: rest) [] [] d)
    as [[e|[collected used]] d'] eqn:Hcol; cbn [after_collect] in Hloop.
  { exists (S fuel). now rewrite Hstart, Hloop. }
  unfold after_loop in Hloop.
  destruct ((len collected <? n_bytes) && (len collected =? 0)).
  { exists (S fuel). now rewrite Hstart, Hloop. }
  unfold _update_stats, is_connected. cbn [connected db negb].
  destruct (updated_stats (clock 0%nat) "bytes_served" (len collected)
              (redis_get d' stats_key)) as [e|stats] eqn:Hu0.
  { exists (S (fuel + 1)). rewrite Hstart, take_run_add, Hloop.
    cbn [fst snd take_run take_step]. now rewrite Hu0. }
  cbn [connected db negb].
  destruct (updated_stats (clock 1%nat) "requests_served" 1
              (redis_get (redis_set d' stats_key (Doc stats)) stats_key))
    as [e|stats'] eqn:Hu1.
  { exists (S (fuel + 3)). rewrite Hstart, take_run_add, Hloop.
    cbn [fst snd take_run take_step]. rewrite Hu0. cbn [take_run take_step].
    now rewrite Hu1. }
  exists (S (fuel + 4)). rewrite Hstart, take_run_add, Hloop.
  cbn [fst snd take_run take_step]. rewrite Hu0. cbn [take_run take_step].
  now rewrite Hu1.
Qed.

End TakeMachineProperties.

End PoolProperties.

(** ** The pool on a concrete store *)

Lemma map_order_scan_keys (d : store) (key : string) :
  key ∈ map_order_scan d <-> is_Some (d !! key).
Proof.
  unfold map_order_scan. rewrite list_elem_of_fmap. split.
  - intros ([k e] & -> & Hin). apply elem_of_map_to_list in Hin. by eexists.
  - intros [e He]. exists (key, e). split; [done |].
    by apply elem_of_map_to_list.
Qed.

Lemma map_order_scan_NoDup (d : store) : NoDup (map_order_scan d).
Proof. apply NoDup_fst_map_to_list. Qed.

Definition noon (i : nat) : string := "2024-01-01T12:00:00+00:00".

(** A connected pool holding one block of four bytes, as [add_entropy]
    writes it. *)
Definition one_block_pool : EntropyPool :=
  snd (add_entropy 3600 "b1" noon ["001"; "002"; "003"; "004"]%byte 0.9 []
         {| connected := true; db := ∅ |}).







Lemma clear_pool_preserves_stats_witness :
  db (clear_pool map_order_scan one_block_pool) !! "entropy:block:b1"%string
  = None
  /\ db (clear_pool map_order_scan one_block_pool) !! stats_key
     = db one_block_pool !! stats_key.
Proof.
  destruct (clear_pool_preserves_stats map_order_scan map_order_scan_keys
              one_block_pool eq_refl) as (Hgone & Hstats & _).
  split; [apply Hgone; now left | exact Hstats].
Defined.

(** Two calls [get_entropy(4)] on the one-block pool, both connected. *)
Definition contested : two_takes :=
  (take_start 4 true, take_start 4 true, db one_block_pool).

(** Both calls issue [KEYS], [EXISTS] and [GET] before either goes on;
    then the first call runs to its end, then the second. *)
Definition interleaved : list bool :=
  [false; true; false; true; false; true] ++ repeat false 7 ++ repeat true 7.

(** The first call runs to its end before the second starts. *)
Definition serial : list bool := repeat false 10 ++ repeat true 10.

(** C2. With the commands of two calls interleaved, both calls return the
    four payload bytes of the same block: the claim of a block (EXISTS,
    GET, SETEX, DELETE) is four commands, not one atomic step. *)
Theorem concurrent_takes_share_block :
  (run_schedule map_order_scan noon 4 interleaved contested).1
  = (Finished (Returned (Some ["001"; "002"; "003"; "004"]%byte)),
     Finished (Returned (Some ["001"; "002"; "003"; "004"]%byte))).
Proof. vm_compute. reflexivity. Qed.

(** One call after the other: the second finds the pool empty. *)
Lemma serial_takes_do_not_share :
  (run_schedule map_order_scan noon 4 serial contested).1
  = (Finished (Returned (Some ["001"; "002"; "003"; "004"]%byte)),
     Finished (Returned None)).
Proof. vm_compute. reflexivity. Qed.

(** ** Keys, storing a block and the counters *)

Lemma string_app_nil_r (s : string) : (s ++ "")%string = s.
Proof.
  induction s as [|c s IH]; [reflexivity |].
  change (String c s ++ "")%string with (String c (s ++ "")).
  now rewrite IH.
Qed.

Lemma string_app_assoc (a b c : string) :
  ((a ++ b) ++ c)%string = (a ++ b ++ c)%string.
Proof.
  induction a as [|x a IH]; [reflexivity |].
  change ((String x a ++ b) ++ c)%string with (String x ((a ++ b) ++ c)).
  now rewrite IH.
Qed.

Lemma last_component_from_colon_free (s acc : string) :
  colon_free s = true -> last_component_from s acc = (acc ++ s)%string.
Proof.
  revert acc. induction s as [|c s IH]; intros acc Hs; cbn [last_component_from].
  - now rewrite string_app_nil_r.
  - cbn [colon_free] in Hs. apply andb_true_iff in Hs as [Hc Hs].
    apply negb_true_iff in Hc. rewrite Hc, IH by exact Hs.
    apply string_app_assoc.
Qed.

Lemma last_component_from_prefix (p s acc : string) :
  last_component_from (p ++ ":" ++ s) acc = last_component_from s "".
Proof.
  revert acc. induction p as [|c p IH]; intros acc.
  - reflexivity.
  - change (String c p ++ ":" ++ s)%string with (String c (p ++ ":" ++ s)).
    cbn [last_component_from].
    destruct (Ascii.eqb c ":"%char); apply IH.
Qed.

(** X11. The used marker of a block is named after the part of the block
    key behind its last colon.  For an id without a colon, as every
    [str(uuid.uuid4())] is, the key that [add_entropy] builds gives the id
    back, and the marker that [get_entropy] tests and writes for it is
    entropy:used:<id>. *)
Theorem block_id_round_trip (block_id : string) :
  last_component (pool_key_prefix ++ ":" ++ block_id)
  = last_component block_id
  /\ (colon_free block_id = true ->
      last_component (pool_key_prefix ++ ":" ++ block_id) = block_id
      /\ used_key_of (pool_key_prefix ++ ":" ++ block_id)
         = (used_key_prefix ++ ":" ++ block_id)%string).
Proof.
  assert (H : last_component (pool_key_prefix ++ ":" ++ block_id)
              = last_component block_id).
  { unfold last_component. apply last_component_from_prefix. }
  split; [exact H |]. intros Hfree.
  assert (H' : last_component (pool_key_prefix ++ ":" ++ block_id) = block_id).
  { rewrite H. unfold last_component.
    now rewrite last_component_from_colon_free. }
  split; [exact H' |]. unfold used_key_of. now rewrite H'.
Qed.

Lemma block_id_round_trip_witness :
  last_component "entropy:block:6fa459ea-ee8a-3ca4-894e-db77e160355e"
  = "6fa459ea-ee8a-3ca4-894e-db77e160355e"%string
  /\ used_key_of "entropy:block:6fa459ea-ee8a-3ca4-894e-db77e160355e"
     = "entropy:used:6fa459ea-ee8a-3ca4-894e-db77e160355e"%string.
Proof.
  exact (proj2 (block_id_round_trip "6fa459ea-ee8a-3ca4-894e-db77e160355e")
           eq_refl).
Defined.

Lemma dict_get_set_eq (fields : list (string * json)) (k : string) (v : json) :
  dict_get (dict_set fields k v) k = Some v.
Proof.
  induction fields as [|[k0 v0] fields IH]; cbn [dict_set dict_get].
  - now rewrite String.eqb_refl.
  - destruct (String.eqb_spec k0 k) as [->|Hne]; cbn [dict_get].
    + now rewrite String.eqb_refl.
    + destruct (String.eqb_spec k0 k); [contradiction | exact IH].
Qed.

(** One statistics update on a connected pool: the counter goes up by the
    increment, the other counters stay, and no other key is touched. *)
Lemma update_stats_counter (now key : string) (increment a : Z)
    (self : EntropyPool) (fields : list (string * json)) :
  connected self = true ->
  stats_fields (db self) = Some fields ->
  counter_value fields key = JInt a ->
  key <> "last_updated"%string ->
  exists fields',
    _update_stats now key increment self
    = (Returned tt,
       {| connected := true;
          db := redis_set (db self) stats_key (Doc (JDict fields')) |})
    /\ counter_value fields' key = JInt (a + increment)
    /\ (forall name, name <> key -> name <> "last_updated"%string ->
        dict_get fields' name = dict_get fields name).
Proof.
  intros Hconn Hfields Hcount Hkey.
  unfold _update_stats, updated_stats, is_connected. rewrite Hconn. cbn [negb].
  unfold stats_fields in Hfields. unfold counter_value in Hcount.
  assert (Hgo : forall fields0,
            fields0 = fields ->
            exists fields',
              match
                match dict_get fields0 key with
                | Some (JInt v) => Returned (JInt (v + increment))
                | Some (JFloat f) => Returned (JFloat (f + float_of_Z increment))
                | Some _ => Raised TypeError
                | None => Returned (JInt (0 + increment))
                end
              with
              | Returned v =>
                  Returned (JDict (dict_set (dict_set fields0 key v)
                                     "last_updated" (JStr now)))
              | Raised e => Raised e
              end = Returned (JDict fields')
              /\ counter_value fields' key = JInt (a + increment)
              /\ (forall name, name <> key -> name <> "last_updated"%string ->
                  dict_get fields' name = dict_get fields name)).
  { intros fields0 ->.
    assert (Hframe : forall v name,
              name <> key -> name <> "last_updated"%string ->
              dict_get (dict_set (dict_set fields key v) "last_updated"
                          (JStr now)) name
              = dict_get fields name).
    { intros v name Hn1 Hn2. now rewrite !dict_get_set_ne by congruence. }
    assert (Hval : forall v,
              counter_value (dict_set (dict_set fields key v) "last_updated"
                               (JStr now)) key = v).
    { intros v. unfold counter_value.
      rewrite dict_get_set_ne by congruence. now rewrite dict_get_set_eq. }
    destruct (dict_get fields key) as [[z|f|s|p|l|fs]|]; try discriminate Hcount.
    - injection Hcount as ->. eexists. split; [reflexivity |].
      split; [apply Hval | apply Hframe].
    - injection Hcount as <-. eexists. split; [reflexivity |].
      split; [apply Hval | apply Hframe]. }
  destruct (redis_get (db self) stats_key) as [[j| |]|].
  - destruct j as [| | | | |fields0]; try discriminate Hfields.
    injection Hfields as ->.
    destruct (Hgo fields eq_refl) as (fields' & -> & H1 & H2).
    exists fields'. now split.
  - injection Hfields as <-.
    destruct (Hgo [] eq_refl) as (fields' & E & H1 & H2).
    exists fields'. split; [| now split].
    cbn [dict_get] in E |- *. injection E as <-. reflexivity.
  - injection Hfields as <-.
    destruct (Hgo [] eq_refl) as (fields' & E & H1 & H2).
    exists fields'. split; [| now split].
    cbn [dict_get] in E |- *. injection E as <-. reflexivity.
  - injection Hfields as <-.
    destruct (Hgo [] eq_refl) as (fields' & E & H1 & H2).
    exists fields'. split; [| now split].
    cbn [dict_get] in E |- *. injection E as <-. reflexivity.
Qed.

Lemma stats_fields_redis_set (d : store) (fields : list (string * json)) :
  stats_fields (redis_set d stats_key (Doc (JDict fields))) = Some fields.
Proof.
  unfold stats_fields, redis_get, redis_set. now rewrite lookup_insert_eq.
Qed.

Lemma block_key_not_stats (block_id : string) :
  (pool_key_prefix ++ ":" ++ block_id)%string <> stats_key.
Proof. discriminate. Qed.

Section Storing.

Variable entropy_ttl : Z.

Lemma add_entropy_effect
    (block_id : string) (clock : nat -> string) (entropy_data : bytes)
    (quality_score : float) (source_info : list (string * json))
    (self : EntropyPool) (fields : list (string * json)) (a b : Z) :
  connected self = true ->
  stats_fields (db self) = Some fields ->
  counter_value fields "blocks_added" = JInt a ->
  counter_value fields "total_bytes_added" = JInt b ->
  let key := (pool_key_prefix ++ ":" ++ block_id)%string in
  let r := add_entropy entropy_ttl block_id clock entropy_data quality_score
             source_info self in
  fst r = Returned block_id
  /\ connected (snd r) = true
  /\ decode_block (redis_get (db (snd r)) key) = Payload entropy_data
  /\ redis_ttl (db (snd r)) key = entropy_ttl
  /\ (forall x, x <> key -> x <> stats_key -> db (snd r) !! x = db self !! x)
  /\ exists fields',
       stats_fields (db (snd r)) = Some fields'
       /\ counter_value fields' "blocks_added" = JInt (a + 1)
       /\ counter_value fields' "total_bytes_added" = JInt (b + len entropy_data)
       /\ (forall name,
             name <> "blocks_added"%string ->
             name <> "total_bytes_added"%string ->
             name <> "last_updated"%string ->
             dict_get fields' name = dict_get fields name).
Proof.
  intros Hconn Hfields Ha Hb key r. unfold r, add_entropy, is_connected.
  rewrite Hconn. cbn [negb]. fold key.
  set (envelope := Doc (JDict _)).
  set (self0 := {| connected := true;
                   db := redis_setex (db self) key entropy_ttl envelope |}).
  assert (Hfields0 : stats_fields (db self0) = Some fields).
  { unfold stats_fields, redis_get, self0, redis_setex in *. cbn [db].
    rewrite lookup_insert_ne by apply block_key_not_stats. exact Hfields. }
  destruct (update_stats_counter (clock 1%nat) "blocks_added" 1 a self0 fields
              eq_refl Hfields0 Ha ltac:(discriminate))
    as (fields1 & -> & Ha1 & Hframe1).
  set (self1 := {| connected := true; db := _ |}).
  assert (Hb1 : counter_value fields1 "total_bytes_added" = JInt b).
  { unfold counter_value in *. now rewrite Hframe1 by discriminate. }
  destruct (update_stats_counter (clock 2%nat) "total_bytes_added"
              (len entropy_data) b self1 fields1 eq_refl
              (stats_fields_redis_set _ _) Hb1 ltac:(discriminate))
    as (fields2 & -> & Hb2 & Hframe2).
  cbn [fst snd db connected]. unfold self1, self0. cbn [db].
  assert (Hkey : forall d1 d2,
            redis_set (redis_set (redis_setex (db self) key entropy_ttl envelope)
                         stats_key d1) stats_key d2 !! key
            = Some {| value := envelope; ttl := entropy_ttl |}).
  { intros d1 d2. unfold redis_set, redis_setex.
    rewrite !lookup_insert_ne by (apply not_eq_sym, block_key_not_stats).
    apply lookup_insert_eq. }
  split; [reflexivity | split; [reflexivity | split; [| split; [| split]]]].
  - unfold redis_get. rewrite Hkey. reflexivity.
  - unfold redis_ttl. rewrite Hkey. reflexivity.
  - intros x Hx Hs. unfold redis_set, redis_setex.
    now rewrite !lookup_insert_ne by congruence.
  - exists fields2.
    split; [apply stats_fields_redis_set | split; [| split; [exact Hb2 |]]].
    + unfold counter_value in *. now rewrite Hframe2 by discriminate.
    + intros name H1 H2 H3. now rewrite Hframe2, Hframe1.
Qed.

(** X12. On a connected pool whose statistics document is a dict (or
    absent) with integer counters, [add_entropy] returns the block id and
    stores the block under entropy:block:<id> with the configured time to
    live; the payload that [get_entropy] decodes from that key is the
    stored data, byte for byte; and no key other than this one and the
    statistics key is changed. *)
Theorem add_entropy_stores
    (block_id : string) (clock : nat -> string) (entropy_data : bytes)
    (quality_score : float) (source_info : list (string * json))
    (self : EntropyPool) (fields : list (string * json)) (a b : Z) :
  connected self = true ->
  stats_fields (db self) = Some fields ->
  counter_value fields "blocks_added" = JInt a ->
  counter_value fields "total_bytes_added" = JInt b ->
  let key := (pool_key_prefix ++ ":" ++ block_id)%string in
  let r := add_entropy entropy_ttl block_id clock entropy_data quality_score
             source_info self in
  fst r = Returned block_id
  /\ payload_at (db (snd r)) key = entropy_data
  /\ redis_ttl (db (snd r)) key = entropy_ttl
  /\ (forall x, x <> key -> x <> stats_key -> db (snd r) !! x = db self !! x).
Proof.
  intros Hconn Hfields Ha Hb key r.
  destruct (add_entropy_effect block_id clock entropy_data quality_score
              source_info self fields a b Hconn Hfields Ha Hb)
    as (Hret & _ & Hdec & Httl & Hframe & _).
  split; [exact Hret | split; [| split; [exact Httl | exact Hframe]]].
  unfold payload_at. fold key in Hdec. unfold r. now rewrite Hdec.
Qed.

(** X13. Under the same conditions [add_entropy] raises the counter
    blocks_added by one and total_bytes_added by the number of bytes
    stored (an absent counter counts as 0), and leaves every other field
    of the statistics document but last_updated as it was. *)
Theorem add_entropy_counts
    (block_id : string) (clock : nat -> string) (entropy_data : bytes)
    (quality_score : float) (source_info : list (string * json))
    (self : EntropyPool) (fields : list (string * json)) (a b : Z) :
  connected self = true ->
  stats_fields (db self) = Some fields ->
  counter_value fields "blocks_added" = JInt a ->
  counter_value fields "total_bytes_added" = JInt b ->
  let r := add_entropy entropy_ttl block_id clock entropy_data quality_score
             source_info self in
  exists fields',
    stats_fields (db (snd r)) = Some fields'
    /\ counter_value fields' "blocks_added" = JInt (a + 1)
    /\ counter_value fields' "total_bytes_added" = JInt (b + len entropy_data)
    /\ (forall name,
          name <> "blocks_added"%string ->
          name <> "total_bytes_added"%string ->
          name <> "last_updated"%string ->
          dict_get fields' name = dict_get fields name).
Proof.
  intros Hconn Hfields Ha Hb r.
  destruct (add_entropy_effect block_id clock entropy_data quality_score
              source_info self fields a b Hconn Hfields Ha Hb)
    as (_ & _ & _ & _ & _ & Hstats).
  exact Hstats.
Qed.

End Storing.

Lemma empty_store_stats_fields : stats_fields (∅ : store) = Some [].
Proof. vm_compute. reflexivity. Qed.

Lemma add_entropy_stores_witness :
  payload_at (db one_block_pool) "entropy:block:b1"
  = ["001"; "002"; "003"; "004"]%byte
  /\ redis_ttl (db one_block_pool) "entropy:block:b1" = 3600.
Proof.
  destruct (add_entropy_stores 3600 "b1" noon ["001"; "002"; "003"; "004"]%byte
              0.9 [] {| connected := true; db := ∅ |} [] 0 0 eq_refl
              empty_store_stats_fields eq_refl eq_refl)
    as (_ & Hp & Ht & _).
  split; [exact Hp | exact Ht].
Defined.

Lemma add_entropy_counts_witness :
  exists fields',
    stats_fields (db one_block_pool) = Some fields'
    /\ counter_value fields' "blocks_added" = JInt 1
    /\ counter_value fields' "total_bytes_added" = JInt 4.
Proof.
  destruct (add_entropy_counts 3600 "b1" noon ["001"; "002"; "003"; "004"]%byte
              0.9 [] {| connected := true; db := ∅ |} [] 0 0 eq_refl
              empty_store_stats_fields eq_refl eq_refl)
    as (fields' & Hf & Ha & Hb & _).
  exists fields'. split; [exact Hf | split; [exact Ha | exact Hb]].
Defined.

(** ** What a take changes *)

(** The changes that the loop of [get_entropy] makes to a store: block
    keys are only deleted, used markers only created, and no other key is
    touched. *)
Definition only_claims (d d' : store) : Prop :=
  forall x : string,
    (String.prefix "entropy:block:" x = true ->
     d' !! x = None \/ d' !! x = d !! x)
    /\ (String.prefix "entropy:used:" x = true ->
        d' !! x = d !! x
        \/ (d !! x = None
            /\ exists t, d' !! x = Some {| value := marker; ttl := t |}))
    /\ (String.prefix "entropy:block:" x = false ->
        String.prefix "entropy:used:" x = false ->
        d' !! x = d !! x).

Lemma block_prefix_not_used (x : string) :
  String.prefix "entropy:block:" x = true ->
  String.prefix "entropy:used:" x = false.
Proof.
  intros H.
  do 8 (destruct x as [|? x]; [discriminate H |];
        cbn [String.prefix] in H |- *;
        match type of H with
        | context [ascii_dec ?a ?b] =>
            destruct (ascii_dec a b); [subst | discriminate H]
        end).
  destruct x as [|? x]; [discriminate H |].
  cbn [String.prefix] in H |- *.
  match type of H with
  | context [ascii_dec ?a ?b] =>
      destruct (ascii_dec a b); [subst | discriminate H]
  end.
  reflexivity.
Qed.

Lemma only_claims_refl (d : store) : only_claims d d.
Proof. intros x. repeat split; intros; auto. Qed.

Lemma only_claims_trans (d1 d2 d3 : store) :
  only_claims d1 d2 -> only_claims d2 d3 -> only_claims d1 d3.
Proof.
  intros H12 H23 x.
  destruct (H12 x) as (B12 & U12 & O12), (H23 x) as (B23 & U23 & O23).
  split; [| split].
  - intros Hb. destruct (B23 Hb) as [E|E]; [now left |].
    rewrite E. now apply B12.
  - intros Hu. destruct (U23 Hu) as [E|[E [t Ht]]].
    + rewrite E. now apply U12.
    + destruct (U12 Hu) as [E'|[E' [t' Ht']]].
      * right. split; [congruence | now exists t].
      * congruence.
  - intros Hb Hu. now rewrite O23, O12.
Qed.

Lemma only_claims_claim (d : store) (key : string) :
  String.prefix "entropy:block:" key = true ->
  redis_exists d (used_key_of key) = false ->
  only_claims d (claim_effect d key).
Proof.
  intros Hkey Hfree x.
  assert (Hun : d !! used_key_of key = None).
  { unfold redis_exists in Hfree. now destruct (d !! used_key_of key). }
  assert (Hlook : forall y, y <> key ->
            claim_effect d key !! y
            = if 0 <? redis_ttl d key
              then <[used_key_of key :=
                       {| value := marker; ttl := redis_ttl d key |}]> d !! y
              else d !! y).
  { intros y Hy. unfold claim_effect, redis_delete, redis_setex.
    cbn [fold_left]. rewrite lookup_delete_ne by congruence.
    now destruct (0 <? redis_ttl d key). }
  split; [| split].
  - intros Hb. destruct (decide (x = key)) as [->|Hne].
    + left. unfold claim_effect, redis_delete. cbn [fold_left].
      apply lookup_delete_eq.
    + right. rewrite Hlook by exact Hne.
      destruct (0 <? redis_ttl d key); [| reflexivity].
      apply lookup_insert_ne. intros E.
      rewrite <- E, used_key_of_not_block in Hb. discriminate Hb.
  - intros Hu.
    assert (Hne : x <> key).
    { intros ->. rewrite (block_prefix_not_used key Hkey) in Hu.
      discriminate Hu. }
    rewrite Hlook by exact Hne.
    destruct (0 <? redis_ttl d key); [| now left].
    destruct (decide (x = used_key_of key)) as [->|Hne'].
    + right. split; [exact Hun |]. eexists. apply lookup_insert_eq.
    + left. now apply lookup_insert_ne.
  - intros Hb Hu. apply lookup_claim_effect.
    + intros ->. congruence.
    + intros ->. rewrite used_key_of_is_used in Hu. discriminate Hu.
Qed.

Lemma collect_only_claims (n_bytes : Z) (keys : list string) :
  Forall (fun key => String.prefix "entropy:block:" key = true) keys ->
  forall (collected : bytes) (blocks_used : list string) (d : store),
  only_claims d (snd (collect n_bytes keys collected blocks_used d)).
Proof.
  induction 1 as [|key rest Hkey _ IH]; intros collected blocks_used d.
  - apply only_claims_refl.
  - cbn [collect].
    destruct (n_bytes <=? len collected); [apply only_claims_refl |].
    change (used_key_prefix ++ ":" ++ last_component key)%string
      with (used_key_of key).
    destruct (redis_exists d (used_key_of key)) eqn:Hex; [apply IH |].
    destruct (decode_block (redis_get d key)) as [p| |e];
      [| apply IH | apply only_claims_refl].
    change (redis_delete _ [key]) with (claim_effect d key).
    eapply only_claims_trans; [| apply IH].
    now apply only_claims_claim.
Qed.

(** The loop never collects more than it was asked for. *)
Lemma collect_bounded (n_bytes : Z) (keys : list string) :
  forall (collected : bytes) (blocks_used : list string) (d : store),
  len collected <= n_bytes ->
  match fst (collect n_bytes keys collected blocks_used d) with
  | Returned (collected', _) => len collected' <= n_bytes
  | Raised _ => True
  end.
Proof.
  induction keys as [|key rest IH]; intros collected blocks_used d Hle.
  - exact Hle.
  - cbn [collect].
    destruct (n_bytes <=? len collected); [exact Hle |].
    destruct (redis_exists d _); [now apply IH |].
    destruct (decode_block (redis_get d key)) as [p| |e];
      [| now apply IH | exact I].
    apply IH. unfold Hashing.slice_to, len in *.
    destruct (Z.leb_spec 0 (n_bytes - Z.of_nat (length collected))); [| lia].
    rewrite length_app, length_firstn. lia.
Qed.

Lemma update_stats_frame (now key : string) (increment : Z) (self : EntropyPool)
    (x : string) :
  x <> stats_key ->
  db (snd (_update_stats now key increment self)) !! x = db self !! x.
Proof.
  intros Hx. unfold _update_stats.
  destruct (negb (is_connected self)); [reflexivity |].
  destruct (updated_stats now key increment _); [reflexivity |].
  cbn [snd db]. unfold redis_set. now apply lookup_insert_ne.
Qed.

Section Taking.

Variable scan : store -> list string.
Hypothesis scan_keys : forall (d : store) (key : string),
  key ∈ scan d <-> is_Some (d !! key).
Hypothesis scan_NoDup : forall d : store, NoDup (scan d).

(** X14. Whatever the pool holds and whatever is asked, [get_entropy]
    never creates or alters a block (a block key is deleted or left as it
    was), never removes or alters a used marker that exists (it only
    creates markers), and changes no other key but the statistics key. *)
Theorem get_entropy_frame
    (clock : nat -> string) (n_bytes : Z) (self : EntropyPool) (x : string) :
  let self' := snd (get_entropy scan clock n_bytes self) in
  (String.prefix "entropy:block:" x = true ->
   db self' !! x = None \/ db self' !! x = db self !! x)
  /\ (String.prefix "entropy:used:" x = true ->
      db self' !! x = db self !! x
      \/ (db self !! x = None
          /\ exists t, db self' !! x = Some {| value := marker; ttl := t |}))
  /\ (String.prefix "entropy:block:" x = false ->
      String.prefix "entropy:used:" x = false ->
      x <> stats_key ->
      db self' !! x = db self !! x).
Proof.
  cbv zeta.
  assert (Hsame : forall self', db self' = db self ->
            (String.prefix "entropy:block:" x = true ->
             db self' !! x = None \/ db self' !! x = db self !! x)
            /\ (String.prefix "entropy:used:" x = true ->
                db self' !! x = db self !! x
                \/ (db self !! x = None
                    /\ exists t,
                         db self' !! x = Some {| value := marker; ttl := t |}))
            /\ (String.prefix "entropy:block:" x = false ->
                String.prefix "entropy:used:" x = false ->
                x <> stats_key ->
                db self' !! x = db self !! x)).
  { intros self' ->. repeat split; intros; auto. }
  unfold get_entropy.
  destruct (negb (is_connected self)); [now apply Hsame |].
  destruct (n_bytes <=? 0); [now apply Hsame |].
  pose proof (redis_keys_block_prefix scan scan_keys (db self)) as Hpre.
  destruct (redis_keys scan (db self) pool_key_prefix) as [|k rest] eqn:Ek;
    [now apply Hsame |].
  pose proof (collect_only_claims n_bytes (k :: rest) Hpre [] [] (db self))
    as Hclaims.
  destruct (collect n_bytes (k :: rest) [] [] (db self))
    as [[e|[collected used]] d'] eqn:Hcol; cbn [snd] in Hclaims.
  { cbn [snd db]. destruct (Hclaims x) as (B & U & O).
    split; [exact B | split; [exact U | intros; now apply O]]. }
  assert (Hstats : forall self'',
            (forall y, y <> stats_key -> db self'' !! y = d' !! y) ->
            (String.prefix "entropy:block:" x = true ->
             db self'' !! x = None \/ db self'' !! x = db self !! x)
            /\ (String.prefix "entropy:used:" x = true ->
                db self'' !! x = db self !! x
                \/ (db self !! x = None
                    /\ exists t,
                         db self'' !! x = Some {| value := marker; ttl := t |}))
            /\ (String.prefix "entropy:block:" x = false ->
                String.prefix "entropy:used:" x = false ->
                x <> stats_key ->
                db self'' !! x = db self !! x)).
  { intros self'' Hfr. destruct (Hclaims x) as (B & U & O).
    split; [| split].
    - intros Hb. rewrite Hfr; [now apply B |].
      intros ->. rewrite stats_key_not_block in Hb. discriminate Hb.
    - intros Hu. rewrite Hfr; [now apply U |].
      intros ->. rewrite stats_key_not_used in Hu. discriminate Hu.
    - intros Hb Hu Hs. rewrite Hfr by exact Hs. now apply O. }
  destruct ((len collected <? n_bytes) && (len collected =? 0)).
  { apply Hstats. reflexivity. }
  set (self0 := {| connected := connected self; db := d' |}).
  pose proof (update_stats_frame (clock 0%nat) "bytes_served" (len collected)
                self0) as F1.
  destruct (_update_stats (clock 0%nat) "bytes_served" (len collected) self0)
    as [[e|[]] self1]; cbn [snd] in F1.
  { apply Hstats. intros y Hy. now rewrite F1. }
  pose proof (update_stats_frame (clock 1%nat) "requests_served" 1 self1) as F2.
  destruct (_update_stats (clock 1%nat) "requests_served" 1 self1)
    as [[e|[]] self2]; cbn [snd] in F2;
    apply Hstats; intros y Hy; now rewrite F2, F1.
Qed.

(** X15. On a connected pool whose statistics document is a dict (or
    absent) with integer counters, a call [get_entropy(n)], n >= 1, that
    returns bytes raises bytes_served by the number of bytes it returns
    and requests_served by one; a call that returns [None] or raises
    leaves the statistics key as it was. *)
Theorem get_entropy_accounting
    (clock : nat -> string) (n_bytes : Z) (self : EntropyPool)
    (fields : list (string * json)) (a b : Z) :
  connected self = true ->
  1 <= n_bytes ->
  stats_fields (db self) = Some fields ->
  counter_value fields "bytes_served" = JInt a ->
  counter_value fields "requests_served" = JInt b ->
  let r := get_entropy scan clock n_bytes self in
  match fst r with
  | Returned (Some out) =>
      exists fields',
        stats_fields (db (snd r)) = Some fields'
        /\ counter_value fields' "bytes_served" = JInt (a + len out)
        /\ counter_value fields' "requests_served" = JInt (b + 1)
  | Returned None | Raised _ =>
      db (snd r) !! stats_key = db self !! stats_key
  end.
Proof.
  intros Hconn Hn Hfields Ha Hb r. unfold r, get_entropy, is_connected.
  rewrite Hconn. cbn [negb].
  destruct (Z.leb_spec n_bytes 0) as [|_]; [lia |].
  pose proof (redis_keys_block_prefix scan scan_keys (db self)) as Hpre.
  destruct (redis_keys scan (db self) pool_key_prefix) as [|k rest] eqn:Ek;
    [reflexivity |].
  pose proof (collect_only_claims n_bytes (k :: rest) Hpre [] [] (db self))
    as Hclaims.
  pose proof (collect_bounded n_bytes (k :: rest) [] [] (db self)
                ltac:(unfold len; cbn; lia)) as Hbound.
  destruct (collect n_bytes (k :: rest) [] [] (db self))
    as [[e|[collected used]] d'] eqn:Hcol; cbn [fst snd] in Hclaims, Hbound.
  { cbn [fst snd db]. destruct (Hclaims stats_key) as (_ & _ & O).
    apply O; reflexivity. }
  assert (Hd' : d' !! stats_key = db self !! stats_key).
  { destruct (Hclaims stats_key) as (_ & _ & O). apply O; reflexivity. }
  destruct ((len collected <? n_bytes) && (len collected =? 0));
    [exact Hd' |].
  set (self0 := {| connected := true; db := d' |}).
  assert (Hfields0 : stats_fields (db self0) = Some fields).
  { unfold stats_fields, redis_get in *. cbn [self0 db]. now rewrite Hd'. }
  destruct (update_stats_counter (clock 0%nat) "bytes_served" (len collected)
              a self0 fields eq_refl Hfields0 Ha ltac:(discriminate))
    as (fields1 & -> & Ha1 & Hframe1).
  set (self1 := {| connected := true; db := _ |}).
  assert (Hb1 : counter_value fields1 "requests_served" = JInt b).
  { unfold counter_value in *. now rewrite Hframe1 by discriminate. }
  destruct (update_stats_counter (clock 1%nat) "requests_served" 1 b self1
              fields1 eq_refl (stats_fields_redis_set _ _) Hb1
              ltac:(discriminate))
    as (fields2 & -> & Hb2 & Hframe2).
  cbn [fst snd db]. exists fields2.
  split; [apply stats_fields_redis_set | split; [| exact Hb2]].
  unfold counter_value in *. rewrite Hframe2 by discriminate.
  rewrite Ha1. do 2 f_equal.
  unfold Hashing.slice_to. destruct (Z.leb_spec 0 n_bytes); [| lia].
  rewrite firstn_all2 by (unfold len in Hbound; lia). reflexivity.
Qed.

End Taking.

Lemma get_entropy_frame_witness :
  db (snd (get_entropy map_order_scan noon 3 one_block_pool))
    !! "entropy:block:b1"%string = None
  \/ db (snd (get_entropy map_order_scan noon 3 one_block_pool))
       !! "entropy:block:b1"%string
     = db one_block_pool !! "entropy:block:b1"%string.
Proof.
  exact (proj1 (get_entropy_frame map_order_scan map_order_scan_keys noon 3
                  one_block_pool "entropy:block:b1") eq_refl).
Defined.

Lemma get_entropy_accounting_witness :
  match fst (get_entropy map_order_scan noon 3 one_block_pool) with
  | Returned (Some out) =>
      exists fields',
        stats_fields (db (snd (get_entropy map_order_scan noon 3
                                 one_block_pool))) = Some fields'
        /\ counter_value fields' "bytes_served" = JInt (0 + len out)
        /\ counter_value fields' "requests_served" = JInt (0 + 1)
  | Returned None | Raised _ =>
      db (snd (get_entropy map_order_scan noon 3 one_block_pool)) !! stats_key
      = db one_block_pool !! stats_key
  end.
Proof.
  apply (get_entropy_accounting map_order_scan map_order_scan_keys noon 3
           one_block_pool
           [("blocks_added", JInt 1); ("last_updated", JStr (noon 2%nat));
            ("total_bytes_added", JInt 4)]%string 0 0).
  - reflexivity.
  - lia.
  - vm_compute. reflexivity.
  - reflexivity.
  - reflexivity.
Defined.

(** ** Which blocks a take consumes *)


Section Consuming.

Variable scan : store -> list string.
Hypothesis scan_keys : forall (d : store) (key : string),
  key ∈ scan d <-> is_Some (d !! key).
Hypothesis scan_NoDup : forall d : store, NoDup (scan d).

(** What [get_entropy] returns and leaves once its loop has returned. *)
Lemma get_entropy_served
    (clock : nat -> string) (n_bytes : Z) (self : EntropyPool)
    (k : string) (rest : list string) (collected : bytes)
    (blocks_used : list string) (d' : store) :
  connected self = true ->
  1 <= n_bytes ->
  redis_keys scan (db self) pool_key_prefix = k :: rest ->
  collect n_bytes (k :: rest) [] [] (db self)
  = (Returned (collected, blocks_used), d') ->
  stats_ok d' ->
  fst (get_entropy scan clock n_bytes self)
  = (if len collected =? 0 then Returned None
     else Returned (Some (Hashing.slice_to collected n_bytes)))
  /\ (forall x, x <> stats_key ->
      db (snd (get_entropy scan clock n_bytes self)) !! x = d' !! x).
Proof.
  intros Hconn Hn Hkeys Hcol Hstats.
  unfold get_entropy, is_connected. rewrite Hconn. cbn [negb].
  destruct (Z.leb_spec n_bytes 0) as [|_]; [lia |].
  rewrite Hkeys, Hcol.
  destruct (Z.eqb_spec (len collected) 0) as [Hz|Hnz].
  - rewrite Hz. destruct (Z.ltb_spec 0 n_bytes); [| lia].
    cbn [andb fst snd db]. split; reflexivity.
  - rewrite andb_false_r.
    destruct (serve_updates_ok (clock 0%nat) (clock 1%nat) (len collected) d'
                Hstats) as (self1 & self2 & Hu1 & Hu2).
    pose proof (update_stats_frame (clock 0%nat) "bytes_served" (len collected)
                  {| connected := true; db := d' |}) as F1.
    pose proof (update_stats_frame (clock 1%nat) "requests_served" 1 self1)
      as F2.
    rewrite Hu1 in F1 |- *. rewrite Hu2 in F2 |- *. cbn [fst snd db] in *.
    split; [reflexivity |]. intros x Hx. now rewrite F2, F1.
Qed.


Lemma singleton_of_NoDup {A} (l : list A) (k : A) :
  NoDup l -> (forall x, x ∈ l <-> x = k) -> l = [k].
Proof.
  intros Hnd Hl. destruct l as [|a l].
  - exfalso. assert (H : k ∈ []) by now apply Hl. now apply elem_of_nil in H.
  - assert (a = k) as -> by (apply Hl; now left).
    destruct l as [|b l]; [reflexivity |].
    assert (b = k) as -> by (apply Hl; right; now left).
    apply NoDup_cons in Hnd as [Hnot _]. exfalso. apply Hnot. now left.
Qed.

Lemma nil_of_no_elements {A} (l : list A) : (forall x, x ∈ l -> False) -> l = [].
Proof. destruct l as [|a l]; [reflexivity |]. intros H. destruct (H a). now left. Qed.

Variable entropy_ttl : Z.

(** X17. Storing and taking back: on a connected pool that holds no
    block, whose statistics document is a dict (or absent) with integer
    counters, [add_entropy] of a buffer under an id without a colon and
    without a used marker, followed by [get_entropy(n)], n >= 1, returns
    the first n bytes of the buffer (all of it when it is shorter, [None]
    when it is empty). *)
Theorem add_then_take
    (block_id : string) (clock clock' : nat -> string) (entropy_data : bytes)
    (quality_score : float) (source_info : list (string * json))
    (n_bytes : Z) (self : EntropyPool) (fields : list (string * json)) :
  connected self = true ->
  1 <= n_bytes ->
  redis_keys scan (db self) pool_key_prefix = [] ->
  colon_free block_id = true ->
  db self !! (used_key_prefix ++ ":" ++ block_id)%string = None ->
  stats_fields (db self) = Some fields ->
  Forall (fun name => exists v, counter_value fields name = JInt v)
    ["blocks_added"; "total_bytes_added"; "bytes_served";
     "requests_served"]%string ->
  let stored := snd (add_entropy entropy_ttl block_id clock entropy_data
                       quality_score source_info self) in
  fst (get_entropy scan clock' n_bytes stored)
  = (if len entropy_data =? 0 then Returned None
     else Returned (Some (firstn (Z.to_nat n_bytes) entropy_data))).
Proof.
  intros Hconn Hn Hempty Hfree Hmarker Hfields Hcounters stored.
  inversion Hcounters as [|? ? [a Ha] Hc1]; subst.
  inversion Hc1 as [|? ? [b Hb] Hc2]; subst.
  inversion Hc2 as [|? ? [c Hc] Hc3]; subst.
  inversion Hc3 as [|? ? [e He] _]; subst.
  set (key := (pool_key_prefix ++ ":" ++ block_id)%string).
  destruct (add_entropy_effect entropy_ttl block_id clock entropy_data
              quality_score source_info self fields a b Hconn Hfields Ha Hb)
    as (_ & Hconn' & Hdec & _ & Hframe & fields' & Hfields' & _ & _ & Hother).
  fold key in Hdec, Hframe. fold stored in Hconn', Hdec, Hframe, Hfields'.
  assert (Hkeyb : String.prefix "entropy:block:" key = true).
  { unfold key. clear. cbn. now destruct block_id. }
  assert (Hkeys : redis_keys scan (db stored) pool_key_prefix = [key]).
  { apply singleton_of_NoDup; [apply NoDup_redis_keys, scan_NoDup |].
    intros x. rewrite elem_of_redis_keys by exact scan_keys. split.
    - intros [Hsome Hpre]. destruct (decide (x = key)) as [|Hne]; [assumption |].
      exfalso. rewrite Hframe in Hsome.
      + assert (Hin : x ∈ redis_keys scan (db self) pool_key_prefix).
        { apply elem_of_redis_keys; [exact scan_keys | now split]. }
        rewrite Hempty in Hin. now apply elem_of_nil in Hin.
      + exact Hne.
      + intros ->. change (pool_key_prefix ++ ":")%string
          with "entropy:block:"%string in Hpre.
        rewrite stats_key_not_block in Hpre. discriminate Hpre.
    - intros ->. split; [| exact Hkeyb].
      unfold redis_get in Hdec. destruct (db stored !! key); [done |].
      discriminate Hdec. }
  assert (Hused : used_key_of key = (used_key_prefix ++ ":" ++ block_id)%string).
  { unfold used_key_of, key, last_component.
    rewrite last_component_from_prefix.
    now rewrite last_component_from_colon_free. }
  assert (Hsound : sound_pool (db stored) [key]).
  { split; [| cbn [map]; apply NoDup_singleton].
    constructor; [| constructor]. split; [| now exists entropy_data].
    unfold redis_exists. rewrite Hused, Hframe.
    - now rewrite Hmarker.
    - intros E. rewrite <- Hused in E.
      apply (f_equal (String.prefix "entropy:block:")) in E.
      rewrite used_key_of_not_block, Hkeyb in E. discriminate E.
    - intros E. rewrite <- Hused in E.
      apply (f_equal (String.prefix "entropy:used:")) in E.
      rewrite used_key_of_is_used, stats_key_not_used in E. discriminate E. }
  assert (Hstats : stats_ok (db stored)).
  { unfold stats_ok. unfold stats_fields in Hfields'.
    destruct (redis_get (db stored) stats_key) as [[j| |]|]; try exact I.
    destruct j as [| | | | |fs]; try discriminate Hfields'.
    injection Hfields' as ->.
    unfold counter_value in Hc, He.
    rewrite !Hother by discriminate. unfold numeric.
    split.
    - destruct (dict_get fields "bytes_served") as [[]|];
        (exact I || discriminate Hc).
    - destruct (dict_get fields "requests_served") as [[]|];
        (exact I || discriminate He). }
  destruct (collect_claims n_bytes [key]
              ltac:(constructor; [exact Hkeyb | constructor])
              ltac:(apply NoDup_singleton) [] [] (db stored) Hsound)
    as (used' & d' & Hrun & Hd').
  assert (Hstats' : stats_ok d').
  { unfold stats_ok, redis_get in *. now rewrite Hd'. }
  destruct (get_entropy_served clock' n_bytes stored key [] _ _ d' Hconn' Hn
              Hkeys Hrun Hstats') as [Hres _].
  rewrite Hres. cbn [app map concat]. rewrite app_nil_r.
  unfold payload_at. rewrite Hdec.
  change (len (@nil byte)) with 0. rewrite Z.sub_0_r.
  assert (Hlen : len (firstn (Z.to_nat n_bytes) entropy_data) = 0
                 <-> len entropy_data = 0).
  { unfold len. rewrite length_firstn. lia. }
  destruct (Z.eqb_spec (len (firstn (Z.to_nat n_bytes) entropy_data)) 0) as [E|E],
           (Z.eqb_spec (len entropy_data) 0) as [E'|E']; try reflexivity;
    try (exfalso; tauto).
  do 2 f_equal. unfold Hashing.slice_to.
  destruct (Z.leb_spec 0 n_bytes); [| lia].
  rewrite firstn_firstn. f_equal. lia.
Qed.

(** X18. After [clear_pool] on a connected pool no block is left: a
    following [get_entropy(n)], n >= 1, returns [None] and changes
    nothing, and a second [clear_pool] changes nothing. *)
Theorem clear_pool_empties
    (clock : nat -> string) (n_bytes : Z) (self : EntropyPool) :
  connected self = true ->
  1 <= n_bytes ->
  let cleared := clear_pool scan self in
  get_entropy scan clock n_bytes cleared = (Returned None, cleared)
  /\ clear_pool scan cleared = cleared.
Proof.
  intros Hconn Hn cleared.
  assert (Hdb : forall key,
            db cleared !! key
            = if String.prefix "entropy:used:" key then None
              else if String.prefix "entropy:block:" key then None
              else db self !! key).
  { intros key. unfold cleared, clear_pool, is_connected. rewrite Hconn.
    cbn [negb db].
    set (d1 := match redis_keys scan (db self) pool_key_prefix with
               | [] => db self
               | _ => redis_delete (db self)
                        (redis_keys scan (db self) pool_key_prefix)
               end).
    assert (E1 : d1 = redis_delete (db self)
                        (redis_keys scan (db self) pool_key_prefix)).
    { unfold d1. now destruct (redis_keys scan (db self) pool_key_prefix). }
    assert (E2 : match redis_keys scan d1 used_key_prefix with
                 | [] => d1
                 | _ => redis_delete d1 (redis_keys scan d1 used_key_prefix)
                 end
                 = redis_delete d1 (redis_keys scan d1 used_key_prefix)).
    { now destruct (redis_keys scan d1 used_key_prefix). }
    rewrite E2, (lookup_delete_pattern scan scan_keys), E1,
      (lookup_delete_pattern scan scan_keys). reflexivity. }
  assert (Hcc : connected cleared = true).
  { unfold cleared, clear_pool, is_connected. now rewrite Hconn. }
  assert (Hnoblock : redis_keys scan (db cleared) pool_key_prefix = []).
  { apply nil_of_no_elements. intros x Hx.
    apply (elem_of_redis_keys scan scan_keys) in Hx as [[e He] Hp].
    change (pool_key_prefix ++ ":")%string with "entropy:block:"%string in Hp.
    rewrite Hdb, Hp in He. now destruct (String.prefix "entropy:used:" x). }
  assert (Hnoused : redis_keys scan (db cleared) used_key_prefix = []).
  { apply nil_of_no_elements. intros x Hx.
    apply (elem_of_redis_keys scan scan_keys) in Hx as [[e He] Hp].
    change (used_key_prefix ++ ":")%string with "entropy:used:"%string in Hp.
    rewrite Hdb, Hp in He. discriminate He. }
  split.
  - unfold get_entropy, is_connected. rewrite Hcc. cbn [negb].
    destruct (Z.leb_spec n_bytes 0) as [|_]; [lia |].
    now rewrite Hnoblock.
  - unfold clear_pool at 1. unfold is_connected. rewrite Hcc. cbn [negb].
    rewrite Hnoblock, Hnoused. destruct cleared as [c d]. cbn in *. now subst.
Qed.

End Consuming.


Lemma empty_store_no_blocks :
  redis_keys map_order_scan (∅ : store) pool_key_prefix = [].
Proof. vm_compute. reflexivity. Qed.

Lemma add_then_take_witness :
  fst (get_entropy map_order_scan noon 3 one_block_pool)
  = Returned (Some ["001"; "002"; "003"]%byte).
Proof.
  exact (add_then_take map_order_scan map_order_scan_keys map_order_scan_NoDup
           3600 "b1" noon noon ["001"; "002"; "003"; "004"]%byte 0.9 [] 3
           {| connected := true; db := ∅ |} [] eq_refl ltac:(lia)
           empty_store_no_blocks eq_refl (lookup_empty _)
           empty_store_stats_fields
           ltac:(repeat constructor; exists 0; reflexivity)).
Defined.

Lemma clear_pool_empties_witness :
  get_entropy map_order_scan noon 3 (clear_pool map_order_scan one_block_pool)
  = (Returned None, clear_pool map_order_scan one_block_pool)
  /\ clear_pool map_order_scan (clear_pool map_order_scan one_block_pool)
     = clear_pool map_order_scan one_block_pool.
Proof.
  apply (clear_pool_empties map_order_scan map_order_scan_keys noon 3
           one_block_pool eq_refl).
  lia.
Defined.

(** ** The statistics that [get_stats] and [health_check] report *)

(** The quality score that [get_stats] reads under a block key. *)
Definition quality_at (d : store) (key : string) : json :=
  match redis_get d key with
  | Some (Doc (JDict block_data)) =>
      match dict_get block_data "quality_score" with
      | Some quality => quality
      | None => JInt 0
      end
  | _ => JInt 0
  end.

Lemma stats_step_stored (d : store) (key : string) (t : Z) (qs : list json) :
  stored_block d key ->
  stats_step d (NInt t, qs) key
  = (NInt (t + len (payload_at d key)), qs ++ [quality_at d key])
  /\ exists q, quality_at d key = JFloat q.
Proof.
  intros (block_id & entropy_data & quality & written & info & seconds & Hd).
  unfold stats_step, quality_at, payload_at, decode_block, redis_get.
  rewrite Hd. cbn. split; [reflexivity | now exists quality].
Qed.

Lemma stats_fold_stored (d : store) (keys : list string) :
  Forall (stored_block d) keys ->
  forall (t : Z) (qs : list json),
  fold_left (stats_step d) keys (NInt t, qs)
  = (NInt (t + len (concat (map (payload_at d) keys))),
     qs ++ map (quality_at d) keys).
Proof.
  induction 1 as [|key keys Hkey _ IH]; intros t qs.
  - cbn. change (len (@nil byte)) with 0. now rewrite Z.add_0_r, app_nil_r.
  - cbn [fold_left map concat].
    destruct (stats_step_stored d key t qs Hkey) as [-> _].
    rewrite IH, <- app_assoc. cbn [app]. f_equal. f_equal.
    unfold len. rewrite length_app. lia.
Qed.

Lemma as_numbers_floats (values : list json) :
  Forall (fun v => exists q, v = JFloat q) values ->
  exists numbers,
    as_numbers values = Some numbers
    /\ Forall (fun x => is_int x = false) numbers
    /\ length numbers = length values.
Proof.
  induction 1 as [|v values [q ->] _ (numbers & IH & Hall & Hlen)].
  - exists []. repeat split; constructor.
  - exists (NFloat q :: numbers). cbn [as_numbers as_number]. rewrite IH.
    repeat split; [constructor; [reflexivity | exact Hall] | cbn; now rewrite Hlen].
Qed.

Section Reporting.

Variable scan : store -> list string.
Hypothesis scan_keys : forall (d : store) (key : string),
  key ∈ scan d <-> is_Some (d !! key).

Variable round : float -> Z -> float.
Variable settings_redis_host : string.
Variable settings_redis_port : Z.
Variable float_sum : list number -> option float.

(** The sum of a list of floats raises nothing. *)
Hypothesis float_sum_of_floats :
  forall numbers : list number,
    Forall (fun x => is_int x = false) numbers -> is_Some (float_sum numbers).

Lemma average_of_floats (values : list json) :
  Forall (fun v => exists q, v = JFloat q) values ->
  is_Some (average float_sum values).
Proof.
  intros Hall. unfold average. destruct values as [|v values]; [by eexists |].
  destruct (as_numbers_floats (v :: values) Hall) as (numbers & -> & Hf & Hlen).
  destruct numbers as [|x numbers]; [discriminate Hlen |].
  inversion Hf as [|? ? Hx _]; subst. cbn [forallb]. rewrite Hx. cbn [andb].
  destruct (float_sum_of_floats (x :: numbers) Hf) as [total ->]. by eexists.
Qed.

Lemma get_stats_stored (self : EntropyPool) (fields : list (string * json)) :
  connected self = true ->
  let keys := redis_keys scan (db self) pool_key_prefix in
  Forall (stored_block (db self)) keys ->
  len keys <= 100 ->
  stats_fields (db self) = Some fields ->
  exists avg_quality,
    get_stats scan round settings_redis_host settings_redis_port float_sum self
    = Some (Connected
              {| available_blocks := len keys;
                 available_bytes :=
                   NInt (len (concat (map (payload_at (db self)) keys)));
                 average_quality := round avg_quality 3;
                 blocks_added := counter_value fields "blocks_added";
                 total_bytes_added := counter_value fields "total_bytes_added";
                 bytes_served := counter_value fields "bytes_served";
                 requests_served := counter_value fields "requests_served";
                 redis_host := settings_redis_host;
                 redis_port := settings_redis_port |}).
Proof.
  intros Hconn keys Hstored Hfew Hfields.
  unfold get_stats, is_connected. rewrite Hconn. cbn [negb]. fold keys.
  assert (Hslice : Hashing.slice_to keys 100 = keys).
  { unfold Hashing.slice_to. cbn [Z.leb]. apply firstn_all2.
    unfold len in Hfew. lia. }
  rewrite Hslice, (stats_fold_stored (db self) keys Hstored 0 []).
  cbn [app]. rewrite Z.add_0_l.
  destruct (Z.ltb_spec 100 (len keys)) as [|_]; [lia |].
  rewrite Hfields.
  destruct (average_of_floats (map (quality_at (db self)) keys)) as [avg ->].
  { apply Forall_map. eapply Forall_impl; [exact Hstored |].
    intros key Hkey. exact (proj2 (stats_step_stored _ key 0 [] Hkey)). }
  now exists avg.
Qed.

(** X19. On a connected pool of at most 100 blocks, each as
    [add_entropy] writes it, with a statistics document that is a dict or
    absent, [get_stats] returns; its available_blocks is the number of
    block keys, its available_bytes the total length of their payloads
    (the bytes that [get_entropy] reads from them), and its four counters
    are those of the statistics document, 0 for an absent one. *)
Theorem get_stats_reports (self : EntropyPool) (fields : list (string * json)) :
  connected self = true ->
  let keys := redis_keys scan (db self) pool_key_prefix in
  Forall (stored_block (db self)) keys ->
  len keys <= 100 ->
  stats_fields (db self) = Some fields ->
  exists stats,
    get_stats scan round settings_redis_host settings_redis_port float_sum self
    = Some (Connected stats)
    /\ available_blocks stats = len keys
    /\ available_bytes stats
       = NInt (len (concat (map (payload_at (db self)) keys)))
    /\ blocks_added stats = counter_value fields "blocks_added"
    /\ total_bytes_added stats = counter_value fields "total_bytes_added"
    /\ bytes_served stats = counter_value fields "bytes_served"
    /\ requests_served stats = counter_value fields "requests_served".
Proof.
  intros Hconn keys Hstored Hfew Hfields.
  destruct (get_stats_stored self fields Hconn Hstored Hfew Hfields)
    as [avg Hget].
  eexists. split; [exact Hget |]. repeat split.
Qed.

(** X20. [health_check] on a pool that is not connected reports healthy
    = False with the error 'Redis not connected'; on a connected pool as
    above it reports healthy exactly when at least one block key exists,
    with the counts of [get_stats]. *)
Theorem health_check_reports
    (now : string) (self : EntropyPool) (fields : list (string * json)) :
  (connected self = false ->
   health_check scan round settings_redis_host settings_redis_port float_sum
     now self
   = Some {| redis_connected := false; timestamp := now;
             health_available_blocks := None; health_available_bytes := None;
             healthy := false;
             health_error := Some "Redis not connected"%string |})
  /\ (connected self = true ->
      let keys := redis_keys scan (db self) pool_key_prefix in
      Forall (stored_block (db self)) keys ->
      len keys <= 100 ->
      stats_fields (db self) = Some fields ->
      health_check scan round settings_redis_host settings_redis_port float_sum
        now self
      = Some {| redis_connected := true; timestamp := now;
                health_available_blocks := Some (len keys);
                health_available_bytes :=
                  Some (NInt (len (concat (map (payload_at (db self)) keys))));
                healthy := negb (len keys =? 0);
                health_error := None |}).
Proof.
  split.
  - intros Hconn. unfold health_check, is_connected. now rewrite Hconn.
  - intros Hconn keys Hstored Hfew Hfields.
    destruct (get_stats_stored self fields Hconn Hstored Hfew Hfields)
      as [avg Hget].
    unfold health_check, is_connected. rewrite Hconn.
    fold keys in Hget. rewrite Hget.
    cbn [available_blocks available_bytes]. do 2 f_equal.
    unfold len. destruct (length keys); reflexivity.
Qed.

End Reporting.

(** Plain left-to-right addition, as a stand-in for the builtin sum. *)
Definition plain_sum (numbers : list number) : option float :=
  Some (fold_left
          (fun total x =>
             match x with
             | NInt z => (total + float_of_Z z)%float
             | NFloat f => (total + f)%float
             end)
          numbers 0%float).

Lemma one_block_pool_stored :
  Forall (stored_block (db one_block_pool))
    (redis_keys map_order_scan (db one_block_pool) pool_key_prefix).
Proof.
  replace (redis_keys map_order_scan (db one_block_pool) pool_key_prefix)
    with ["entropy:block:b1"%string] by (vm_compute; reflexivity).
  constructor; [| constructor].
  exists "b1"%string, ["001"; "002"; "003"; "004"]%byte, 0.9%float,
    (noon 0%nat), [], 3600.
  vm_compute. reflexivity.
Qed.

Lemma one_block_pool_few :
  len (redis_keys map_order_scan (db one_block_pool) pool_key_prefix) <= 100.
Proof. vm_compute. discriminate. Qed.

Lemma one_block_pool_stats_fields :
  stats_fields (db one_block_pool)
  = Some [("blocks_added", JInt 1); ("last_updated", JStr (noon 2%nat));
          ("total_bytes_added", JInt 4)]%string.
Proof. vm_compute. reflexivity. Qed.

Lemma get_stats_reports_witness :
  exists stats,
    get_stats map_order_scan (fun x _ => x) "localhost" 6379 plain_sum
      one_block_pool = Some (Connected stats)
    /\ available_blocks stats = 1
    /\ available_bytes stats = NInt 4
    /\ blocks_added stats = JInt 1
    /\ bytes_served stats = JInt 0.
Proof.
  destruct (get_stats_reports map_order_scan (fun x _ => x) "localhost" 6379
              plain_sum (fun numbers _ => ltac:(by eexists))
              one_block_pool _ eq_refl one_block_pool_stored one_block_pool_few
              one_block_pool_stats_fields)
    as (stats & Hget & Hblocks & Hbytes & Hadded & _ & Hserved & _).
  exists stats. split; [exact Hget |].
  split; [rewrite Hblocks; vm_compute; reflexivity |].
  split; [rewrite Hbytes; vm_compute; reflexivity |].
  split; [rewrite Hadded; reflexivity | rewrite Hserved; reflexivity].
Defined.

Lemma health_check_reports_witness :
  health_check map_order_scan (fun x _ => x) "localhost" 6379 plain_sum
    (noon 0%nat) {| connected := false; db := ∅ |}
  = Some {| redis_connected := false; timestamp := noon 0%nat;
            health_available_blocks := None; health_available_bytes := None;
            healthy := false;
            health_error := Some "Redis not connected"%string |}.
Proof.
  exact (proj1 (health_check_reports map_order_scan (fun x _ => x) "localhost"
                  6379 plain_sum (fun numbers _ => ltac:(by eexists))
                  (noon 0%nat) {| connected := false; db := ∅ |} [])
           eq_refl).
Defined.

(** ** One take after the other *)

(** What [get_entropy] returns for the payload bytes [taken] of the blocks
    it consumed. *)
Definition served (n_bytes : Z) (taken : bytes) : outcome (option bytes) :=
  if len taken =? 0 then Returned None
  else Returned (Some (firstn (Z.to_nat n_bytes) taken)).

Section Sequence.

Variable scan : store -> list string.
Hypothesis scan_keys : forall (d : store) (key : string),
  key ∈ scan d <-> is_Some (d !! key).
Hypothesis scan_NoDup : forall d : store, NoDup (scan d).



End Sequence.


(** ** Facts used by the callers of the pool *)

Lemma get_entropy_bounds
    (scan : store -> list string) (clock : nat -> string) (n_bytes : Z)
    (self : EntropyPool) (out : bytes) :
  1 <= n_bytes ->
  fst (get_entropy scan clock n_bytes self) = Returned (Some out) ->
  1 <= len out <= n_bytes.
Proof.
  intros Hn. unfold get_entropy.
  destruct (negb (is_connected self)); [discriminate |].
  destruct (Z.leb_spec n_bytes 0) as [|_]; [lia |].
  destruct (redis_keys scan (db self) pool_key_prefix) as [|k rest];
    [discriminate |].
  destruct (collect n_bytes (k :: rest) [] [] (db self))
    as [[e|[collected used]] d']; [discriminate |].
  destruct ((len collected <? n_bytes) && (len collected =? 0)) eqn:Hcond;
    [discriminate |].
  destruct (_update_stats _ _ _ _) as [[e|[]] self1]; [discriminate |].
  destruct (_update_stats _ _ _ _) as [[e|[]] self2]; [discriminate |].
  cbn [fst]. intros [= <-].
  unfold Hashing.slice_to. destruct (Z.leb_spec 0 n_bytes); [| lia].
  unfold len in *. rewrite length_firstn.
  apply andb_false_iff in Hcond as [Hc|Hc].
  - apply Z.ltb_ge in Hc. lia.
  - apply Z.eqb_neq in Hc. lia.
Qed.

(** Whatever the statistics document is, [add_entropy] changes no key but
    the one of the block, which then holds the data, and the statistics
    key. *)
Lemma add_entropy_touches
    (entropy_ttl : Z) (block_id : string) (clock : nat -> string)
    (entropy_data : bytes) (quality_score : float)
    (source_info : list (string * json)) (self : EntropyPool) (x : string) :
  let key := (pool_key_prefix ++ ":" ++ block_id)%string in
  let self' := snd (add_entropy entropy_ttl block_id clock entropy_data
                      quality_score source_info self) in
  x <> stats_key ->
  db self' !! x = db self !! x
  \/ (x = key
      /\ decode_block (redis_get (db self') x) = Payload entropy_data).
Proof.
  intros key self' Hx. unfold self', add_entropy.
  destruct (negb (is_connected self)); [now left |].
  fold key. set (envelope := Doc (JDict _)).
  set (self0 := {| connected := connected self;
                   db := redis_setex (db self) key entropy_ttl envelope |}).
  assert (H0 : forall self1,
            db self1 !! x = db self0 !! x ->
            db self1 !! x = db self !! x
            \/ (x = key
                /\ decode_block (redis_get (db self1) x) = Payload entropy_data)).
  { intros self1 E. destruct (decide (x = key)) as [->|Hne].
    - right. split; [reflexivity |]. unfold redis_get. rewrite E.
      unfold self0, redis_setex. cbn [db]. now rewrite lookup_insert_eq.
    - left. rewrite E. unfold self0, redis_setex. cbn [db].
      now apply lookup_insert_ne. }
  pose proof (update_stats_frame (clock 1%nat) "blocks_added" 1 self0 x Hx)
    as F1.
  destruct (_update_stats (clock 1%nat) "blocks_added" 1 self0)
    as [[e|[]] self1]; cbn [snd] in F1 |- *; [now apply H0 |].
  pose proof (update_stats_frame (clock 2%nat) "total_bytes_added"
                (len entropy_data) self1 x Hx) as F2.
  destruct (_update_stats (clock 2%nat) "total_bytes_added" (len entropy_data)
              self1) as [[e|[]] self2]; cbn [snd] in F2 |- *;
    apply H0; now rewrite F2, F1.
Qed.

(** ** Blocks that cannot be claimed, and failures of the statistics *)

Lemma collect_keeps_unclaimable (n_bytes : Z) (keys : list string) (k : string) :
  Forall (fun key => String.prefix "entropy:block:" key = true) keys ->
  String.prefix "entropy:block:" k = true ->
  forall (collected : bytes) (blocks_used : list string) (d : store),
  redis_exists d (used_key_of k) = true
  \/ decode_block (redis_get d k) = Skip ->
  snd (collect n_bytes keys collected blocks_used d) !! k = d !! k.
Proof.
  intros Hpre Hk. induction Hpre as [|key rest Hkey _ IH];
    intros collected blocks_used d Hcannot; [reflexivity |].
  cbn [collect].
  destruct (n_bytes <=? len collected); [reflexivity |].
  change (used_key_prefix ++ ":" ++ last_component key)%string
    with (used_key_of key).
  destruct (redis_exists d (used_key_of key)) eqn:Hex; [now apply IH |].
  destruct (decode_block (redis_get d key)) as [p| |e] eqn:Hdec;
    [| now apply IH | reflexivity].
  change (redis_delete _ [key]) with (claim_effect d key).
  assert (Hne : k <> key).
  { intros ->. destruct Hcannot as [H|H]; congruence. }
  assert (Hkeep : claim_effect d key !! k = d !! k).
  { apply lookup_claim_effect; [exact Hne |].
    intros ->. rewrite used_key_of_not_block in Hk. discriminate Hk. }
  rewrite IH; [exact Hkeep |].
  destruct Hcannot as [Hmark|Hskip].
  - left. unfold redis_exists in *.
    rewrite lookup_claim_effect; [exact Hmark | |].
    + intros E. rewrite <- E, used_key_of_not_block in Hkey. discriminate Hkey.
    + intros E. rewrite E, Hex in Hmark. discriminate Hmark.
  - right. unfold redis_get in *. now rewrite Hkeep.
Qed.

Section Failing.

Variable scan : store -> list string.
Hypothesis scan_keys : forall (d : store) (key : string),
  key ∈ scan d <-> is_Some (d !! key).
Hypothesis scan_NoDup : forall d : store, NoDup (scan d).

(** X23. A block that [get_entropy] cannot claim stays in the pool: if
    the used marker of a block key exists, or if the value under the key
    is skipped by the loop (it is empty, is not JSON, or has no 'data'
    field), then no call of [get_entropy] serves or deletes it; its key
    holds after the call what it held before. *)
Theorem unclaimable_blocks_stay
    (clock : nat -> string) (n_bytes : Z) (self : EntropyPool) (k : string) :
  String.prefix "entropy:block:" k = true ->
  redis_exists (db self) (used_key_of k) = true
  \/ decode_block (redis_get (db self) k) = Skip ->
  db (snd (get_entropy scan clock n_bytes self)) !! k = db self !! k.
Proof.
  intros Hk Hcannot.
  assert (Hks : k <> stats_key).
  { intros ->. rewrite stats_key_not_block in Hk. discriminate Hk. }
  unfold get_entropy.
  destruct (negb (is_connected self)); [reflexivity |].
  destruct (n_bytes <=? 0); [reflexivity |].
  pose proof (redis_keys_block_prefix scan scan_keys (db self)) as Hpre.
  destruct (redis_keys scan (db self) pool_key_prefix) as [|k0 rest];
    [reflexivity |].
  pose proof (collect_keeps_unclaimable n_bytes (k0 :: rest) k Hpre Hk [] []
                (db self) Hcannot) as Hkeep.
  destruct (collect n_bytes (k0 :: rest) [] [] (db self))
    as [[e|[collected used]] d']; cbn [snd] in Hkeep; [exact Hkeep |].
  destruct ((len collected <? n_bytes) && (len collected =? 0));
    [exact Hkeep |].
  set (self0 := {| connected := connected self; db := d' |}).
  pose proof (update_stats_frame (clock 0%nat) "bytes_served" (len collected)
                self0 k Hks) as F1.
  destruct (_update_stats (clock 0%nat) "bytes_served" (len collected) self0)
    as [[e|[]] self1]; cbn [snd] in F1 |- *; [now rewrite F1 |].
  pose proof (update_stats_frame (clock 1%nat) "requests_served" 1 self1 k Hks)
    as F2.
  destruct (_update_stats (clock 1%nat) "requests_served" 1 self1)
    as [[e|[]] self2]; cbn [snd] in F2 |- *; now rewrite F2, F1.
Qed.

Variable entropy_ttl : Z.


End Failing.


Definition marked_pool : EntropyPool :=
  {| connected := true;
     db := redis_setex (db one_block_pool) "entropy:used:b1" 3600 marker |}.

Lemma unclaimable_blocks_stay_witness :
  db (snd (get_entropy map_order_scan noon 3 marked_pool))
    !! "entropy:block:b1"%string
  = db marked_pool !! "entropy:block:b1"%string.
Proof.
  apply (unclaimable_blocks_stay map_order_scan map_order_scan_keys noon 3
           marked_pool "entropy:block:b1").
  - reflexivity.
  - left. vm_compute. reflexivity.
Defined.



End Pool.

(** * api/routes.py *)

Module Routes.

Import Pool.

(** What a handler produces: the value it returns, an [HTTPException] it
    raises, or another exception that leaves it ([Failed]). *)
Inductive response (A : Type) :=
  | Ok (body : A)
  | HTTPException (status_code : Z) (detail : string)
  | Failed.
Arguments Ok {A} body.
Arguments HTTPException {A} status_code detail.
Arguments Failed {A}.

(** The body of a served request.  [encoded] is the field 'bytes': a
    string of base64 text, given by the bytes it decodes to;
    [body_length] is the field 'length'. *)
Record random_body := {
  encoded : bytes;
  body_length : Z;
  format : string
}.

Section Handlers.

Variable scan : store -> list string.

(** The handler of /random/{n}, called with [n] on the module-level pool;
    [clock] gives the timestamps of the statistics updates.  This is the
    body of the function, as [get_random_default] and a direct caller run
    it; the bounds that the [Path] declaration makes FastAPI check before
    it calls the handler for a request are not part of it. *)
Definition get_random_bytes (clock : nat -> string) (n : Z)
    (entropy_pool : EntropyPool) : response random_body * EntropyPool :=
  if (n <? 1) || (10240 <? n) then
    (HTTPException 400 "Number of bytes must be between 1 and 10240",
     entropy_pool)
  else
    match get_entropy scan clock n entropy_pool with
    | (Returned None, entropy_pool) =>
        (HTTPException 503 "Entropy pool is empty. Please try again later.",
         entropy_pool)
    | (Returned (Some entropy), entropy_pool) =>
        (Ok {| encoded := entropy; body_length := len entropy;
               format := "base64" |},
         entropy_pool)
    | (Raised ConnectionError, entropy_pool) =>
        (HTTPException 503 "Entropy service unavailable: Redis not connected",
         entropy_pool)
    | (Raised _, entropy_pool) => (Failed, entropy_pool)
    end.

(** The handler of /random. *)
Definition get_random_default (clock : nat -> string)
    (entropy_pool : EntropyPool) : response random_body * EntropyPool :=
  get_random_bytes clock 256 entropy_pool.

(** X21. The function [get_random_bytes], called with n outside
    1..10240, raises [HTTPException] 400 without touching the pool; on a
    pool that is not connected it raises [HTTPException] 503; and every
    body it returns carries between 1 and n bytes, its length field being
    their number, which can be less than n. *)
Theorem get_random_bytes_replies
    (clock : nat -> string) (n : Z) (entropy_pool : EntropyPool) :
  (n < 1 \/ 10240 < n ->
   get_random_bytes clock n entropy_pool
   = (HTTPException 400 "Number of bytes must be between 1 and 10240",
      entropy_pool))
  /\ (1 <= n <= 10240 -> connected entropy_pool = false ->
      get_random_bytes clock n entropy_pool
      = (HTTPException 503 "Entropy service unavailable: Redis not connected",
         entropy_pool))
  /\ (forall body,
        fst (get_random_bytes clock n entropy_pool) = Ok body ->
        1 <= n <= 10240
        /\ body_length body = len (encoded body)
        /\ 1 <= body_length body <= n
        /\ format body = "base64"%string).
Proof.
  unfold get_random_bytes. split; [| split].
  - intros Hn.
    destruct (Z.ltb_spec n 1), (Z.ltb_spec 10240 n); cbn [orb];
      try reflexivity; lia.
  - intros Hn Hconn.
    destruct (Z.ltb_spec n 1); [lia |]. destruct (Z.ltb_spec 10240 n); [lia |].
    cbn [orb]. unfold get_entropy, is_connected. now rewrite Hconn.
  - intros body.
    destruct (Z.ltb_spec n 1); [discriminate |].
    destruct (Z.ltb_spec 10240 n); [discriminate |]. cbn [orb].
    pose proof (get_entropy_bounds scan clock n entropy_pool) as Hb.
    destruct (get_entropy scan clock n entropy_pool) as [[e|[out|]] pool'].
    + destruct e; discriminate.
    + cbn [fst] in *. intros [= <-]. cbn [body_length encoded format].
      specialize (Hb out ltac:(lia) eq_refl).
      repeat split; try lia.
    + discriminate.
Qed.

End Handlers.

Lemma get_random_bytes_replies_witness :
  get_random_bytes map_order_scan noon 0 one_block_pool
  = (HTTPException 400 "Number of bytes must be between 1 and 10240",
     one_block_pool).
Proof.
  apply (get_random_bytes_replies map_order_scan noon 0 one_block_pool).
  left. lia.
Defined.

End Routes.

(** * main.py *)

Module Main.

Import Pool.

(** What ends an iteration of the generator early: an exception of the
    pool or the [struct.error] of the hasher. *)
Inductive failure :=
  | PoolError (e : exn)
  | StructError.

Section Generator.

(** The parameters of the modules that the generator calls. *)
Variable log2 : float -> float.
Variable round : float -> Z -> float.
Variable blake3_digest : bytes -> nat -> bytes.
Variable sha256_digest : bytes -> bytes.
Variable imread : string -> option NoiseExtraction.ndarray.
Variable cvtColor_BGR2GRAY :
  nat -> list (list (list byte)) -> NoiseExtraction.array2.
Variable extract_laplacian_noise :
  NoiseExtraction.array2 -> NoiseExtraction.array2.
Variable extract_fft_high_freq :
  NoiseExtraction.array2 -> float -> NoiseExtraction.array2.
Variable extract_pixel_differences :
  NoiseExtraction.array2 -> NoiseExtraction.array2.
Variable scan : store -> list string.
Variable entropy_ttl : Z.
Variable settings_redis_host : string.
Variable settings_redis_port : Z.
Variable float_sum : list number -> option float.

(** [validator.validate(block)] on the module-level validator, whose
    threshold is the default 7.8. *)
Definition validate (block : bytes) : Validation.result :=
  Validation.validate log2 round 7.8 block false.

(** The loop [for block in entropy_blocks] for one image.  [uuid i] is
    the id drawn for the [i]-th block of the list and [clock i] gives the
    timestamps of its [add_entropy]; the result is [added]. *)
Fixpoint add_valid_blocks (image_path : string) (uuid : nat -> string)
    (clock : nat -> nat -> string) (entropy_blocks : list bytes) (i : nat)
    (added : Z) (entropy_pool : EntropyPool) : outcome Z * EntropyPool :=
  match entropy_blocks with
  | [] => (Returned added, entropy_pool)
  | block :: rest =>
      let result := validate block in
      if Validation.passed result then
        match add_entropy entropy_ttl (uuid i) (clock i) block
                (Validation.quality_score result)
                [("source", JStr "space_image"); ("image", JStr image_path)]%string
                entropy_pool with
        | (Raised e, entropy_pool) => (Raised e, entropy_pool)
        | (Returned _, entropy_pool) =>
            add_valid_blocks image_path uuid clock rest (S i) (added + 1)
              entropy_pool
        end
      else
        add_valid_blocks image_path uuid clock rest (S i) added entropy_pool
  end.

(** The loop [for image_path in images], from the [j]-th image on.  For
    that image [rng j] is the generator that [sample_random_regions]
    seeds, [utcnow j] the clock of the hasher and [uuid j], [clock j] the
    ids and timestamps of the pool. *)
Fixpoint process_images (images : list string) (j : nat)
    (rng : nat -> nat -> nat -> nat) (utcnow : nat -> nat -> Z)
    (uuid : nat -> nat -> string) (clock : nat -> nat -> nat -> string)
    (hasher : Hashing.EntropyHasher) (entropy_pool : EntropyPool)
    : option failure * Hashing.EntropyHasher * EntropyPool :=
  match images with
  | [] => (None, hasher, entropy_pool)
  | image_path :: rest =>
      let raw_noise :=
        NoiseExtraction.extract_noise imread cvtColor_BGR2GRAY
          extract_laplacian_noise extract_fft_high_freq
          extract_pixel_differences (rng j) image_path in
      match Hashing.process_image_noise blake3_digest sha256_digest (utcnow j)
              raw_noise 4096 hasher with
      | (None, hasher) => (Some StructError, hasher, entropy_pool)
      | (Some entropy_blocks, hasher) =>
          match add_valid_blocks image_path (uuid j) (clock j) entropy_blocks
                  0 0 entropy_pool with
          | (Raised e, entropy_pool) => (Some (PoolError e), hasher, entropy_pool)
          | (Returned added, entropy_pool) =>
              if 0 <? added then (None, hasher, entropy_pool)
              else process_images rest (S j) rng utcnow uuid clock hasher
                     entropy_pool
          end
      end
  end.

(** [available_bytes < 1024 * 1024] for
    [available_bytes = stats.get('available_bytes', 0)]. *)
Definition pool_is_low (reply : stats_reply) : bool :=
  match reply with
  | Disconnected => 0 <? 1024 * 1024
  | Connected stats =>
      match available_bytes stats with
      | NInt z => z <? 1024 * 1024
      | NFloat f => (f <? 1048576)%float
      end
  end.

(** One turn of [while True] in [generate_entropy_continuously].
    [images] is what [get_stored_images()] lists; the first component of
    the result is the number of seconds the turn then sleeps: 30, or 60
    after an exception. *)
Definition generate_entropy_turn (images : list string)
    (rng : nat -> nat -> nat -> nat) (utcnow : nat -> nat -> Z)
    (uuid : nat -> nat -> string) (clock : nat -> nat -> nat -> string)
    (hasher : Hashing.EntropyHasher) (entropy_pool : EntropyPool)
    : Z * Hashing.EntropyHasher * EntropyPool :=
  match get_stats scan round settings_redis_host settings_redis_port float_sum
          entropy_pool with
  | None => (60, hasher, entropy_pool)
  | Some stats =>
      if pool_is_low stats then
        match process_images images 0 rng utcnow uuid clock hasher
                entropy_pool with
        | (Some _, hasher, entropy_pool) => (60, hasher, entropy_pool)
        | (None, hasher, entropy_pool) => (30, hasher, entropy_pool)
        end
      else (30, hasher, entropy_pool)
  end.

(** What a turn may change in the store: a block key is left as it was or
    holds a block that passes validation, and no other key but the
    statistics key is touched. *)
Definition only_valid_blocks (d d' : store) : Prop :=
  forall x : string,
    x <> stats_key ->
    d' !! x = d !! x
    \/ (String.prefix "entropy:block:" x = true
        /\ exists block,
             decode_block (redis_get d' x) = Payload block
             /\ Validation.passed (validate block) = true).

Lemma only_valid_blocks_refl (d : store) : only_valid_blocks d d.
Proof. intros x _. now left. Qed.

Lemma only_valid_blocks_trans (d1 d2 d3 : store) :
  only_valid_blocks d1 d2 -> only_valid_blocks d2 d3 ->
  only_valid_blocks d1 d3.
Proof.
  intros H12 H23 x Hx.
  destruct (H23 x Hx) as [E|Hnew]; [| now right].
  destruct (H12 x Hx) as [E'|(Hb & block & Hdec & Hpass)].
  - left. congruence.
  - right. split; [exact Hb |]. exists block. split; [| exact Hpass].
    unfold redis_get in *. now rewrite E.
Qed.

Lemma add_valid_blocks_only_valid (image_path : string) (uuid : nat -> string)
    (clock : nat -> nat -> string) (entropy_blocks : list bytes) :
  forall (i : nat) (added : Z) (entropy_pool : EntropyPool),
  only_valid_blocks (db entropy_pool)
    (db (snd (add_valid_blocks image_path uuid clock entropy_blocks i added
                entropy_pool))).
Proof.
  induction entropy_blocks as [|block rest IH]; intros i added entropy_pool.
  - apply only_valid_blocks_refl.
  - cbn [add_valid_blocks].
    destruct (Validation.passed (validate block)) eqn:Hpass; [| apply IH].
    pose proof (add_entropy_touches entropy_ttl (uuid i) (clock i) block
                  (Validation.quality_score (validate block))
                  [("source", JStr "space_image"); ("image", JStr image_path)]%string
                  entropy_pool) as Htouch.
    cbv zeta in Htouch.
    assert (Hstep : only_valid_blocks (db entropy_pool)
                      (db (snd (add_entropy entropy_ttl (uuid i) (clock i) block
                                  (Validation.quality_score (validate block))
                                  [("source", JStr "space_image");
                                   ("image", JStr image_path)]%string
                                  entropy_pool)))).
    { intros x Hx. destruct (Htouch x Hx) as [E|[-> Hdec]]; [now left |].
      right. split; [cbn; now destruct (uuid i) |].
      exists block. now split. }
    destruct (add_entropy _ _ _ _ _ _ _) as [[e|id] pool']; cbn [snd] in *.
    + exact Hstep.
    + eapply only_valid_blocks_trans; [exact Hstep | apply IH].
Qed.

(** X22. A turn of the generator changes the store only by adding blocks
    that pass validation: after it, every key other than the statistics
    key is as it was, or is a key entropy:block:* whose payload passes
    [validate] with the default threshold 7.8.  This holds whatever the
    images, the clock and the ids are, and also when the turn ends with an
    exception. *)
Theorem generator_stores_only_valid_blocks
    (images : list string) (rng : nat -> nat -> nat -> nat)
    (utcnow : nat -> nat -> Z) (uuid : nat -> nat -> string)
    (clock : nat -> nat -> nat -> string) (hasher : Hashing.EntropyHasher)
    (entropy_pool : EntropyPool) :
  only_valid_blocks (db entropy_pool)
    (db (snd (generate_entropy_turn images rng utcnow uuid clock hasher
                entropy_pool))).
Proof.
  unfold generate_entropy_turn.
  destruct (get_stats _ _ _ _ _ _) as [stats|]; [| apply only_valid_blocks_refl].
  destruct (pool_is_low stats); [| apply only_valid_blocks_refl].
  assert (Himages : forall j hasher0 pool0,
            only_valid_blocks (db pool0)
              (db (snd (process_images images j rng utcnow uuid clock hasher0
                          pool0)))).
  { clear. induction images as [|image_path rest IH]; intros j hasher0 pool0.
    - apply only_valid_blocks_refl.
    - cbn [process_images].
      destruct (Hashing.process_image_noise _ _ _ _ _ _) as [[blocks|] hasher1];
        [| apply only_valid_blocks_refl].
      pose proof (add_valid_blocks_only_valid image_path (uuid j) (clock j)
                    blocks 0%nat 0 pool0) as Hadd.
      destruct (add_valid_blocks _ _ _ _ _ _ _) as [[e|added] pool1];
        cbn [snd] in *; [exact Hadd |].
      destruct (0 <? added); [exact Hadd |].
      eapply only_valid_blocks_trans; [exact Hadd | apply IH]. }
  specialize (Himages 0%nat hasher entropy_pool).
  destruct (process_images _ _ _ _ _ _ _ _) as [[[f|] hasher1] pool1];
    exact Himages.
Qed.

End Generator.

End Main.
